(** * A shallow embedding of [pymatgen.symmetry.finder] (SymmetryFinder)

    The module wraps the spglib oracle: a session holds the structure,
    its species-index array and the oracle's answers, and derives the
    crystal system, the lattice type, primitive cells, irreducible
    k-points and the Setyawan-Curtarolo standard cells from them.

    Modelling conventions:
    - Python exceptions are the constructors of [exn]; a computation that
      may raise returns [result A].
    - Python integers are [Z]; list indices are [nat].
    - Lattice and site geometry is over the real numbers [R] of the
      Standard Library (no floating point): numpy's float arithmetic is
      read as exact arithmetic.
    - The oracle (spglib) is an external collaborator: its answers are
      inputs of the embedded functions. *)

From Stdlib Require Import ZArith Lia List Bool Permutation Sorted.
From Stdlib Require Import String Ascii.
From Stdlib Require Import Reals Lra Ratan.
Import ListNotations.

(** ** Python exceptions and the error monad *)

Inductive exn : Type :=
  | NameError      (** [UnboundLocalError] is a subclass of [NameError] *)
  | ValueError
  | IndexError
  | OracleError            (** whatever the spglib extension raises *)
  | ZeroDivisionError      (** float division by zero *)
  | AttributeError         (** a method looked up on [None] *)
  | LinAlgError            (** [numpy.linalg.inv] of a singular matrix *)
  | TypeError              (** [None[0]]: subscripting [None] *)
  | InvalidStructureError. (** named by the spec for a structure without
                               sites; no statement of the module raises it *)

Inductive result (A : Type) : Type :=
  | Ok : A -> result A
  | Err : exn -> result A.

Arguments Ok {A} _.
Arguments Err {A} _.

Definition bind {A B : Type} (m : result A) (f : A -> result B) : result B :=
  match m with
  | Ok a => f a
  | Err e => Err e
  end.

Notation "'let*' x ':=' m 'in' k" := (bind m (fun x => k))
  (at level 200, x name, m at level 100, right associativity).

(** Sequential [for] loop over a Python list threading the local state. *)
Fixpoint for_each {S A : Type} (xs : list A) (body : S -> A -> result S) (s : S)
  : result S :=
  match xs with
  | [] => Ok s
  | x :: xs' => let* s' := body s x in for_each xs' body s'
  end.

(** ** Strings *)

(** Python's [c in s] for a one-character [c]. *)
Fixpoint contains (c : ascii) (s : string) : bool :=
  match s with
  | EmptyString => false
  | String d s' => Ascii.eqb c d || contains c s'
  end.

(** Python's [s.startswith(c)] for a one-character [c]. *)
Definition startswith (c : ascii) (s : string) : bool :=
  match s with
  | EmptyString => false
  | String d _ => Ascii.eqb c d
  end.

(** ** Crystal system and lattice type (lines 142-183) *)

Module CrystalSystem.

Open Scope Z_scope.

(** The dict [cs] of [get_crystal_system], in source order. *)
Definition cs : list (string * (Z * Z)) :=
  [("triclinic", (1, 2)); ("monoclinic", (3, 15));
   ("orthorhombic", (16, 74)); ("tetragonal", (75, 142));
   ("trigonal", (143, 167)); ("hexagonal", (168, 194));
   ("cubic", (195, 230))]%string.

(** [f = lambda i, j: i <= n <= j] applied to an item [(k, (i, j))]. *)
Definition f (n : Z) (item : string * (Z * Z)) : bool :=
  let '(_, (i, j)) := item in (i <=? n) && (n <=? j).

(** [for k, v in cs.items(): if f( *v): crystal_sytem = k; break].
    The iteration order of a Python 2 dict is unspecified, so the loop is
    written over any enumeration [items] of the dict. *)
Definition get_crystal_system_in (items : list (string * (Z * Z))) (n : Z)
  : option string :=
  match find (f n) items with
  | Some (k, _) => Some k
  | None => None
  end.

Definition get_crystal_system (n : Z) : option string :=
  get_crystal_system_in cs n.

Definition rhombohedral_numbers : list Z := [146; 148; 155; 160; 161; 166; 167].

Definition get_lattice_type_in (items : list (string * (Z * Z))) (n : Z)
  : option string :=
  let system := get_crystal_system_in items n in
  if existsb (Z.eqb n) rhombohedral_numbers then Some "rhombohedral"%string
  else if match system with
          | Some k => String.eqb k "trigonal"
          | None => false
          end
       then Some "hexagonal"%string
       else system.

Definition get_lattice_type (n : Z) : option string :=
  get_lattice_type_in cs n.

End CrystalSystem.

(** ** Python list helpers *)

Module Py.

(** [l[i]] for a Python list: negative indices count from the end, an
    index out of range raises [IndexError]. *)
Definition index {A : Type} (l : list A) (i : Z) : result A :=
  let n := Z.of_nat (List.length l) in
  if (0 <=? i)%Z && (i <? n)%Z then
    match nth_error l (Z.to_nat i) with Some a => Ok a | None => Err IndexError end
  else if ((- n) <=? i)%Z && (i <? 0)%Z then
    match nth_error l (Z.to_nat (n + i)) with Some a => Ok a | None => Err IndexError end
  else Err IndexError.

(** [l[:k]] *)
Definition slice_to {A : Type} (l : list A) (k : Z) : list A :=
  if (0 <=? k)%Z then firstn (Z.to_nat k) l
  else firstn (Z.to_nat (Z.of_nat (List.length l) + k)) l.

(** [l.index(x)]: the position of the first element equal to [x];
    [None] stands for the [ValueError] raised when there is none. *)
Fixpoint index_of {A : Type} (eq_dec : forall x y : A, {x = y} + {x <> y})
  (x : A) (l : list A) : option nat :=
  match l with
  | [] => None
  | y :: l' =>
      if eq_dec x y then Some 0%nat
      else option_map S (index_of eq_dec x l')
  end.

(** [x in l] for a list of integers. *)
Definition mem (x : Z) (l : list Z) : bool := existsb (Z.eqb x) l.

(** Results of a list comprehension whose items may raise. *)
Fixpoint map_result {A B : Type} (f : A -> result B) (l : list A) : result (list B) :=
  match l with
  | [] => Ok []
  | a :: l' => let* b := f a in let* bs := map_result f l' in Ok (b :: bs)
  end.

End Py.

(** ** Geometry: vectors, 3x3 matrices, lattices and structures *)

Module Geo.

Open Scope R_scope.

Definition vec : Type := (R * R * R)%type.

Record mat3 : Type := mk_mat3 { row0 : vec; row1 : vec; row2 : vec }.

Definition vx (v : vec) : R := let '(x, _, _) := v in x.
Definition vy (v : vec) : R := let '(_, y, _) := v in y.
Definition vz (v : vec) : R := let '(_, _, z) := v in z.

Definition dot (u v : vec) : R := vx u * vx v + vy u * vy v + vz u * vz v.
Definition norm (v : vec) : R := sqrt (dot v v).
Definition scale (k : R) (v : vec) : vec := (k * vx v, k * vy v, k * vz v).
Definition vsub (u v : vec) : vec := (vx u - vx v, vy u - vy v, vz u - vz v).

(** [matrix[i]] for [i] in [{0, 1, 2}]. *)
Definition row (m : mat3) (i : nat) : vec :=
  match i with 0%nat => row0 m | 1%nat => row1 m | _ => row2 m end.

Definition transpose (m : mat3) : mat3 :=
  mk_mat3 (vx (row0 m), vx (row1 m), vx (row2 m))
          (vy (row0 m), vy (row1 m), vy (row2 m))
          (vz (row0 m), vz (row1 m), vz (row2 m)).

(** [np.dot(m, v)] for a matrix and a column vector. *)
Definition mat_vec (m : mat3) (v : vec) : vec :=
  (dot (row0 m) v, dot (row1 m) v, dot (row2 m) v).

(** [np.dot(v, m)] for a row vector and a matrix. *)
Definition vec_mat (v : vec) (m : mat3) : vec := mat_vec (transpose m) v.

(** [np.dot(a, b)] for two matrices. *)
Definition mat_mul (a b : mat3) : mat3 :=
  mk_mat3 (vec_mat (row0 a) b) (vec_mat (row1 a) b) (vec_mat (row2 a) b).

Definition mat_of_lists (r0 r1 r2 : vec) : mat3 := mk_mat3 r0 r1 r2.

Definition zeros : mat3 := mk_mat3 (0, 0, 0) (0, 0, 0) (0, 0, 0).
Definition eye : mat3 := mk_mat3 (1, 0, 0) (0, 1, 0) (0, 0, 1).

(** [m[i][j] = x] *)
Definition set_entry (m : mat3) (i j : nat) (x : R) : mat3 :=
  let upd (v : vec) :=
    match j with
    | 0%nat => (x, vy v, vz v)
    | 1%nat => (vx v, x, vz v)
    | _ => (vx v, vy v, x)
    end in
  match i with
  | 0%nat => mk_mat3 (upd (row0 m)) (row1 m) (row2 m)
  | 1%nat => mk_mat3 (row0 m) (upd (row1 m)) (row2 m)
  | _ => mk_mat3 (row0 m) (row1 m) (upd (row2 m))
  end.

(** [m[i] = v] *)
Definition set_row (m : mat3) (i : nat) (v : vec) : mat3 :=
  match i with
  | 0%nat => mk_mat3 v (row1 m) (row2 m)
  | 1%nat => mk_mat3 (row0 m) v (row2 m)
  | _ => mk_mat3 (row0 m) (row1 m) v
  end.

(** A site of a [Structure]: its [species_and_occu] value (a species with
    its occupancy; a disordered site has several species or an occupancy
    below one) and its fractional coordinates. *)
Record site (Sp : Type) : Type := mk_site { species_and_occu : Sp; frac_coords : vec }.

(** A [PeriodicSite] carries its own lattice. A site built from
    [s.specie] of an ordered site [s] has the [species_and_occu] value of
    [s] ([{specie: 1}]), which is the value kept here. *)
Record psite (Sp : Type) : Type :=
  mk_psite { ps_species_and_occu : Sp; ps_frac : vec; ps_lattice : mat3 }.

Record structure (Sp : Type) : Type :=
  mk_structure { lattice : mat3; sites : list (site Sp) }.

Arguments mk_site {Sp} _ _.
Arguments species_and_occu {Sp} _.
Arguments frac_coords {Sp} _.
Arguments mk_psite {Sp} _ _ _.
Arguments ps_species_and_occu {Sp} _.
Arguments ps_frac {Sp} _.
Arguments ps_lattice {Sp} _.
Arguments mk_structure {Sp} _ _.
Arguments lattice {Sp} _.
Arguments sites {Sp} _.

(** Modelled from the spec: [Structure(lattice, species, coords)] of
    [pymatgen.core.structure] pairs the species with the fractional
    coordinates; lists of different lengths are refused. *)
Definition Structure {Sp : Type} (latt : mat3) (species : list Sp) (coords : list vec)
  : result (structure Sp) :=
  if Nat.eqb (List.length species) (List.length coords)
  then Ok (mk_structure latt (map (fun '(s, c) => mk_site s c) (combine species coords)))
  else Err ValueError.

(** Modelled from the spec: [Structure.from_sites(sites)] takes the
    lattice of the first site ([sites[0]] raises on an empty list). *)
Definition from_sites {Sp : Type} (l : list (psite Sp)) : result (structure Sp) :=
  match l with
  | [] => Err IndexError
  | s :: _ =>
      Ok (mk_structure (ps_lattice s)
            (map (fun t => mk_site (ps_species_and_occu t) (ps_frac t)) l))
  end.

End Geo.

(** ** The analysis session (lines 51-93, 322-398) *)

Module Finder.
Import Geo.

Section Session.

(** The species-and-occupancy value of a site; Python compares them
    with [==]. *)
Variable Sp : Type.
Variable sp_eq_dec : forall x y : Sp, {x = y} + {x <> y}.

(** The spglib entry points, with the buffers they write in place
    returned as results. [None] stands for an exception raised by the
    extension. *)
Variable spg_spacegroup : mat3 -> list vec -> list nat -> R -> R -> option string.
Variable spg_primitive :
  mat3 -> list vec -> list nat -> R -> R -> option (Z * mat3 * list vec * list nat).
(** [spg.ir_kpoints(mapping, kpoints, lattice, positions, numbers,
    is_time_reversal * 1, symprec)] fills the integer buffer [mapping] in
    place; its contents afterwards are given as a function of the index. *)
Variable spg_ir_kpoints :
  list Z -> list vec -> mat3 -> list vec -> list nat -> Z -> R -> option (nat -> Z).

Record session : Type := mk_session {
  sf_symprec : R;
  sf_angle_tol : R;
  sf_structure : structure Sp;
  sf_transposed_latt : mat3;
  sf_positions : list vec;
  sf_unique_species : list Sp;
  sf_numbers : list nat;
  sf_spacegroup_data : string
}.

(** [itertools.groupby(structure, key=lambda s: s.species_and_occu)]:
    the maximal runs of equal consecutive keys, with their lengths. *)
Fixpoint groupby (xs : list Sp) : list (Sp * nat) :=
  match xs with
  | [] => []
  | x :: xs' =>
      match groupby xs' with
      | (k, c) :: rest =>
          if sp_eq_dec x k then (k, S c) :: rest else (x, 1%nat) :: (k, c) :: rest
      | [] => [(x, 1%nat)]
      end
  end.

(** The body of the grouping loop of [__init__] (lines 80-87): the state
    is [(unique_species, zs)]; [unique_species.index] raising
    [ValueError] is the [None] case. *)
Definition group_step (st : list Sp * list nat) (g : Sp * nat) : list Sp * list nat :=
  let '(unique_species, zs) := st in
  let '(species, len_g) := g in
  match Py.index_of sp_eq_dec species unique_species with
  | Some ind => (unique_species, zs ++ repeat (S ind) len_g)
  | None =>
      let unique_species' := unique_species ++ [species] in
      (unique_species', zs ++ repeat (List.length unique_species') len_g)
  end.

Definition species_numbers (xs : list Sp) : list Sp * list nat :=
  fold_left group_step (groupby xs) ([], []).

(** [SymmetryFinder.__init__(structure, symprec, angle_tolerance)]. *)
Definition init (st : structure Sp) (symprec angle_tolerance : R) : result session :=
  let transposed_latt := transpose (lattice st) in
  let positions := map frac_coords (sites st) in
  let '(unique_species, zs) := species_numbers (map species_and_occu (sites st)) in
  match spg_spacegroup transposed_latt positions zs symprec angle_tolerance with
  | Some data =>
      Ok (mk_session symprec angle_tolerance st transposed_latt positions
                     unique_species zs data)
  | None => Err OracleError
  end.

(** [find_primitive] (lines 322-347). *)
Definition find_primitive (s : session) : result (structure Sp) :=
  let positions := sf_positions s in
  let latt := sf_transposed_latt s in
  let numbers := sf_numbers s in
  match spg_primitive latt positions numbers (sf_symprec s) (sf_angle_tol s) with
  | None => Err OracleError
  | Some (num_atom_prim, latt', positions', numbers') =>
      let zs := Py.slice_to numbers' num_atom_prim in
      let* species :=
        Py.map_result (fun i => Py.index (sf_unique_species s) (Z.of_nat i - 1)%Z) zs in
      if (0 <? num_atom_prim)%Z
      then Structure (transpose latt') species (Py.slice_to positions' num_atom_prim)
      else Ok (sf_structure s)
  end.

(** [get_ir_kpoints_mapping] (lines 349-376): the buffer
    [np.zeros(len(kpoints), dtype=int)] after the oracle has filled it; the
    oracle's return value is not used. *)
Definition get_ir_kpoints_mapping (s : session) (kpoints : list vec)
  (is_time_reversal : bool) : result (list Z) :=
  let mapping := repeat 0%Z (List.length kpoints) in
  match spg_ir_kpoints mapping kpoints (sf_transposed_latt s) (sf_positions s)
          (sf_numbers s) (Z.b2z is_time_reversal) (sf_symprec s) with
  | Some filled => Ok (map filled (seq 0 (List.length kpoints)))
  | None => Err OracleError
  end.

(** The loop of [get_ir_kpoints] (lines 392-398) over a given mapping;
    the state is [(irr_kpts, n)]. *)
Definition ir_kpoints_loop (mapping : list Z) (kpoints : list vec)
  : result (list vec * list Z) :=
  for_each (combine (seq 0 (List.length kpoints)) kpoints)
    (fun '(irr_kpts, n) '(i, kpts) =>
       let* m := Py.index mapping (Z.of_nat i) in
       if negb (Py.mem m n)
       then Ok (irr_kpts ++ [kpts], n ++ [Z.of_nat i])
       else Ok (irr_kpts, n))
    ([], []).

Definition get_ir_kpoints (s : session) (kpoints : list vec) (is_time_reversal : bool)
  : result (list vec) :=
  let* mapping := get_ir_kpoints_mapping s kpoints is_time_reversal in
  let* st := ir_kpoints_loop mapping kpoints in
  Ok (fst st).

End Session.

Arguments mk_session {Sp} _ _ _ _ _ _ _ _.
Arguments sf_symprec {Sp} _.
Arguments sf_angle_tol {Sp} _.
Arguments sf_structure {Sp} _.
Arguments sf_transposed_latt {Sp} _.
Arguments sf_positions {Sp} _.
Arguments sf_unique_species {Sp} _.
Arguments sf_numbers {Sp} _.
Arguments sf_spacegroup_data {Sp} _.

End Finder.

(** ** The space-group string of a session (lines 95-121) *)

Module Symbol.

(** Whitespace for Python 2's [str.split()]. *)
Definition is_space (c : ascii) : bool :=
  existsb (Ascii.eqb c) [" "; "009"; "010"; "011"; "012"; "013"]%char.

Fixpoint split_aux (s : string) (cur : string) : list string :=
  match s with
  | EmptyString => if String.eqb cur "" then [] else [cur]
  | String c s' =>
      if is_space c
      then (if String.eqb cur "" then split_aux s' "" else cur :: split_aux s' "")
      else split_aux s' (String.append cur (String c EmptyString))
  end.

(** [s.split()]: the maximal runs of non-whitespace characters. *)
Definition split (s : string) : list string := split_aux s "".

Definition is_digit (c : ascii) : bool :=
  (48 <=? nat_of_ascii c)%nat && (nat_of_ascii c <=? 57)%nat.

(** [re.sub("\D", "", s)] *)
Fixpoint keep_digits (s : string) : string :=
  match s with
  | EmptyString => EmptyString
  | String c s' => if is_digit c then String c (keep_digits s') else keep_digits s'
  end.

Fixpoint digits_value (s : string) (acc : Z) : Z :=
  match s with
  | EmptyString => acc
  | String c s' => digits_value s' (10 * acc + Z.of_nat (nat_of_ascii c - 48))%Z
  end.

(** [int(s)] for a string of decimal digits; [int("")] raises [ValueError]. *)
Definition int_of_digits (s : string) : result Z :=
  if String.eqb s "" then Err ValueError else Ok (digits_value s 0%Z).

(** [get_spacegroup_symbol]: [self._spacegroup_data.split()[0]]. *)
Definition get_spacegroup_symbol {Sp : Type} (s : Finder.session Sp) : result string :=
  Py.index (split (Finder.sf_spacegroup_data s)) 0%Z.

(** [get_spacegroup_number]. *)
Definition get_spacegroup_number {Sp : Type} (s : Finder.session Sp) : result Z :=
  let* sgnum := Py.index (split (Finder.sf_spacegroup_data s)) (-1)%Z in
  int_of_digits (keep_digits sgnum).

(** [get_crystal_system], with the dict [cs] enumerated in source order
    (by [CrystalSystemFacts.get_crystal_system_in_perm] below, any order of
    the dict gives the same answer). *)
Definition get_crystal_system {Sp : Type} (s : Finder.session Sp) : result (option string) :=
  let* n := get_spacegroup_number s in Ok (CrystalSystem.get_crystal_system n).

Definition get_lattice_type {Sp : Type} (s : Finder.session Sp) : result (option string) :=
  let* n := get_spacegroup_number s in Ok (CrystalSystem.get_lattice_type n).

(** [x == k] for a value [x] that may be [None]. *)
Definition opt_is (x : option string) (k : string) : bool :=
  match x with Some k' => String.eqb k' k | None => false end.

End Symbol.

(** ** Lattices and periodic sites *)

Module Latt.
Import Geo.
Open Scope R_scope.

Definition Rltb (x y : R) : bool := if Rlt_dec x y then true else false.
Definition Rleb (x y : R) : bool := if Rle_dec x y then true else false.
Definition Reqb (x y : R) : bool := if Req_EM_T x y then true else false.

(** Modelled from the spec: [Lattice.abc], the lengths of the three rows. *)
Definition abc (m : mat3) : vec := (norm (row0 m), norm (row1 m), norm (row2 m)).

(** Modelled from the spec: the angle in degrees between two lattice
    vectors. *)
Definition angle_deg (u v : vec) : R := acos (dot u v / (norm u * norm v)) * 180 / PI.

(** Modelled from the spec: [Lattice.lengths_and_angles]: the lengths
    [(a, b, c)] and the angles [(alpha, beta, gamma)] in degrees, [alpha]
    between rows 1 and 2, [beta] between rows 0 and 2, [gamma] between
    rows 0 and 1. *)
Definition lengths_and_angles (m : mat3) : vec * vec :=
  (abc m, (angle_deg (row1 m) (row2 m), angle_deg (row0 m) (row2 m),
           angle_deg (row0 m) (row1 m))).

(** Modelled from the spec: [Lattice(matrix)] refuses [None] (numpy cannot
    reshape it into a 3x3 array). *)
Definition Lattice (m : option mat3) : result mat3 :=
  match m with Some m' => Ok m' | None => Err ValueError end.

Definition det3 (m : mat3) : R :=
  let '(a, b, c) := row0 m in let '(d, e, f) := row1 m in let '(g, h, i) := row2 m in
  a * (e * i - f * h) - b * (d * i - f * g) + c * (d * h - e * g).

(** [np.linalg.inv(m)]. *)
Definition inv3 (m : mat3) : result mat3 :=
  let '(a, b, c) := row0 m in let '(d, e, f) := row1 m in let '(g, h, i) := row2 m in
  let D := det3 m in
  if Req_EM_T D 0 then Err LinAlgError
  else Ok (mk_mat3 ((e * i - f * h) / D, (c * h - b * i) / D, (b * f - c * e) / D)
                   ((f * g - d * i) / D, (a * i - c * g) / D, (c * d - a * f) / D)
                   ((d * h - e * g) / D, (b * g - a * h) / D, (a * e - b * d) / D)).

(** Modelled from the spec: [Lattice.get_fractional_coords(cart)]. *)
Definition get_fractional_coords (m : mat3) (cart : vec) : result vec :=
  let* inv := inv3 m in Ok (vec_mat cart inv).

(** [site.coords]: the cartesian coordinates of a site of a lattice. *)
Definition coords (m : mat3) (frac : vec) : vec := vec_mat frac m.

(** [np.mod(frac, 1)]: the unit-cell representative. *)
Definition to_unit_cell (v : vec) : vec :=
  (frac_part (vx v), frac_part (vy v), frac_part (vz v)).

(** Modelled from the spec: [PeriodicSite(specie, frac_coords, lattice,
    to_unit_cell)]. *)
Definition PeriodicSite {Sp : Type} (sp : Sp) (frac : vec) (latt : mat3) (to_unit : bool)
  : psite Sp :=
  mk_psite sp (if to_unit then to_unit_cell frac else frac) latt.

(** Modelled from the spec: [PeriodicSite(..., coords_are_cartesian=True)]. *)
Definition PeriodicSite_cart {Sp : Type} (sp : Sp) (cart : vec) (latt : mat3)
  (to_unit : bool) : result (psite Sp) :=
  let* frac := get_fractional_coords latt cart in Ok (PeriodicSite sp frac latt to_unit).

Definition vec_eqb (u v : vec) : bool :=
  Reqb (vx u) (vx v) && Reqb (vy u) (vy v) && Reqb (vz u) (vz v).

Definition mat3_eqb (m n : mat3) : bool :=
  vec_eqb (row0 m) (row0 n) && vec_eqb (row1 m) (row1 n) && vec_eqb (row2 m) (row2 n).

(** [x] is an integer. *)
Definition is_int (x : R) : bool := Reqb (frac_part x) 0.

(** Modelled from the spec: [PeriodicSite.is_periodic_image(other)]: the
    same lattice, the same species, fractional coordinates differing by a
    lattice translation (read exactly, without the tolerance). *)
Definition is_periodic_image {Sp : Type} (sp_eq_dec : forall x y : Sp, {x = y} + {x <> y})
  (p q : psite Sp) : bool :=
  mat3_eqb (ps_lattice p) (ps_lattice q)
  && (if sp_eq_dec (ps_species_and_occu p) (ps_species_and_occu q) then true else false)
  && is_int (vx (ps_frac p) - vx (ps_frac q))
  && is_int (vy (ps_frac p) - vy (ps_frac q))
  && is_int (vz (ps_frac p) - vz (ps_frac q)).

(** [sorted(l, key=...)] with a [<=] test on the keys: an insertion sort,
    stable as Python's sort is. *)
Fixpoint insert_by {A : Type} (leb : A -> A -> bool) (x : A) (l : list A) : list A :=
  match l with
  | [] => [x]
  | y :: l' => if leb x y then x :: l else y :: insert_by leb x l'
  end.

Fixpoint sort_by {A : Type} (leb : A -> A -> bool) (l : list A) : list A :=
  match l with
  | [] => []
  | x :: l' => insert_by leb x (sort_by leb l')
  end.

(** [sorted([...])] of reals. *)
Definition sorted_R (l : list R) : list R := sort_by Rleb l.

(** The items [{'vec': ..., 'length': ..., 'orig_index': i}] of
    [sorted_dic]. *)
Record dic_entry : Type := mk_dic { d_vec : vec; d_length : R; d_orig_index : nat }.

Definition vec_nth (v : vec) (i : nat) : R :=
  match i with 0%nat => vx v | 1%nat => vy v | _ => vz v end.

(** [sorted([{'vec': m[i], 'length': abc[i], 'orig_index': i} for i in idx],
    key=lambda k: k['length'])] *)
Definition sorted_dic (m : mat3) (idx : list nat) : list dic_entry :=
  sort_by (fun p q => Rleb (d_length p) (d_length q))
    (map (fun i => mk_dic (row m i) (vec_nth (abc m) i) i) idx).

End Latt.

(** ** The symmetry dataset, the point group and the symmetry operations
    (lines 95-103, 125-140, 185-277, 738-778) *)

Module Dataset.
Import Geo.
Open Scope R_scope.

(** Leading whitespace (as [str.split()] counts it) removed. *)
Fixpoint drop_space (l : list ascii) : list ascii :=
  match l with
  | c :: l' => if Symbol.is_space c then drop_space l' else l
  | [] => []
  end.

(** [s.strip()] of a Python 2 [str]: the whitespace removed at both ends. *)
Definition strip (s : string) : string :=
  string_of_list_ascii (rev (drop_space (rev (drop_space (list_ascii_of_string s))))).

(** The tuple [spg.dataset] returns, one field per name of [keys], in the
    order of [keys]; [zip(keys, ...)] pairs them up one to one. The
    rotations become the numpy array [np.array(dataset["rotations"])]: its
    values, and whether its [dtype] is [float64] (spglib gave floats) or an
    integer type. *)
Record raw_dataset : Type := mk_raw {
  raw_number : Z;
  raw_international : string;
  raw_hall : string;
  raw_transformation_matrix : mat3;
  raw_origin_shift : vec;
  raw_rotations : list mat3;
  raw_rotations_float64 : bool;
  raw_translations : list vec;
  raw_wyckoffs : list Z;
  raw_equivalent_atoms : list Z
}.

(** The dict [get_symmetry_dataset] returns. *)
Record dataset : Type := mk_dataset {
  ds_number : Z;
  ds_international : string;
  ds_hall : string;
  ds_transformation_matrix : mat3;
  ds_origin_shift : vec;
  ds_rotations : list mat3;
  ds_rotations_float64 : bool;
  ds_translations : list vec;
  ds_wyckoffs : list ascii;
  ds_equivalent_atoms : list Z
}.

Definition letters : string :=
  "abcdefghijklmnopqrstuvwxyzABCDEFGHIJKLMNOPQRSTUVWXYZ".

(** A symmetry operation, as [SymmOp.from_rotation_and_translation(rot,
    trans)] of [pymatgen.core.operations] builds it: the affine map
    [x |-> rot . x + trans], kept as its two parts. *)
Record symmop : Type := mk_symmop { op_rotation : mat3; op_translation : vec }.

(** [np.int_] of a [float64]: truncation toward zero. *)
Definition trunc (x : R) : R :=
  if Rle_dec 0 x then IZR (Int_part x) else - IZR (Int_part (- x)).

Definition vec_map (f : R -> R) (v : vec) : vec := (f (vx v), f (vy v), f (vz v)).

Definition int_mat (m : mat3) : mat3 :=
  mk_mat3 (vec_map trunc (row0 m)) (vec_map trunc (row1 m)) (vec_map trunc (row2 m)).

(** The conversion at the head of the module function [get_point_group]:
    [if rotations.dtype == "float64": rotations = np.int_(rotations)]. *)
Definition point_group_rotations (float64 : bool) (rotations : list mat3) : list mat3 :=
  if float64 then map int_mat rotations else rotations.

(** [Spacegroup(int_symbol, int_number, symmops)] of
    [pymatgen.symmetry.spacegroup], modelled from the spec: it keeps the
    three values it is built from, and [int_symbol] reads the first. *)
Record spacegroup : Type :=
  mk_spacegroup { int_symbol : string; int_number : Z; sg_symmops : list symmop }.

Section Oracle.

Variable Sp : Type.
(** [spg.dataset(lattice, positions, numbers, symprec, angle_tolerance)];
    [None] stands for an exception raised by the extension. *)
Variable spg_dataset : mat3 -> list vec -> list nat -> R -> R -> option raw_dataset.
(** [spg.symmetry(rotation, translation, lattice, positions, numbers,
    symprec, angle_tolerance)] writes its operations into the two buffers
    and returns their number [num_sym]. The buffers are numpy arrays, whose
    length an in-place write does not change: the oracle gives the value of
    every slot after the call. *)
Variable spg_symmetry :
  list mat3 -> list vec -> mat3 -> list vec -> list nat -> R -> R ->
  option (Z * (nat -> mat3) * (nat -> vec)).
(** [spg.pointgroup(rotations)]: the tuple [(symbol, pointgroup_number,
    transformation_matrix)]; [None] stands for an exception raised by the
    extension. *)
Variable spg_pointgroup : list mat3 -> option (string * Z * mat3).

(** The module function [get_point_group(rotations)] (lines 738-778), for
    the numpy array [rotations] given by its [dtype] test and its values. *)
Definition get_point_group_fn (float64 : bool) (rotations : list mat3)
  : result (string * Z * mat3) :=
  match spg_pointgroup (point_group_rotations float64 rotations) with
  | Some r => Ok r
  | None => Err OracleError
  end.

(** [get_symmetry_dataset] (lines 185-235). *)
Definition get_symmetry_dataset (s : Finder.session Sp) : result dataset :=
  match spg_dataset (Finder.sf_transposed_latt s) (Finder.sf_positions s)
          (Finder.sf_numbers s) (Finder.sf_symprec s) (Finder.sf_angle_tol s) with
  | None => Err OracleError
  | Some raw =>
      let* wyckoffs :=
        Py.map_result (fun x => Py.index (list_ascii_of_string letters) x)
          (raw_wyckoffs raw) in
      Ok (mk_dataset (raw_number raw) (strip (raw_international raw))
            (strip (raw_hall raw)) (raw_transformation_matrix raw)
            (raw_origin_shift raw) (raw_rotations raw) (raw_rotations_float64 raw)
            (raw_translations raw) wyckoffs (raw_equivalent_atoms raw))
  end.

(** [get_hall] (lines 125-130). *)
Definition get_hall (s : Finder.session Sp) : result string :=
  let* ds := get_symmetry_dataset s in Ok (ds_hall ds).

(** The method [get_point_group] (lines 132-140):
    [get_point_group(ds["rotations"])[0].strip()]; inside the method the
    name is the module function. *)
Definition get_point_group (s : Finder.session Sp) : result string :=
  let* ds := get_symmetry_dataset s in
  let* pg := get_point_group_fn (ds_rotations_float64 ds) (ds_rotations ds) in
  let '(symbol, _, _) := pg in
  Ok (strip symbol).

(** [_get_symmetry] (lines 237-259). *)
Definition _get_symmetry (s : Finder.session Sp) : result (list mat3 * list vec) :=
  let multi := (48 * List.length (sites (Finder.sf_structure s)))%nat in
  match spg_symmetry (repeat zeros multi) (repeat (0, 0, 0) multi)
          (Finder.sf_transposed_latt s) (Finder.sf_positions s) (Finder.sf_numbers s)
          (Finder.sf_symprec s) (Finder.sf_angle_tol s) with
  | None => Err OracleError
  | Some (num_sym, rot, trans) =>
      let rotation := map rot (seq 0 multi) in
      let translation := map trans (seq 0 multi) in
      Ok (Py.slice_to rotation num_sym, Py.slice_to translation num_sym)
  end.

(** [get_symmetry_operations(cartesian)] (lines 261-277). *)
Definition get_symmetry_operations (s : Finder.session Sp) (cartesian : bool)
  : result (list symmop) :=
  let* rt := _get_symmetry s in
  let '(rotation, translation) := rt in
  let mat := transpose (lattice (Finder.sf_structure s)) in
  let* invmat := Latt.inv3 mat in
  Ok (map (fun '(rot, trans) =>
             if cartesian
             then mk_symmop (mat_mul mat (mat_mul rot invmat))
                    (vec_mat trans (lattice (Finder.sf_structure s)))
             else mk_symmop rot trans)
          (combine rotation translation)).

(** [get_spacegroup] (lines 95-103): the arguments are evaluated from
    left to right. *)
Definition get_spacegroup (s : Finder.session Sp) : result spacegroup :=
  let* sym := Symbol.get_spacegroup_symbol s in
  let* num := Symbol.get_spacegroup_number s in
  let* ops := get_symmetry_operations s false in
  Ok (mk_spacegroup sym num ops).

End Oracle.

End Dataset.

(** ** Standard cells (lines 299-321, 400-735) *)

Module Standard.
Import Geo Latt.
Open Scope R_scope.

Section Standard.

Variable Sp : Type.
Variable sp_eq_dec : forall x y : Sp, {x = y} + {x <> y}.
(** [spg.refine_cell]: the number of atoms of the Bravais cell and the
    lattice, position and number buffers it writes; [None] stands for an
    exception raised by the extension. *)
Variable spg_refine_cell :
  mat3 -> list vec -> list nat -> R -> R -> option (Z * mat3 * list vec * list nat).
(** [SupercellMaker(struct, scaling).modified_structure] *)
Variable supercell : structure Sp -> mat3 -> structure Sp.
(** [struct.get_reduced_structure("LLL")] (a library call) *)
Variable lll_reduce : structure Sp -> structure Sp.
(** The canonical order of sites (species, then position) that Python's
    [sorted] uses on the sites of a structure. *)
Variable site_leb : site Sp -> site Sp -> bool.
(** [Site.is_ordered] of [pymatgen.core.sites], on the species-and-occupancy
    value: one species with occupancy one. *)
Variable is_ordered : Sp -> bool.
(** [spg.symmetry], read by [get_spacegroup] in the monoclinic branch. *)
Variable spg_symmetry :
  list mat3 -> list vec -> mat3 -> list vec -> list nat -> R -> R ->
  option (Z * (nat -> mat3) * (nat -> vec)).

(** Modelled from the spec: the property [site.specie] of
    [pymatgen.core.sites] raises [AttributeError] on a disordered site; on an
    ordered one it gives the single species, represented here by the site's
    species-and-occupancy value. *)
Definition site_specie (t : site Sp) : result Sp :=
  if is_ordered (species_and_occu t) then Ok (species_and_occu t) else Err AttributeError.

(** Modelled from the spec: [Structure.get_sorted_structure()]: the sites
    sorted canonically, as periodic sites of the structure's lattice, made
    into a structure by [from_sites]. *)
Definition get_sorted_structure (st : structure Sp) : result (structure Sp) :=
  from_sites (map (fun t => mk_psite (species_and_occu t) (frac_coords t) (lattice st))
                  (sort_by site_leb (sites st))).

(** [get_refined_structure] (lines 299-321). *)
Definition get_refined_structure (s : Finder.session Sp) : result (structure Sp) :=
  match spg_refine_cell (Finder.sf_transposed_latt s) (Finder.sf_positions s)
          (Finder.sf_numbers s) (Finder.sf_symprec s) (Finder.sf_angle_tol s) with
  | None => Err OracleError
  | Some (num_atom_bravais, latt', pos', numbers') =>
      let zs := Py.slice_to numbers' num_atom_bravais in
      let* species :=
        Py.map_result (fun i => Py.index (Finder.sf_unique_species s) (Z.of_nat i - 1)%Z) zs in
      let* st := Structure (transpose latt') species (Py.slice_to pos' num_atom_bravais) in
      get_sorted_structure st
  end.

(** The module constant [tol = 1e-5]. *)
Definition tol : R := 1 / 100000.

(** The sites of [struct] mapped by a fractional transformation into a new
    lattice: [PeriodicSite(s.specie, np.dot(transf, s.frac_coords),
    Lattice(new_matrix), to_unit_cell=...)] for each site, the arguments
    evaluated from left to right. *)
Definition map_sites (struct : structure Sp) (transf : mat3) (new_matrix : option mat3)
  (to_unit : bool) : result (list (psite Sp)) :=
  Py.map_result
    (fun t => let* sp := site_specie t in
              let* L := Lattice new_matrix in
              Ok (PeriodicSite sp (mat_vec transf (frac_coords t)) L to_unit))
    (sites struct).

(** The permutation matrix [transf[c][sorted_dic[c]['orig_index']] = 1]. *)
Definition perm_transf (init : mat3) (sd : list dic_entry) : mat3 :=
  fold_left (fun tr '(c, d) => set_entry tr c (d_orig_index d) 1)
    (combine (seq 0 (List.length sd)) sd) init.

Definition diag (x y z : R) : mat3 := mk_mat3 (x, 0, 0) (0, y, 0) (0, 0, z).

Definition sl (l : list R) (i : nat) : R := nth i l 0.

(** The orthorhombic and cubic branch (lines 486-520). *)
Definition conv_orthorhombic (sym : string) (struct : structure Sp)
  : result (structure Sp) :=
  let m := lattice struct in
  let '(transf, new_matrix) :=
    if startswith "C" sym then
      let sorted_lengths := sorted_R [vx (abc m); vy (abc m)] in
      let sd := sorted_dic m [0; 1]%nat in
      (perm_transf (set_row zeros 2 (0, 0, 1)) sd,
       diag (sl sorted_lengths 0) (sl sorted_lengths 1) (vz (abc m)))
    else
      let sorted_lengths := sorted_R [vx (abc m); vy (abc m); vz (abc m)] in
      let sd := sorted_dic m [0; 1; 2]%nat in
      (perm_transf zeros sd,
       diag (sl sorted_lengths 0) (sl sorted_lengths 1) (sl sorted_lengths 2)) in
  let* new_sites := map_sites struct transf (Some new_matrix) true in
  from_sites new_sites.

(** The tetragonal branch (lines 522-545). *)
Definition conv_tetragonal (struct : structure Sp) : result (structure Sp) :=
  let m := lattice struct in
  let sorted_lengths := sorted_R [vx (abc m); vy (abc m); vz (abc m)] in
  let transf := perm_transf zeros (sorted_dic m [0; 1; 2]%nat) in
  let '(a, c, transf) :=
    if Rltb (Rabs (sl sorted_lengths 1 - sl sorted_lengths 2)) tol
    then (sl sorted_lengths 2, sl sorted_lengths 0,
          mat_mul (mk_mat3 (0, 0, 1) (0, 1, 0) (1, 0, 0)) transf)
    else (sl sorted_lengths 0, sl sorted_lengths 2, transf) in
  let* new_sites := map_sites struct transf (Some (diag a a c)) true in
  from_sites new_sites.

(** The test of lines 554-558: the three lengths agree within [0.001]. *)
Definition rhombohedral_setting (m : mat3) : bool :=
  let l0 := abc m in
  Rltb (Rabs (vx l0 - vy l0)) (1 / 1000) && Rltb (Rabs (vz l0 - vy l0)) (1 / 1000)
  && Rltb (Rabs (vx l0 - vz l0)) (1 / 1000).

(** The scaling [((1, -1, 0), (0, 1, -1), (1, 1, 1))] of line 559. *)
Definition hex_scaling : mat3 := mk_mat3 (1, -1, 0) (0, 1, -1) (1, 1, 1).

(** The hexagonal and rhombohedral branch (lines 547-578). *)
Definition conv_hexagonal (struct0 : structure Sp) : result (structure Sp) :=
  let l0 := abc (lattice struct0) in
  let '(struct, sorted_lengths) :=
    if rhombohedral_setting (lattice struct0)
    then let st := supercell struct0 hex_scaling in
         let l := abc (lattice st) in (st, sorted_R [vx l; vy l; vz l])
    else (struct0, sorted_R [vx l0; vy l0; vz l0]) in
  let '(a, c) :=
    if Rltb (Rabs (sl sorted_lengths 1 - sl sorted_lengths 2)) (1 / 1000)
    then (sl sorted_lengths 2, sl sorted_lengths 0)
    else (sl sorted_lengths 0, sl sorted_lengths 2) in
  let new_matrix := mk_mat3 (a / 2, - a * sqrt 3 / 2, 0) (a / 2, a * sqrt 3 / 2, 0) (0, 0, c) in
  let* new_sites :=
    Py.map_result
      (fun t => let* sp := site_specie t in
                let* L := Lattice (Some new_matrix) in
                PeriodicSite_cart sp (coords (lattice struct) (frac_coords t)) L true)
      (sites struct) in
  from_sites new_sites.

(** The local variables of the monoclinic search: [trans], [a], [b], [c],
    [alpha] ([None] while unbound) and [new_matrix]. *)
Record mono_state : Type := mk_mono {
  m_trans : mat3; m_a : R; m_b : R; m_c : R; m_alpha : option R; m_new_matrix : option mat3
}.

(** [[[a, 0, 0], [0, b, 0], [0, c * cos(alpha), c * sin(alpha)]]] *)
Definition mono_matrix (a b c alpha : R) : mat3 :=
  mk_mat3 (a, 0, 0) (0, b, 0) (0, c * cos alpha, c * sin alpha).

(** One candidate of the search: the axes [v0], [v1], [v2], with the sign
    flip when the angle exceeds 90 degrees; [trans] is the matrix built for
    it. *)
Definition mono_candidate (v0 v1 v2 : vec) (flip : bool) (trans : mat3) : mono_state :=
  let landang :=
    lengths_and_angles
      (if flip then mk_mat3 (scale (-1) v0) (scale (-1) v1) v2 else mk_mat3 v0 v1 v2) in
  let '((a, b, c), (al, _, _)) := landang in
  let alpha := PI * al / 180 in
  mk_mono trans a b c (Some alpha) (Some (mono_matrix a b c alpha)).

(** A candidate's [trans]: [trans[0][t0] = sign], [trans[1][t1] = sign],
    [trans[2][t2] = 1]. *)
Definition mono_trans (t0 t1 t2 : nat) (sign : R) : mat3 :=
  set_entry (set_entry (set_entry zeros 0 t0 sign) 1 t1 sign) 2 t2 1.

(** [itertools.permutations(range(2), 2)] and
    [itertools.permutations(range(3), 3)]. *)
Definition perms2 : list (nat * nat) := [(0, 1); (1, 0)]%nat.
Definition perms3 : list (nat * nat * nat) :=
  [(0, 1, 2); (0, 2, 1); (1, 0, 2); (1, 2, 0); (2, 0, 1); (2, 1, 0)]%nat.

(** The body of the C-centred search (lines 596-636). *)
Definition mono_step_C (m : mat3) (st : mono_state) (t : nat * nat) : mono_state :=
  let '(t0, t1) := t in
  let '(_, (al, _, _)) := lengths_and_angles (mk_mat3 (row m t0) (row m t1) (row2 m)) in
  if Rltb 90 al then mono_candidate (row m t0) (row m t1) (row2 m) true (mono_trans t0 t1 2 (-1))
  else if Rltb al 90 then mono_candidate (row m t0) (row m t1) (row2 m) false (mono_trans t0 t1 2 1)
  else st.

(** The body of the search over all axes (lines 658-695). *)
Definition mono_step (m : mat3) (st : mono_state) (t : nat * nat * nat) : mono_state :=
  let '(t0, t1, t2) := t in
  let '((_, lb, lc), (al, _, _)) :=
    lengths_and_angles (mk_mat3 (row m t0) (row m t1) (row m t2)) in
  if Rltb 90 al && Rltb lb lc
  then mono_candidate (row m t0) (row m t1) (row m t2) true (mono_trans t0 t1 t2 (-1))
  else if Rltb al 90 && Rltb lb lc
  then mono_candidate (row m t0) (row m t1) (row m t2) false (mono_trans t0 t1 t2 1)
  else st.

(** The monoclinic branch (lines 580-707); [c_setting] is
    [self.get_spacegroup().int_symbol.startswith("C")]. *)
Definition conv_monoclinic (c_setting : bool) (struct : structure Sp) : result (structure Sp) :=
  let m := lattice struct in
  let* st :=
    if c_setting then
      let sd := sorted_dic m [0; 1]%nat in
      let init := mk_mono (set_row zeros 2 (0, 0, 1)) (d_length (nth 0 sd (mk_dic (0, 0, 0) 0 0%nat)))
                    (d_length (nth 1 sd (mk_dic (0, 0, 0) 0 0%nat))) (vz (abc m)) None None in
      let st := fold_left (mono_step_C m) perms2 init in
      (* if new_matrix is None: ... c * cos(alpha) ... *)
      let* st :=
        match m_new_matrix st with
        | Some _ => Ok st
        | None =>
            match m_alpha st with
            | Some alpha =>
                Ok (mk_mono (m_trans st) (m_a st) (m_b st) (m_c st) (m_alpha st)
                            (Some (mono_matrix (m_a st) (m_b st) (m_c st) alpha)))
            | None => Err NameError
            end
        end in
      (* the second [if new_matrix is None] *)
      match m_new_matrix st with
      | Some _ => Ok st
      | None =>
          Ok (mk_mono (perm_transf zeros sd) (m_a st) (m_b st) (m_c st) (m_alpha st)
                      (Some (diag (m_a st) (m_b st) (m_c st))))
      end
    else
      let st := fold_left (mono_step m) perms3
                  (mk_mono zeros 0 0 0 None None) in
      match m_new_matrix st with
      | Some _ => Ok st
      | None =>
          Ok (mk_mono (perm_transf zeros (sorted_dic m [0; 1; 2]%nat))
                      (m_a st) (m_b st) (m_c st) (m_alpha st) None)
      end in
  let* new_sites := map_sites struct (m_trans st) (m_new_matrix st) true in
  from_sites new_sites.

(** The [new_matrix] of the triclinic branch (lines 717-726), from the
    lengths and the angles in radians; [math.sqrt] of a negative number
    raises [ValueError]. *)
Definition triclinic_matrix (a b c alpha beta gamma : R) : result mat3 :=
  let rad := sin gamma ^ 2 - cos alpha ^ 2 - cos beta ^ 2
             + 2 * cos alpha * cos beta * cos gamma in
  if Reqb (sin gamma) 0 then Err ZeroDivisionError
  else if Rltb rad 0 then Err ValueError
  else Ok (mk_mat3 (a, 0, 0) (b * cos gamma, b * sin gamma, 0)
                   (c * cos beta, c * (cos alpha - cos beta * cos gamma) / sin gamma,
                    c * sqrt rad / sin gamma)).

(** The triclinic branch (lines 709-733). *)
Definition conv_triclinic (struct0 : structure Sp) : result (structure Sp) :=
  let struct := lll_reduce struct0 in
  let '((a, b, c), (al, be, ga)) := lengths_and_angles (lattice struct) in
  let* new_matrix := triclinic_matrix a b c (PI * al / 180) (PI * be / 180) (PI * ga / 180) in
  let* new_sites :=
    Py.map_result
      (fun t => let* sp := site_specie t in
                let* L := Lattice (Some new_matrix) in
                Ok (PeriodicSite sp (frac_coords t) L false))
      (sites struct) in
  from_sites new_sites.

(** [get_conventional_standard_structure] (lines 469-735). *)
Definition get_conventional_standard_structure (s : Finder.session Sp)
  : result (structure Sp) :=
  let* struct := get_refined_structure s in
  let* lattice_type := Symbol.get_lattice_type s in
  let* results :=
    if Symbol.opt_is lattice_type "orthorhombic" || Symbol.opt_is lattice_type "cubic" then
      let* sym := Symbol.get_spacegroup_symbol s in
      let* r := conv_orthorhombic sym struct in Ok (Some r)
    else if Symbol.opt_is lattice_type "tetragonal" then
      let* r := conv_tetragonal struct in Ok (Some r)
    else if Symbol.opt_is lattice_type "hexagonal" || Symbol.opt_is lattice_type "rhombohedral" then
      let* r := conv_hexagonal struct in Ok (Some r)
    else if Symbol.opt_is lattice_type "monoclinic" then
      let* sg := Dataset.get_spacegroup Sp spg_symmetry s in
      let* r := conv_monoclinic (startswith "C" (Dataset.int_symbol sg)) struct in Ok (Some r)
    else if Symbol.opt_is lattice_type "triclinic" then
      let* r := conv_triclinic struct in Ok (Some r)
    else Ok None in
  match results with
  | Some r => get_sorted_structure r
  | None => Err AttributeError
  end.

(** The deduplicating loop of [get_primitive_standard_structure]: a new
    site is kept unless it is a periodic image of a site kept before. *)
Definition add_unique (new_sites : list (psite Sp)) (new_s : psite Sp) : list (psite Sp) :=
  if existsb (fun t => is_periodic_image sp_eq_dec new_s t) new_sites
  then new_sites else new_sites ++ [new_s].

(** The centring transformations of lines 441-454. *)
Definition half (m : mat3) : mat3 :=
  mk_mat3 (scale (1 / 2) (row0 m)) (scale (1 / 2) (row1 m)) (scale (1 / 2) (row2 m)).
Definition transf_I : mat3 := half (mk_mat3 (-1, 1, 1) (1, -1, 1) (1, 1, -1)).
Definition transf_F : mat3 := half (mk_mat3 (0, 1, 1) (1, 0, 1) (1, 1, 0)).
Definition transf_C_mono : mat3 := half (mk_mat3 (1, 1, 0) (-1, 1, 0) (0, 0, 2)).
Definition transf_C : mat3 := half (mk_mat3 (1, -1, 0) (1, 1, 0) (0, 0, 2)).

(** The rhombohedral primitive matrix of lines 421-425. *)
Definition rhombohedral_matrix (a alpha : R) : result mat3 :=
  let rad := 1 - cos alpha ^ 2 / cos (alpha / 2) ^ 2 in
  if Reqb (cos (alpha / 2)) 0 then Err ZeroDivisionError
  else if Rltb rad 0 then Err ValueError
  else Ok (mk_mat3 (a * cos (alpha / 2), - a * sin (alpha / 2), 0)
                   (a * cos (alpha / 2), a * sin (alpha / 2), 0)
                   (a * cos alpha / cos (alpha / 2), 0, a * sqrt rad)).

(** [get_primitive_standard_structure] (lines 400-467). *)
Definition get_primitive_standard_structure (s : Finder.session Sp)
  : result (structure Sp) :=
  let* conv := get_conventional_standard_structure s in
  let* lattice_type := Symbol.get_lattice_type s in
  let* sym := Symbol.get_spacegroup_symbol s in
  if contains "P" sym || Symbol.opt_is lattice_type "hexagonal" then Ok conv
  else if Symbol.opt_is lattice_type "rhombohedral" then
    let* conv := get_refined_structure s in
    let '((a, _, _), (al, _, _)) := lengths_and_angles (lattice conv) in
    let* new_matrix := rhombohedral_matrix a (PI * al / 180) in
    let* new_sites :=
      for_each (sites conv)
        (fun acc t =>
           let* sp := site_specie t in
           let* L := Lattice (Some new_matrix) in
           Ok (add_unique acc (PeriodicSite sp (frac_coords t) L true)))
        [] in
    from_sites new_sites
  else
    let* transf :=
      if contains "I" sym then Ok transf_I
      else if contains "F" sym then Ok transf_F
      else if contains "C" sym then
        let* system := Symbol.get_crystal_system s in
        Ok (if Symbol.opt_is system "monoclinic" then transf_C_mono else transf_C)
      else Ok eye in
    let* new_sites :=
      for_each (sites conv)
        (fun acc t =>
           let* sp := site_specie t in
           let* L := Lattice (Some (mat_mul transf (lattice conv))) in
           let* new_s := PeriodicSite_cart sp (coords (lattice conv) (frac_coords t)) L true in
           Ok (add_unique acc new_s))
        [] in
    from_sites new_sites.

End Standard.

End Standard.


(* ================================================================== *)
(** * Proofs *)

(** ** Crystal system and lattice type *)

Section FindUnique.
Context {A : Type}.

Lemma find_unique (p : A -> bool) (l : list A) (x : A) :
  In x l -> p x = true -> (forall y, In y l -> p y = true -> y = x) ->
  find p l = Some x.
Proof.
  induction l as [|a l IH]; simpl; intros Hin Hp Hu; [contradiction|].
  destruct (p a) eqn:Ha.
  - f_equal. apply Hu; auto.
  - destruct Hin as [<-|Hin]; [congruence|].
    apply IH; auto.
Qed.

Lemma find_none (p : A -> bool) (l : list A) :
  (forall y, In y l -> p y = false) -> find p l = None.
Proof.
  induction l as [|a l IH]; simpl; intros H; [reflexivity|].
  rewrite H by auto. apply IH; auto.
Qed.

End FindUnique.

Module CrystalSystemFacts.
Import CrystalSystem.
Open Scope Z_scope.

(** Every number of [1, 230] lies in exactly one range of [cs]. *)
Definition one_range (n : Z) : bool :=
  Nat.eqb (List.length (filter (f n) cs)) 1.

Definition valid_numbers : list Z := map Z.of_nat (seq 1 230).

Lemma valid_numbers_spec (n : Z) : 1 <= n <= 230 -> In n valid_numbers.
Proof.
  intros Hn. unfold valid_numbers. apply in_map_iff.
  exists (Z.to_nat n). split; [lia|]. apply in_seq. lia.
Qed.

Lemma one_range_all : forallb one_range valid_numbers = true.
Proof. vm_compute. reflexivity. Qed.

Lemma unique_item (n : Z) : 1 <= n <= 230 ->
  exists item, In item cs /\ f n item = true /\
    forall y, In y cs -> f n y = true -> y = item.
Proof.
  intros Hn.
  pose proof (proj1 (forallb_forall _ _) one_range_all n (valid_numbers_spec n Hn)) as H.
  unfold one_range in H. apply Nat.eqb_eq in H.
  destruct (filter (f n) cs) as [|item [|? ?]] eqn:Hf; simpl in H; try discriminate.
  exists item.
  assert (Hi : In item (filter (f n) cs)) by (rewrite Hf; left; reflexivity).
  apply filter_In in Hi. destruct Hi as [Hi1 Hi2].
  repeat split; auto.
  intros y Hy Hfy.
  assert (Hy' : In y (filter (f n) cs)) by (apply filter_In; auto).
  rewrite Hf in Hy'. destruct Hy' as [<-|[]]; reflexivity.
Qed.

(** Any enumeration of the dict gives the answer of the source order. *)
Lemma get_crystal_system_in_perm (items : list (string * (Z * Z))) (n : Z) :
  Permutation cs items -> 1 <= n <= 230 ->
  get_crystal_system_in items n = get_crystal_system n.
Proof.
  intros Hp Hn. destruct (unique_item n Hn) as [item [Hin [Hfi Hu]]].
  unfold get_crystal_system, get_crystal_system_in.
  rewrite (@find_unique _ (f n) cs item Hin Hfi Hu).
  rewrite (@find_unique _ (f n) items item).
  - reflexivity.
  - eapply Permutation_in; eauto.
  - exact Hfi.
  - intros y Hy Hfy. apply Hu; auto.
    eapply Permutation_in; [symmetry; eauto|]; eauto.
Qed.

Lemma get_lattice_type_in_perm (items : list (string * (Z * Z))) (n : Z) :
  Permutation cs items -> 1 <= n <= 230 ->
  get_lattice_type_in items n = get_lattice_type n.
Proof.
  intros Hp Hn. unfold get_lattice_type, get_lattice_type_in.
  rewrite (get_crystal_system_in_perm items n Hp Hn). reflexivity.
Qed.

End CrystalSystemFacts.

Module CrystalSystemClaims.
Import CrystalSystem CrystalSystemFacts.
Open Scope Z_scope.

Lemma f_true_iff (n i j : Z) (k : string) : f n (k, (i, j)) = true <-> i <= n <= j.
Proof. unfold f. rewrite andb_true_iff, !Z.leb_le. tauto. Qed.

Lemma get_crystal_system_in_label (items : list (string * (Z * Z))) (n : Z) (k : string) :
  Permutation cs items -> get_crystal_system_in items n = Some k ->
  exists i j, In (k, (i, j)) cs /\ i <= n <= j.
Proof.
  intros Hp. unfold get_crystal_system_in.
  destruct (find (f n) items) as [[k' [i j]]|] eqn:Hfind; intros H; inversion H; subst.
  apply find_some in Hfind. destruct Hfind as [Hin Hf].
  exists i, j. split.
  - eapply Permutation_in; [symmetry; eauto|]; eauto.
  - apply (f_true_iff n i j k). exact Hf.
Qed.

(** C2. For a space-group number [n] in [1, 230] (and for any iteration
    order of the dict), [get_crystal_system] returns the one label of the
    table whose inclusive range contains [n]; [get_lattice_type] returns
    "rhombohedral" exactly for the numbers 146, 148, 155, 160, 161, 166,
    167, "hexagonal" for the other trigonal numbers, and the crystal
    system otherwise. *)
Theorem crystal_system_and_lattice_type (items : list (string * (Z * Z))) (n : Z)
  (Hp : Permutation cs items) (Hn : 1 <= n <= 230) :
  (exists k i j, In (k, (i, j)) cs /\ i <= n <= j /\
     get_crystal_system_in items n = Some k /\
     (forall k' i' j', In (k', (i', j')) cs -> i' <= n <= j' -> k' = k)) /\
  (get_lattice_type_in items n = Some "rhombohedral"%string <-> In n rhombohedral_numbers) /\
  (get_crystal_system_in items n = Some "trigonal"%string ->
     ~ In n rhombohedral_numbers -> get_lattice_type_in items n = Some "hexagonal"%string) /\
  (get_crystal_system_in items n <> Some "trigonal"%string ->
     ~ In n rhombohedral_numbers ->
     get_lattice_type_in items n = get_crystal_system_in items n).
Proof.
  split; [|split; [|split]].
  - destruct (unique_item n Hn) as [[k [i j]] [Hin [Hfi Hu]]].
    exists k, i, j. split; [exact Hin|]. split; [apply f_true_iff in Hfi; exact Hfi|].
    split.
    + rewrite (get_crystal_system_in_perm items n Hp Hn).
      unfold get_crystal_system, get_crystal_system_in.
      rewrite (@find_unique _ (f n) cs (k, (i, j)) Hin Hfi Hu). reflexivity.
    + intros k' i' j' Hin' Hr.
      apply (f_true_iff n i' j' k') in Hr.
      specialize (Hu _ Hin' Hr). inversion Hu. reflexivity.
  - unfold get_lattice_type_in.
    destruct (existsb (Z.eqb n) rhombohedral_numbers) eqn:Hex.
    + split; [intros _|reflexivity].
      apply existsb_exists in Hex. destruct Hex as [x [Hx Heq]].
      apply Z.eqb_eq in Heq. subst. exact Hx.
    + split; intros H.
      * destruct (get_crystal_system_in items n) as [k|] eqn:Hs.
        -- destruct (String.eqb k "trigonal") eqn:Ht; [discriminate|].
           inversion H; subst.
           destruct (get_crystal_system_in_label items n _ Hp Hs) as [i [j [Hin _]]].
           simpl in Hin. repeat (destruct Hin as [Hin|Hin]; [discriminate|]).
           contradiction.
        -- discriminate.
      * exfalso. assert (Hx : existsb (Z.eqb n) rhombohedral_numbers = true).
        { apply existsb_exists. exists n. split; [exact H|]. apply Z.eqb_refl. }
        congruence.
  - intros Ht Hnr. unfold get_lattice_type_in.
    destruct (existsb (Z.eqb n) rhombohedral_numbers) eqn:Hex.
    + exfalso. apply Hnr. apply existsb_exists in Hex. destruct Hex as [x [Hx Heq]].
      apply Z.eqb_eq in Heq. subst. exact Hx.
    + rewrite Ht. reflexivity.
  - intros Ht Hnr. unfold get_lattice_type_in.
    destruct (existsb (Z.eqb n) rhombohedral_numbers) eqn:Hex.
    + exfalso. apply Hnr. apply existsb_exists in Hex. destruct Hex as [x [Hx Heq]].
      apply Z.eqb_eq in Heq. subst. exact Hx.
    + destruct (get_crystal_system_in items n) as [k|] eqn:Hs; [|reflexivity].
      destruct (String.eqb k "trigonal") eqn:Hk; [|reflexivity].
      apply String.eqb_eq in Hk. subst. contradiction.
Qed.

Lemma crystal_system_and_lattice_type_witness :
  Permutation cs cs /\ 1 <= 160 <= 230 /\
  get_lattice_type_in cs 160 = Some "rhombohedral"%string.
Proof.
  split; [apply Permutation_refl|]. split; [lia|].
  apply (proj2 (proj1 (proj2 (crystal_system_and_lattice_type cs 160 (Permutation_refl cs)
    (ltac:(lia) : 1 <= 160 <= 230))))).
  vm_compute. auto 8.
Defined.

(** C10. For a number outside [1, 230] the range lookup matches no item
    and [get_crystal_system] returns [None] (for any iteration order). *)
Theorem crystal_system_out_of_range (items : list (string * (Z * Z))) (n : Z)
  (Hp : Permutation cs items) (Hn : n < 1 \/ 230 < n) :
  get_crystal_system_in items n = None.
Proof.
  unfold get_crystal_system_in. rewrite find_none; [reflexivity|].
  intros [k [i j]] Hin. apply (Permutation_in _ (Permutation_sym Hp)) in Hin.
  destruct (f n (k, (i, j))) eqn:Hf; [|reflexivity].
  apply f_true_iff in Hf.
  simpl in Hin. repeat (destruct Hin as [Hin|Hin]; [inversion Hin; subst; lia|]).
  contradiction.
Qed.

Lemma crystal_system_out_of_range_witness :
  get_crystal_system 0 = None /\ get_crystal_system 231 = None.
Proof.
  split.
  - apply (crystal_system_out_of_range cs 0 (Permutation_refl cs)). lia.
  - apply (crystal_system_out_of_range cs 231 (Permutation_refl cs)). lia.
Defined.

End CrystalSystemClaims.

(** ** Species grouping at session construction *)

Section IndexOf.
Context {A : Type} (eq_dec : forall x y : A, {x = y} + {x <> y}).

Lemma index_of_some (x : A) (l : list A) (p : nat) :
  Py.index_of eq_dec x l = Some p -> nth_error l p = Some x.
Proof.
  revert p. induction l as [|a l IH]; simpl; intros p H; [discriminate|].
  destruct (eq_dec x a) as [<-|Hne].
  - inversion H; reflexivity.
  - destruct (Py.index_of eq_dec x l) as [q|] eqn:E; simpl in H; inversion H; subst.
    simpl. apply IH. reflexivity.
Qed.

Lemma index_of_none (x : A) (l : list A) :
  Py.index_of eq_dec x l = None <-> ~ In x l.
Proof.
  induction l as [|a l IH]; simpl; [tauto|].
  destruct (eq_dec x a) as [<-|Hne].
  - split; [discriminate|]. intros H. exfalso. apply H. left. reflexivity.
  - destruct (Py.index_of eq_dec x l) eqn:E; simpl.
    + split; [discriminate|]. intros H. exfalso. apply H. right.
      apply (nth_error_In l n). apply index_of_some. exact E.
    + split; [|reflexivity]. intros _ [H|H]; [congruence|]. apply IH in H; auto.
Qed.

Lemma index_of_in (x : A) (l : list A) :
  In x l -> exists p, Py.index_of eq_dec x l = Some p.
Proof.
  intros H. destruct (Py.index_of eq_dec x l) as [p|] eqn:E; [eauto|].
  apply index_of_none in E. contradiction.
Qed.

Lemma index_of_lt (x : A) (l : list A) (p : nat) :
  Py.index_of eq_dec x l = Some p -> (p < List.length l)%nat.
Proof.
  intros H. apply index_of_some in H. apply nth_error_Some. congruence.
Qed.

Lemma index_of_app_in (x : A) (l r : list A) :
  In x l -> Py.index_of eq_dec x (l ++ r) = Py.index_of eq_dec x l.
Proof.
  induction l as [|a l IH]; simpl; intros H; [contradiction|].
  destruct (eq_dec x a) as [<-|Hne]; [reflexivity|].
  destruct H as [H|H]; [congruence|]. rewrite IH by exact H. reflexivity.
Qed.

Lemma index_of_app_notin (x : A) (l : list A) :
  ~ In x l -> Py.index_of eq_dec x (l ++ [x]) = Some (List.length l).
Proof.
  induction l as [|a l IH]; simpl; intros H.
  - destruct (eq_dec x x); [reflexivity|congruence].
  - destruct (eq_dec x a) as [<-|Hne]; [exfalso; apply H; left; reflexivity|].
    rewrite IH by tauto. reflexivity.
Qed.

Lemma index_of_inj (x y : A) (l : list A) (p : nat) :
  Py.index_of eq_dec x l = Some p -> Py.index_of eq_dec y l = Some p -> x = y.
Proof.
  intros Hx Hy. apply index_of_some in Hx. apply index_of_some in Hy. congruence.
Qed.

Lemma index_of_nth_nodup (l : list A) (p : nat) (x : A) :
  NoDup l -> nth_error l p = Some x -> Py.index_of eq_dec x l = Some p.
Proof.
  revert p. induction l as [|a l IH]; intros p Hnd Hn; [destruct p; discriminate|].
  inversion Hnd as [|? ? Hnotin Hnd']; subst.
  destruct p as [|p]; simpl in Hn |- *.
  - inversion Hn; subst. destruct (eq_dec x x); [reflexivity|congruence].
  - destruct (eq_dec x a) as [<-|Hne].
    + exfalso. apply Hnotin. apply (nth_error_In l p). exact Hn.
    + rewrite (IH p Hnd' Hn). reflexivity.
Qed.

End IndexOf.

Section Grouping.
Context {Sp : Type} (eq_dec : forall x y : Sp, {x = y} + {x <> y}).

Local Abbreviation gstep := (Finder.group_step Sp eq_dec).
Local Abbreviation idx := (Py.index_of eq_dec).
Local Abbreviation astep := (fun st (x : Sp) => Finder.group_step Sp eq_dec st (x, 1%nat)).

Lemma group_step_repeat_found (k : Sp) (u : list Sp) (ind c : nat) (zs : list nat) :
  idx k u = Some ind ->
  fold_left astep (repeat k c) (u, zs) = (u, zs ++ repeat (S ind) c).
Proof.
  intros Hk. revert zs. induction c as [|c IH]; intros zs; simpl.
  - rewrite app_nil_r. reflexivity.
  - unfold Finder.group_step. rewrite Hk. simpl. rewrite IH, <- app_assoc. reflexivity.
Qed.

Lemma group_step_repeat (k : Sp) (u : list Sp) (c : nat) (zs : list nat) :
  (1 <= c)%nat -> fold_left astep (repeat k c) (u, zs) = gstep (u, zs) (k, c).
Proof.
  intros Hc. destruct c as [|c]; [lia|]. simpl.
  unfold Finder.group_step.
  destruct (idx k u) as [ind|] eqn:Hk; simpl.
  - rewrite (group_step_repeat_found k u ind c _ Hk), <- app_assoc. reflexivity.
  - assert (Hk' : idx k (u ++ [k]) = Some (List.length u)).
    { apply index_of_app_notin. apply (proj1 (index_of_none eq_dec k u)). exact Hk. }
    rewrite (group_step_repeat_found k (u ++ [k]) (List.length u) c _ Hk'), <- app_assoc.
    rewrite length_app. simpl. rewrite Nat.add_1_r. reflexivity.
Qed.

Lemma groupby_spec (xs : list Sp) :
  List.concat (map (fun g => repeat (fst g) (snd g)) (Finder.groupby Sp eq_dec xs)) = xs /\
  Forall (fun g => (1 <= snd g)%nat) (Finder.groupby Sp eq_dec xs).
Proof.
  induction xs as [|x xs [IHc IHf]]; simpl; [split; [reflexivity|constructor]|].
  destruct (Finder.groupby Sp eq_dec xs) as [|[k c] rest] eqn:E.
  - simpl in IHc |- *. subst. split; [reflexivity|]. constructor; [simpl; lia|constructor].
  - destruct (eq_dec x k) as [<-|Hne].
    + simpl in IHc |- *. rewrite <- IHc. split; [reflexivity|].
      inversion IHf; subst. constructor; [simpl; lia|assumption].
    + simpl in IHc |- *. rewrite <- IHc. split; [reflexivity|].
      constructor; [simpl; lia|assumption].
Qed.

Lemma fold_groups (gs : list (Sp * nat)) (st : list Sp * list nat) :
  Forall (fun g => (1 <= snd g)%nat) gs ->
  fold_left gstep gs st =
  fold_left astep (List.concat (map (fun g => repeat (fst g) (snd g)) gs)) st.
Proof.
  revert st. induction gs as [|[k c] gs IH]; intros [u zs] Hf; simpl; [reflexivity|].
  inversion Hf; subst. rewrite fold_left_app.
  rewrite (group_step_repeat k u c zs) by assumption.
  apply IH. assumption.
Qed.

(** The run-wise loop of the source assigns the same numbers as a loop
    that handles the atoms one at a time. *)
Lemma species_numbers_atomwise (xs : list Sp) :
  Finder.species_numbers Sp eq_dec xs = fold_left astep xs ([], []).
Proof.
  unfold Finder.species_numbers. destruct (groupby_spec xs) as [Hc Hf].
  rewrite fold_groups by exact Hf. rewrite Hc. reflexivity.
Qed.

Definition pos1 (u : list Sp) (y : Sp) : nat :=
  match idx y u with Some p => S p | None => 0%nat end.

Definition grouping_inv (xs : list Sp) (st : list Sp * list nat) : Prop :=
  let '(u, zs) := st in
  NoDup u /\
  (forall y, In y u <-> In y xs) /\
  zs = map (pos1 u) xs /\
  (forall p q y z, (p < q)%nat -> nth_error u p = Some y -> nth_error u q = Some z ->
     exists i j, idx y xs = Some i /\ idx z xs = Some j /\ (i < j)%nat).

Lemma grouping_inv_step (xs : list Sp) (x : Sp) (st : list Sp * list nat) :
  grouping_inv xs st -> grouping_inv (xs ++ [x]) (astep st x).
Proof.
  destruct st as [u zs]. intros [Hnd [Hin [Hzs Hord]]].
  unfold Finder.group_step. simpl.
  destruct (idx x u) as [ind|] eqn:Hx.
  - assert (Hxu : In x u) by (apply (nth_error_In u ind); apply (index_of_some eq_dec); exact Hx).
    split; [exact Hnd|]. split; [|split].
    + intros y. rewrite Hin, in_app_iff. simpl.
      split; [tauto|]. intros [H|[<-|[]]]; [exact H|]. apply Hin. exact Hxu.
    + rewrite Hzs, map_app. simpl. f_equal. unfold pos1. rewrite Hx. reflexivity.
    + intros p q y z Hpq Hy Hz.
      destruct (Hord p q y z Hpq Hy Hz) as [i [j [Hi [Hj Hij]]]].
      exists i, j.
      rewrite !index_of_app_in; [auto| |].
      * apply Hin. apply (nth_error_In u q). exact Hz.
      * apply Hin. apply (nth_error_In u p). exact Hy.
  - assert (Hxu : ~ In x u) by (apply (proj1 (index_of_none eq_dec x u)); exact Hx).
    assert (Hxs : ~ In x xs) by (rewrite <- Hin; exact Hxu).
    split; [|split; [|split]].
    + apply (Permutation_NoDup (Permutation_cons_append u x)). constructor; assumption.
    + intros y. rewrite !in_app_iff, Hin. tauto.
    + rewrite Hzs, map_app. simpl. f_equal.
      * apply map_ext_in. intros y Hy. unfold pos1.
        rewrite index_of_app_in; [reflexivity|]. apply Hin. exact Hy.
      * unfold pos1. rewrite index_of_app_notin by exact Hxu.
        rewrite length_app. simpl. rewrite Nat.add_1_r. reflexivity.
    + intros p q y z Hpq Hy Hz.
      assert (Hq : (q < List.length (u ++ [x]))%nat) by (apply nth_error_Some; congruence).
      rewrite length_app in Hq. simpl in Hq.
      assert (Hp : (p < List.length u)%nat) by lia.
      rewrite nth_error_app1 in Hy by exact Hp.
      assert (Hyu : In y u) by (apply (nth_error_In u p); exact Hy).
      destruct (Nat.lt_ge_cases q (List.length u)) as [Hqu|Hqu].
      * rewrite nth_error_app1 in Hz by exact Hqu.
        destruct (Hord p q y z Hpq Hy Hz) as [i [j [Hi [Hj Hij]]]].
        exists i, j. rewrite !index_of_app_in; [auto| |].
        -- apply Hin. apply (nth_error_In u q). exact Hz.
        -- apply Hin. exact Hyu.
      * rewrite nth_error_app2 in Hz by exact Hqu.
        replace (q - List.length u)%nat with 0%nat in Hz by lia.
        simpl in Hz. inversion Hz; subst z.
        assert (Hyxs : In y xs) by (apply Hin; exact Hyu).
        destruct (index_of_in eq_dec y xs Hyxs) as [i Hi].
        exists i, (List.length xs). split; [|split].
        -- rewrite index_of_app_in by exact Hyxs. exact Hi.
        -- apply index_of_app_notin. exact Hxs.
        -- apply (index_of_lt eq_dec y xs i Hi).
Qed.

Lemma grouping_inv_all (xs : list Sp) :
  grouping_inv xs (fold_left astep xs ([], [])).
Proof.
  induction xs as [|x xs IH] using rev_ind.
  - simpl. split; [constructor|]. split; [simpl; tauto|]. split; [reflexivity|].
    intros p q y z _ Hy. destruct p; discriminate.
  - rewrite fold_left_app. simpl. apply grouping_inv_step. exact IH.
Qed.

End Grouping.

Module SpeciesClaims.
Import Geo.

(** C6. At session construction every atom receives the 1-based position,
    in the unique-species list, of its species-and-occupancy group; the
    list holds each group once, in the order of first occurrence in the
    structure; two atoms receive the same number exactly when their
    groups are equal. *)
Theorem init_species_numbers {Sp : Type} (eq_dec : forall x y : Sp, {x = y} + {x <> y})
  (spg_spacegroup : mat3 -> list vec -> list nat -> R -> R -> option string)
  (st : structure Sp) (symprec angle_tolerance : R) (s : Finder.session Sp)
  (H : Finder.init Sp eq_dec spg_spacegroup st symprec angle_tolerance = Ok s) :
  let xs := map species_and_occu (sites st) in
  let u := Finder.sf_unique_species s in
  let zs := Finder.sf_numbers s in
  List.length zs = List.length xs /\
  (forall i x, nth_error xs i = Some x ->
     exists p, Py.index_of eq_dec x u = Some p /\ nth_error zs i = Some (S p)) /\
  NoDup u /\
  (forall y, In y u <-> In y xs) /\
  (forall p q y z, (p < q)%nat -> nth_error u p = Some y -> nth_error u q = Some z ->
     exists i j, Py.index_of eq_dec y xs = Some i /\
                 Py.index_of eq_dec z xs = Some j /\ (i < j)%nat) /\
  (forall i j x y, nth_error xs i = Some x -> nth_error xs j = Some y ->
     (nth_error zs i = nth_error zs j <-> x = y)).
Proof.
  unfold Finder.init in H.
  destruct (Finder.species_numbers Sp eq_dec (map species_and_occu (sites st))) as [u zs] eqn:E.
  destruct (spg_spacegroup _ _ _ _ _); [|discriminate].
  inversion H; subst; clear H. simpl.
  rewrite species_numbers_atomwise in E.
  pose proof (grouping_inv_all eq_dec (map species_and_occu (sites st))) as Hinv.
  rewrite E in Hinv. destruct Hinv as [Hnd [Hin [Hzs Hord]]].
  set (xs := map species_and_occu (sites st)) in *.
  assert (Hnum : forall i x, nth_error xs i = Some x ->
     exists p, Py.index_of eq_dec x u = Some p /\ nth_error zs i = Some (S p)).
  { intros i x Hx.
    assert (Hxu : In x u) by (apply Hin; apply (nth_error_In xs i); exact Hx).
    destruct (index_of_in eq_dec x u Hxu) as [p Hp].
    exists p. split; [exact Hp|].
    rewrite Hzs, nth_error_map, Hx. simpl. unfold pos1. rewrite Hp. reflexivity. }
  split; [rewrite Hzs, length_map; reflexivity|].
  split; [exact Hnum|].
  split; [exact Hnd|]. split; [exact Hin|]. split; [exact Hord|].
  intros i j x y Hx Hy.
  destruct (Hnum i x Hx) as [p [Hp Hzp]]. destruct (Hnum j y Hy) as [q [Hq Hzq]].
  rewrite Hzp, Hzq. split.
  - intros Heq. inversion Heq; subst q. apply (index_of_inj eq_dec x y u p Hp Hq).
  - intros <-. congruence.
Qed.

Lemma init_species_numbers_witness :
  exists s : Finder.session nat,
    Finder.init nat Nat.eq_dec (fun _ _ _ _ _ => Some "Pm-3m (221)"%string)
      (mk_structure eye [mk_site 5%nat (0, 0, 0); mk_site 7%nat (0, 0, 0)%R;
                         mk_site 5%nat (0, 0, 0)%R]) 1 5 = Ok s /\
    Finder.sf_numbers s = [1; 2; 1]%nat /\
    Finder.sf_unique_species s = [5; 7]%nat /\
    NoDup (Finder.sf_unique_species s).
Proof.
  eexists. split; [reflexivity|].
  split; [reflexivity|]. split; [reflexivity|].
  destruct (init_species_numbers Nat.eq_dec (fun _ _ _ _ _ => Some "Pm-3m (221)"%string)
    (mk_structure eye [mk_site 5%nat (0, 0, 0); mk_site 7%nat (0, 0, 0)%R;
                       mk_site 5%nat (0, 0, 0)%R]) 1 5 _ eq_refl)
    as [_ [_ [Hnd _]]].
  exact Hnd.
Defined.

End SpeciesClaims.

(** ** [find_primitive] *)

Module PrimitiveClaims.
Import Geo.

Lemma map_result_species {Sp : Type} (u : list Sp) (l : list nat) :
  Forall (fun i => (1 <= i <= List.length u)%nat) l ->
  exists sps, Py.map_result (fun i => Py.index u (Z.of_nat i - 1)%Z) l = Ok sps /\
              Forall2 (fun i sp => nth_error u (i - 1) = Some sp) l sps.
Proof.
  induction l as [|i l IH]; intros Hf.
  - exists []. split; [reflexivity|constructor].
  - cbn [Py.map_result]. inversion Hf as [|? ? Hi Hl]; subst.
    destruct (IH Hl) as [sps [Hm Hsps]].
    destruct (nth_error u (i - 1)) as [sp|] eqn:Hn.
    2:{ exfalso. apply nth_error_None in Hn. lia. }
    exists (sp :: sps). split; [|constructor; assumption].
    assert (Hix : Py.index u (Z.of_nat i - 1)%Z = Ok sp).
    { unfold Py.index.
      replace ((0 <=? Z.of_nat i - 1)%Z && (Z.of_nat i - 1 <? Z.of_nat (List.length u))%Z)
        with true by (symmetry; apply andb_true_iff; split; [apply Z.leb_le|apply Z.ltb_lt]; lia).
      replace (Z.to_nat (Z.of_nat i - 1)) with (i - 1)%nat by lia.
      rewrite Hn. reflexivity. }
    rewrite Hix. cbn [bind]. rewrite Hm. reflexivity.
Qed.

Lemma map_fst_combine {A B : Type} (l : list A) (r : list B) :
  List.length l = List.length r -> map fst (combine l r) = l.
Proof.
  revert r. induction l as [|a l IH]; intros [|b r] H; simpl in *; try discriminate; auto.
  f_equal. apply IH. lia.
Qed.

Lemma map_snd_combine {A B : Type} (l : list A) (r : list B) :
  List.length l = List.length r -> map snd (combine l r) = r.
Proof.
  revert r. induction l as [|a l IH]; intros [|b r] H; simpl in *; try discriminate; auto.
  f_equal. apply IH. lia.
Qed.

(** C5. When the oracle's primitive-cell search returns 0,
    [find_primitive] returns the session's own structure; when it returns
    a count [k > 0] (within the buffers it wrote, with species numbers
    that index the unique-species list), it returns a new structure of
    exactly [k] sites on the oracle's lattice, whose species are
    [unique_species[i - 1]] for the first [k] species numbers [i]. *)
Theorem find_primitive_count {Sp : Type}
  (spg_primitive : mat3 -> list vec -> list nat -> R -> R ->
                   option (Z * mat3 * list vec * list nat))
  (s : Finder.session Sp) (k : Z) (latt' : mat3) (positions' : list vec) (numbers' : list nat)
  (Horacle : spg_primitive (Finder.sf_transposed_latt s) (Finder.sf_positions s)
               (Finder.sf_numbers s) (Finder.sf_symprec s) (Finder.sf_angle_tol s)
             = Some (k, latt', positions', numbers')) :
  (k = 0%Z -> Finder.find_primitive Sp spg_primitive s = Ok (Finder.sf_structure s)) /\
  ((0 < k)%Z ->
   (Z.to_nat k <= List.length numbers')%nat ->
   (Z.to_nat k <= List.length positions')%nat ->
   Forall (fun i => (1 <= i <= List.length (Finder.sf_unique_species s))%nat)
          (firstn (Z.to_nat k) numbers') ->
   exists st, Finder.find_primitive Sp spg_primitive s = Ok st /\
     lattice st = transpose latt' /\
     List.length (sites st) = Z.to_nat k /\
     Forall2 (fun i sp => nth_error (Finder.sf_unique_species s) (i - 1) = Some sp)
             (firstn (Z.to_nat k) numbers') (map species_and_occu (sites st)) /\
     map frac_coords (sites st) = firstn (Z.to_nat k) positions').
Proof.
  unfold Finder.find_primitive. rewrite Horacle. split.
  - intros ->. reflexivity.
  - intros Hk Hn Hp Hf.
    unfold Py.slice_to. replace (0 <=? k)%Z with true by (symmetry; apply Z.leb_le; lia).
    destruct (map_result_species (Finder.sf_unique_species s) _ Hf) as [sps [Hm Hsps]].
    rewrite Hm. simpl.
    replace (0 <? k)%Z with true by (symmetry; apply Z.ltb_lt; lia).
    assert (Hl1 : List.length sps = Z.to_nat k).
    { rewrite <- (Forall2_length Hsps). rewrite length_firstn. lia. }
    assert (Hl2 : List.length (firstn (Z.to_nat k) positions') = Z.to_nat k).
    { rewrite length_firstn. lia. }
    unfold Structure. rewrite Hl1, Hl2, Nat.eqb_refl.
    eexists. split; [reflexivity|]. simpl.
    split; [reflexivity|].
    rewrite !map_map. simpl.
    assert (Hsp : map (fun x => let '(s0, c) := x in s0) (combine sps (firstn (Z.to_nat k) positions')) = sps).
    { transitivity (map fst (combine sps (firstn (Z.to_nat k) positions'))).
      - apply map_ext. intros [a b]. reflexivity.
      - apply map_fst_combine. lia. }
    assert (Hfc : map (fun x => let '(_, c) := x in c) (combine sps (firstn (Z.to_nat k) positions'))
                  = firstn (Z.to_nat k) positions').
    { transitivity (map snd (combine sps (firstn (Z.to_nat k) positions'))).
      - apply map_ext. intros [a b]. reflexivity.
      - apply map_snd_combine. lia. }
    split; [rewrite length_map, length_combine; lia|].
    split.
    + assert (E : map (fun x : Sp * vec => species_and_occu (let '(s0, c) := x in mk_site s0 c))
                    (combine sps (firstn (Z.to_nat k) positions')) = sps).
      { etransitivity; [|exact Hsp]. apply map_ext. intros [a b]. reflexivity. }
      rewrite E. exact Hsps.
    + etransitivity; [|exact Hfc]. apply map_ext. intros [a b]. reflexivity.
Qed.

Definition sample_session : Finder.session nat :=
  Finder.mk_session 1 5
    (mk_structure eye [mk_site 26%nat (0, 0, 0); mk_site 26%nat (1/2, 1/2, 1/2)])
    eye [(0, 0, 0); (1/2, 1/2, 1/2)] [26%nat] [1; 1]%nat "Im-3m (229)"%string.

Lemma find_primitive_count_witness :
  exists st, Finder.find_primitive nat
    (fun _ _ _ _ _ => Some (1%Z, eye, [(0, 0, 0); (1/2, 1/2, 1/2)], [1; 1]%nat))
    sample_session = Ok st /\ List.length (sites st) = 1%nat.
Proof.
  destruct (proj2 (@find_primitive_count nat
    (fun _ _ _ _ _ => Some (1%Z, eye, [(0, 0, 0); (1/2, 1/2, 1/2)], [1; 1]%nat))
    sample_session 1%Z eye [(0, 0, 0); (1/2, 1/2, 1/2)] [1; 1]%nat eq_refl)
    ltac:(lia) ltac:(simpl; lia) ltac:(simpl; lia)
    ltac:(simpl; repeat constructor))
    as [st [Hst [_ [Hlen _]]]].
  exists st. split; [exact Hst|exact Hlen].
Defined.

End PrimitiveClaims.

(** ** Session construction on a structure without sites *)

Module InitClaims.
Import Geo.

(** C7, as the code has it. The constructor checks nothing about the
    number of sites: on a structure without sites it hands empty
    coordinate and species arrays to the oracle's space-group query, and
    its outcome is that query's; it never raises [InvalidStructureError]. *)
Theorem init_without_sites {Sp : Type} (eq_dec : forall x y : Sp, {x = y} + {x <> y})
  (spg_spacegroup : mat3 -> list vec -> list nat -> R -> R -> option string)
  (latt : mat3) (symprec angle_tolerance : R) :
  Finder.init Sp eq_dec spg_spacegroup (mk_structure latt []) symprec angle_tolerance =
  match spg_spacegroup (transpose latt) [] [] symprec angle_tolerance with
  | Some data =>
      Ok (Finder.mk_session symprec angle_tolerance (mk_structure latt [])
            (transpose latt) [] [] [] data)
  | None => Err OracleError
  end /\
  (forall st : structure Sp,
     Finder.init Sp eq_dec spg_spacegroup st symprec angle_tolerance
     <> Err InvalidStructureError).
Proof.
  split.
  - reflexivity.
  - intros st. unfold Finder.init.
    destruct (Finder.species_numbers Sp eq_dec (map species_and_occu (sites st))).
    destruct (spg_spacegroup _ _ _ _ _); discriminate.
Qed.

(** C7 fails: with an oracle that answers the query (spglib formats its
    answer as "<symbol> (<number>)"), a structure without sites yields a
    session, not an [InvalidStructureError]. *)
Lemma init_without_sites_counterexample :
  Finder.init nat Nat.eq_dec (fun _ _ _ _ _ => Some " (0)"%string)
    (mk_structure eye []) 1 5 =
  Ok (Finder.mk_session 1 5 (mk_structure eye []) (transpose eye) [] [] []
        " (0)"%string).
Proof. reflexivity. Qed.

End InitClaims.

(** ** Irreducible k-points *)

Module KpointClaims.
Import Geo.

Lemma for_each_app {S A : Type} (l1 l2 : list A) (body : S -> A -> result S) (s : S) :
  for_each (l1 ++ l2) body s = let* s' := for_each l1 body s in for_each l2 body s'.
Proof.
  revert s. induction l1 as [|a l1 IH]; intros s; simpl; [reflexivity|].
  destruct (body s a); simpl; [apply IH|reflexivity].
Qed.

Lemma combine_snoc {A B : Type} (l1 : list A) (l2 : list B) (a : A) (b : B) :
  List.length l1 = List.length l2 ->
  combine (l1 ++ [a]) (l2 ++ [b]) = combine l1 l2 ++ [(a, b)].
Proof.
  revert l2. induction l1 as [|x l1 IH]; intros [|y l2] H; simpl in *; try discriminate; auto.
  rewrite IH by lia. reflexivity.
Qed.

Lemma firstn_snoc {A : Type} (l : list A) (j : nat) (d : A) :
  (j < List.length l)%nat -> firstn (S j) l = firstn j l ++ [nth j l d].
Proof.
  revert j. induction l as [|x l IH]; intros j H; simpl in H; [lia|].
  destruct j as [|j]; [reflexivity|].
  change (firstn (S (S j)) (x :: l)) with (x :: firstn (S j) l).
  rewrite IH by lia. reflexivity.
Qed.

Lemma map_fst_filter_combine {A B : Type} (g : A -> bool) (l1 : list A) (l2 : list B) :
  List.length l1 = List.length l2 ->
  map fst (filter (fun p => g (fst p)) (combine l1 l2)) = filter g l1.
Proof.
  revert l2. induction l1 as [|x l1 IH]; intros [|y l2] H; simpl in *; try discriminate; auto.
  destruct (g x); simpl; rewrite IH by lia; reflexivity.
Qed.

Lemma NoDup_map_of_nat (l : list nat) : NoDup l -> NoDup (map Z.of_nat l).
Proof.
  induction 1 as [|x l Hx Hl IH]; simpl; constructor; [|exact IH].
  intros Hin. apply in_map_iff in Hin. destruct Hin as [y [Hy Hyl]].
  apply Nat2Z.inj in Hy. subst. contradiction.
Qed.

Lemma py_index_nth (l : list Z) (j : nat) :
  (j < List.length l)%nat -> Py.index l (Z.of_nat j) = Ok (nth j l 0%Z).
Proof.
  intros Hj. unfold Py.index.
  replace ((0 <=? Z.of_nat j)%Z && (Z.of_nat j <? Z.of_nat (List.length l))%Z) with true
    by (symmetry; apply andb_true_iff; split; [apply Z.leb_le|apply Z.ltb_lt]; lia).
  rewrite Nat2Z.id. destruct (nth_error l j) eqn:E.
  - rewrite (@nth_error_nth Z l j z 0%Z E). reflexivity.
  - apply nth_error_None in E. lia.
Qed.

Section Loop.
Variable mapping : list Z.
Variable kpoints : list vec.
Hypothesis Hlen : List.length mapping = List.length kpoints.
Hypothesis Hrep : forall i r, nth_error mapping i = Some r ->
  (0 <= r <= Z.of_nat i)%Z /\ nth_error mapping (Z.to_nat r) = Some r.

Local Definition repb (i : nat) : bool := Z.eqb (nth i mapping 0%Z) (Z.of_nat i).

Lemma ir_loop_prefix (j : nat) :
  (j <= List.length kpoints)%nat ->
  for_each (combine (seq 0 j) (firstn j kpoints))
    (fun '(irr_kpts, n) '(i, kpts) =>
       let* m := Py.index mapping (Z.of_nat i) in
       if negb (Py.mem m n)
       then Ok (irr_kpts ++ [kpts], n ++ [Z.of_nat i])
       else Ok (irr_kpts, n))
    ([], []) =
  Ok (map snd (filter (fun p => repb (fst p)) (combine (seq 0 j) (firstn j kpoints))),
      map Z.of_nat (filter repb (seq 0 j))).
Proof.
  induction j as [|j IH]; intros Hj; [reflexivity|].
  rewrite seq_S, (firstn_snoc kpoints j (0, 0, 0)%R) by lia. simpl (0 + j)%nat.
  rewrite combine_snoc by (rewrite length_seq, length_firstn; lia).
  rewrite for_each_app, IH by lia. cbn [bind for_each].
  rewrite py_index_nth by lia. cbn [bind].
  rewrite !filter_app, !map_app. simpl.
  destruct (repb j) eqn:Hrj.
  - unfold repb in Hrj. apply Z.eqb_eq in Hrj. rewrite Hrj.
    replace (Py.mem (Z.of_nat j) (map Z.of_nat (filter repb (seq 0 j)))) with false.
    + simpl. rewrite ?app_nil_r. reflexivity.
    + symmetry. unfold Py.mem. apply not_true_iff_false. intros Hm.
      apply existsb_exists in Hm. destruct Hm as [x [Hx Heq]].
      apply Z.eqb_eq in Heq. subst x. apply in_map_iff in Hx.
      destruct Hx as [i [Hi Hin]]. apply filter_In in Hin. destruct Hin as [Hin _].
      apply in_seq in Hin. lia.
  - assert (Hnth : nth_error mapping j = Some (nth j mapping 0%Z)).
    { apply nth_error_nth'. lia. }
    destruct (Hrep j _ Hnth) as [Hrange Hself].
    assert (Hne : nth j mapping 0%Z <> Z.of_nat j).
    { unfold repb in Hrj. intros E. rewrite E, Z.eqb_refl in Hrj. discriminate. }
    replace (Py.mem (nth j mapping 0%Z) (map Z.of_nat (filter repb (seq 0 j)))) with true.
    + simpl. rewrite ?app_nil_r. reflexivity.
    + symmetry. unfold Py.mem. apply existsb_exists.
      exists (nth j mapping 0%Z). split; [|apply Z.eqb_refl].
      apply in_map_iff. exists (Z.to_nat (nth j mapping 0%Z)). split; [lia|].
      apply filter_In. split; [apply in_seq; lia|].
      unfold repb. rewrite (@nth_error_nth Z mapping _ _ 0%Z Hself).
      rewrite Z2Nat.id by lia. apply Z.eqb_refl.
Qed.

Lemma representatives_count :
  List.length (filter repb (seq 0 (List.length kpoints))) =
  List.length (nodup Z.eq_dec mapping).
Proof.
  rewrite <- (length_map Z.of_nat).
  apply Permutation_length. apply NoDup_Permutation.
  - apply NoDup_map_of_nat. apply NoDup_filter. apply seq_NoDup.
  - apply NoDup_nodup.
  - intros v. rewrite nodup_In, in_map_iff. split.
    + intros [i [<- Hi]]. apply filter_In in Hi. destruct Hi as [Hi Hr].
      apply in_seq in Hi. unfold repb in Hr. apply Z.eqb_eq in Hr.
      rewrite <- Hr. apply nth_In. lia.
    + intros Hv. destruct (In_nth_error mapping v Hv) as [i Hi].
      destruct (Hrep i v Hi) as [Hrange Hself].
      assert (Hil : (i < List.length mapping)%nat) by (apply nth_error_Some; congruence).
      exists (Z.to_nat v). split; [lia|].
      apply filter_In. split; [apply in_seq; lia|].
      unfold repb. rewrite (@nth_error_nth Z mapping _ _ 0%Z Hself).
      rewrite Z2Nat.id by lia. apply Z.eqb_refl.
Qed.

End Loop.

Lemma ir_kpoints_loop_spec (mapping : list Z) (kpoints : list vec)
  (Hlen : List.length mapping = List.length kpoints)
  (Hrep : forall i r, nth_error mapping i = Some r ->
     (0 <= r <= Z.of_nat i)%Z /\ nth_error mapping (Z.to_nat r) = Some r) :
  Finder.ir_kpoints_loop mapping kpoints =
  Ok (map (fun i => nth i kpoints (0, 0, 0)%R) (filter (repb mapping) (seq 0 (List.length kpoints))),
      map Z.of_nat (filter (repb mapping) (seq 0 (List.length kpoints)))).
Proof.
  unfold Finder.ir_kpoints_loop.
  pose proof (ir_loop_prefix mapping kpoints Hlen Hrep (List.length kpoints) (le_n _)) as H.
  rewrite firstn_all in H. rewrite H. f_equal. f_equal.
  rewrite <- (map_fst_filter_combine (repb mapping) (seq 0 (List.length kpoints)) kpoints)
    by (rewrite length_seq; reflexivity).
  rewrite map_map.
  apply map_ext_in. intros [i kp] Hin. apply filter_In in Hin.
  destruct Hin as [Hin _]. simpl.
  assert (Hc : forall (l : list vec) st, In (i, kp) (combine (seq st (List.length l)) l) ->
             nth (i - st) l (0, 0, 0)%R = kp /\ (st <= i)%nat).
  { induction l as [|x l IHl]; intros st Hi; simpl in Hi; [contradiction|].
    destruct Hi as [Hi|Hi].
    - inversion Hi; subst. rewrite Nat.sub_diag. simpl. split; [reflexivity|lia].
    - destruct (IHl (S st) Hi) as [Hn Hle].
      replace (i - st)%nat with (S (i - S st)) by lia. simpl. split; [exact Hn|lia]. }
  destruct (Hc kpoints 0%nat Hin) as [Hn _]. rewrite Nat.sub_0_r in Hn. symmetry. exact Hn.
Qed.

Lemma reps_in_iff (mapping : list Z) (N : nat)
  (Hlen : List.length mapping = N)
  (Hrep : forall i r, nth_error mapping i = Some r ->
     (0 <= r <= Z.of_nat i)%Z /\ nth_error mapping (Z.to_nat r) = Some r) (i : nat) :
  In i (filter (repb mapping) (seq 0 N)) <-> In (Z.of_nat i) mapping.
Proof.
  rewrite filter_In, in_seq. unfold repb. split.
  - intros [Hi Hr]. apply Z.eqb_eq in Hr. rewrite <- Hr. apply nth_In. lia.
  - intros Hv. destruct (In_nth_error mapping _ Hv) as [j Hj].
    destruct (Hrep j _ Hj) as [Hrange Hself]. rewrite Nat2Z.id in Hself.
    assert (Hil : (i < List.length mapping)%nat) by (apply nth_error_Some; congruence).
    split; [lia|]. rewrite (@nth_error_nth Z mapping _ _ 0%Z Hself). apply Z.eqb_refl.
Qed.

(** Example session used to run [get_ir_kpoints] on concrete inputs. *)
Definition kpoint_session : Finder.session nat :=
  Finder.mk_session 1 5 (mk_structure eye [mk_site 26%nat (0, 0, 0)])
    eye [(0, 0, 0)] [26%nat] [1%nat] "Im-3m (229)"%string.

(** Two k-points of the example session. *)
Definition two_kpoints : list vec := [(0, 0, 0); (1/2, 0, 0)].

(** Claim C9 (amended). Suppose the oracle mapping has one entry per k-point, and
    every entry [r] at index [i] is the index of a point that is its own
    representative, with [r <= i]. Then [get_ir_kpoints] returns the points at
    the indices [i] with [mapping[i] = i]. These indices are pairwise distinct
    and are exactly the values of the mapping, so the result has as many points
    as the mapping has distinct values. *)
Theorem get_ir_kpoints_representatives {Sp : Type}
  (spg_ir_kpoints : list Z -> list vec -> mat3 -> list vec -> list nat -> Z -> R -> option (nat -> Z))
  (s : Finder.session Sp) (kpoints : list vec) (is_time_reversal : bool) (mapping : list Z)
  (Horacle : Finder.get_ir_kpoints_mapping Sp spg_ir_kpoints s kpoints is_time_reversal = Ok mapping)
  (Hlen : List.length mapping = List.length kpoints)
  (Hrep : forall i r, nth_error mapping i = Some r ->
     (0 <= r <= Z.of_nat i)%Z /\ nth_error mapping (Z.to_nat r) = Some r) :
  exists reps : list nat,
    Finder.get_ir_kpoints Sp spg_ir_kpoints s kpoints is_time_reversal
      = Ok (map (fun i => nth i kpoints (0, 0, 0)%R) reps)
    /\ NoDup reps
    /\ Forall (fun i => nth i mapping 0%Z = Z.of_nat i) reps
    /\ (forall i, In i reps <-> In (Z.of_nat i) mapping)
    /\ List.length reps = List.length (nodup Z.eq_dec mapping).
Proof.
  exists (filter (repb mapping) (seq 0 (List.length kpoints))).
  split; [|split; [|split; [|split]]].
  - unfold Finder.get_ir_kpoints. rewrite Horacle. cbn [bind].
    rewrite (ir_kpoints_loop_spec mapping kpoints Hlen Hrep). reflexivity.
  - apply NoDup_filter, seq_NoDup.
  - apply Forall_forall. intros i Hi. apply filter_In in Hi. destruct Hi as [_ Hr].
    apply Z.eqb_eq. exact Hr.
  - apply reps_in_iff; assumption.
  - apply representatives_count; assumption.
Qed.

(** Witness for C9: the mapping [[0; 0]] on two k-points keeps the first one. *)
Lemma get_ir_kpoints_representatives_witness :
  exists reps : list nat,
    Finder.get_ir_kpoints nat (fun _ _ _ _ _ _ _ => Some (fun _ => 0%Z)) kpoint_session two_kpoints true
      = Ok (map (fun i => nth i two_kpoints (0, 0, 0)%R) reps)
    /\ NoDup reps
    /\ Forall (fun i => nth i [0; 0]%Z 0%Z = Z.of_nat i) reps
    /\ (forall i, In i reps <-> In (Z.of_nat i) [0; 0]%Z)
    /\ List.length reps = List.length (nodup Z.eq_dec [0; 0]%Z).
Proof.
  apply (@get_ir_kpoints_representatives nat (fun _ _ _ _ _ _ _ => Some (fun _ => 0%Z))
           kpoint_session two_kpoints true [0; 0]%Z eq_refl eq_refl).
  intros [|[|i]] r H; simpl in H.
  - injection H as <-. split; [lia|reflexivity].
  - injection H as <-. split; [lia|reflexivity].
  - destruct i; discriminate.
Defined.

(** Counterexample for C9: the mapping [[1; 1]] has one distinct value, yet
    [get_ir_kpoints] returns both k-points, since the loop tests [mapping[i]]
    against the list of indices [i] kept so far. *)
Lemma get_ir_kpoints_counterexample :
  Finder.get_ir_kpoints nat (fun _ _ _ _ _ _ _ => Some (fun _ => 1%Z)) kpoint_session two_kpoints true
    = Ok two_kpoints
  /\ List.length (nodup Z.eq_dec [1; 1]%Z) = 1%nat.
Proof. split; reflexivity. Qed.

End KpointClaims.

(** ** Lattice geometry *)

Module GeometryFacts.
Import Geo Latt.
Open Scope R_scope.

Lemma Rltb_false (x y : R) : y <= x -> Rltb x y = false.
Proof. intros H. unfold Rltb. destruct (Rlt_dec x y); [lra|reflexivity]. Qed.

Lemma Rltb_true (x y : R) : x < y -> Rltb x y = true.
Proof. intros H. unfold Rltb. destruct (Rlt_dec x y); [reflexivity|lra]. Qed.

Lemma Reqb_false (x y : R) : x <> y -> Reqb x y = false.
Proof. intros H. unfold Reqb. destruct (Req_EM_T x y); [contradiction|reflexivity]. Qed.

Lemma Reqb_refl (x : R) : Reqb x x = true.
Proof. unfold Reqb. destruct (Req_EM_T x x); [reflexivity|contradiction]. Qed.

Lemma norm_of_sq (v : vec) (x : R) : 0 <= x -> dot v v = x * x -> norm v = x.
Proof. intros Hx H. unfold norm. rewrite H. apply sqrt_square. exact Hx. Qed.

Lemma norm_nonneg (v : vec) : 0 <= norm v.
Proof. unfold norm. apply sqrt_pos. Qed.

Lemma dot_comm (u v : vec) : dot u v = dot v u.
Proof. unfold dot. ring. Qed.

Lemma angle_deg_comm (u v : vec) : angle_deg u v = angle_deg v u.
Proof. unfold angle_deg. rewrite dot_comm, (Rmult_comm (norm u)). reflexivity. Qed.

(** The angle between two vectors whose product of lengths is [n] and
    whose dot product is [n * cos x]. *)
Lemma angle_deg_cos (u v : vec) (x : R) :
  0 <= x <= PI -> norm u * norm v <> 0 -> dot u v = norm u * norm v * cos x ->
  angle_deg u v = x * 180 / PI.
Proof.
  intros Hx Hn Hd. unfold angle_deg. rewrite Hd.
  replace (norm u * norm v * cos x / (norm u * norm v)) with (cos x) by (field; split; intros E; apply Hn; rewrite E; ring).
  rewrite acos_cos by exact Hx. reflexivity.
Qed.

(** Orthogonal vectors make an angle of 90 degrees. *)
Lemma angle_deg_orth (u v : vec) : dot u v = 0 -> angle_deg u v = 90.
Proof.
  intros Hd. unfold angle_deg. rewrite Hd.
  replace (0 / (norm u * norm v)) with 0 by (unfold Rdiv; ring). rewrite acos_0.
  field. apply PI_neq0.
Qed.

End GeometryFacts.

(** ** The triclinic cell *)

Module TriclinicClaims.
Import Geo Latt GeometryFacts.
Open Scope R_scope.

(** Claim C8. For lengths [a, b, c > 0] and angles [alpha, beta, gamma] in
    [(0, PI)] with [sin^2 gamma - cos^2 alpha - cos^2 beta
    + 2 cos alpha cos beta cos gamma > 0], the matrix of the triclinic branch
    exists, its rows have lengths [a], [b], [c], and the angles between its
    rows are [alpha], [beta], [gamma] (in degrees, as [lengths_and_angles]
    gives them): the six cell metrics are reproduced. *)
Theorem triclinic_round_trip (a b c alpha beta gamma : R)
  (Ha : 0 < a) (Hb : 0 < b) (Hc : 0 < c)
  (Hal : 0 < alpha < PI) (Hbe : 0 < beta < PI) (Hga : 0 < gamma < PI)
  (HD : 0 < sin gamma ^ 2 - cos alpha ^ 2 - cos beta ^ 2
            + 2 * cos alpha * cos beta * cos gamma) :
  exists M, Standard.triclinic_matrix a b c alpha beta gamma = Ok M /\
    lengths_and_angles M = ((a, b, c), (alpha * 180 / PI, beta * 180 / PI, gamma * 180 / PI)).
Proof.
  set (rad := sin gamma ^ 2 - cos alpha ^ 2 - cos beta ^ 2
              + 2 * cos alpha * cos beta * cos gamma) in *.
  assert (Hs : 0 < sin gamma) by (apply sin_gt_0; lra).
  assert (Hsc : sin gamma ^ 2 + cos gamma ^ 2 = 1).
  { pose proof (sin2_cos2 gamma) as E. unfold Rsqr in E. lra. }
  assert (Hsq : sqrt rad * sqrt rad = rad) by (apply sqrt_sqrt; lra).
  unfold Standard.triclinic_matrix. fold rad.
  rewrite (Reqb_false (sin gamma) 0) by lra. rewrite (Rltb_false rad 0) by lra.
  eexists. split; [reflexivity|].
  set (r0 := (a, 0, 0)). set (r1 := (b * cos gamma, b * sin gamma, 0)).
  set (r2 := (c * cos beta, c * (cos alpha - cos beta * cos gamma) / sin gamma,
              c * sqrt rad / sin gamma)).
  assert (N0 : norm r0 = a).
  { apply norm_of_sq; [lra|]. unfold dot, r0; simpl. ring. }
  assert (N1 : norm r1 = b).
  { apply norm_of_sq; [lra|]. unfold dot, r1; simpl.
    replace (b * cos gamma * (b * cos gamma) + b * sin gamma * (b * sin gamma) + 0 * 0)
      with (b * b * (sin gamma ^ 2 + cos gamma ^ 2)) by ring.
    rewrite Hsc. ring. }
  assert (N2 : norm r2 = c).
  { apply norm_of_sq; [lra|]. unfold dot, r2; simpl.
    replace (c * cos beta * (c * cos beta)
             + c * (cos alpha - cos beta * cos gamma) / sin gamma
               * (c * (cos alpha - cos beta * cos gamma) / sin gamma)
             + c * sqrt rad / sin gamma * (c * sqrt rad / sin gamma))
      with (c * c * (cos beta ^ 2 * sin gamma ^ 2 + (cos alpha - cos beta * cos gamma) ^ 2
                     + sqrt rad * sqrt rad) / sin gamma ^ 2) by (field; lra).
    assert (Hnum : cos beta ^ 2 * sin gamma ^ 2 + (cos alpha - cos beta * cos gamma) ^ 2
                   + rad = sin gamma ^ 2).
    { unfold rad.
      replace (cos beta ^ 2 * sin gamma ^ 2) with (cos beta ^ 2 * (1 - cos gamma ^ 2))
        by (rewrite <- Hsc; ring).
      ring. }
    rewrite Hsq, Hnum. field. lra. }
  unfold lengths_and_angles, abc. cbn [row0 row1 row2]. fold r0 r1 r2.
  rewrite N0, N1, N2.
  rewrite (angle_deg_cos r1 r2 alpha), (angle_deg_cos r0 r2 beta), (angle_deg_cos r0 r1 gamma);
    try reflexivity; try lra; rewrite ?N0, ?N1, ?N2; try (apply Rmult_integral_contrapositive; lra).
  - unfold dot, r0, r1; simpl. ring.
  - unfold dot, r0, r2; simpl. ring.
  - unfold dot, r1, r2; simpl. field. lra.
Qed.

(** Witness for C8: the cube of side 1. *)
Lemma triclinic_round_trip_witness :
  exists M, Standard.triclinic_matrix 1 1 1 (PI / 2) (PI / 2) (PI / 2) = Ok M /\
    lengths_and_angles M =
      ((1, 1, 1), (PI / 2 * 180 / PI, PI / 2 * 180 / PI, PI / 2 * 180 / PI)).
Proof.
  pose proof PI_RGT_0 as Hpi.
  apply triclinic_round_trip; try lra.
  rewrite sin_PI2, cos_PI2. lra.
Defined.

End TriclinicClaims.

(** ** Facts on the standard-cell functions *)

Module StandardFacts.
Import Geo Latt GeometryFacts.
Open Scope R_scope.

Lemma map_result_length {A B : Type} (f : A -> result B) (l : list A) (l' : list B) :
  Py.map_result f l = Ok l' -> List.length l' = List.length l.
Proof.
  revert l'. induction l as [|a l IH]; intros l' H; simpl in H.
  - injection H as <-. reflexivity.
  - destruct (f a) as [b|e]; simpl in H; [|discriminate].
    destruct (Py.map_result f l) as [bs|e] eqn:E; simpl in H; [|discriminate].
    injection H as <-. simpl. f_equal. apply IH. reflexivity.
Qed.

Lemma from_sites_ok {Sp : Type} (l : list (psite Sp)) (st : structure Sp) :
  from_sites l = Ok st ->
  exists p l', l = p :: l' /\ lattice st = ps_lattice p /\
    sites st = map (fun t => mk_site (ps_species_and_occu t) (ps_frac t)) l.
Proof.
  destruct l as [|p l']; simpl; intros H; [discriminate|].
  injection H as <-. exists p, l'. repeat split.
Qed.

Lemma get_sorted_ok {Sp : Type} (site_leb : site Sp -> site Sp -> bool) (r st : structure Sp) :
  Standard.get_sorted_structure Sp site_leb r = Ok st ->
  sites st = sort_by site_leb (sites r) /\ lattice st = lattice r.
Proof.
  unfold Standard.get_sorted_structure. intros H.
  destruct (from_sites_ok _ _ H) as [p [l' [Hl [Hlat Hs]]]]. split.
  - rewrite Hs, map_map. simpl. rewrite <- (map_id (sort_by site_leb (sites r))) at 2.
    apply map_ext. intros [x y]. reflexivity.
  - rewrite Hlat. destruct (sort_by site_leb (sites r)); simpl in Hl; [discriminate|].
    injection Hl as <- _. reflexivity.
Qed.

Lemma insert_by_perm {A : Type} (leb : A -> A -> bool) (x : A) (l : list A) :
  Permutation (insert_by leb x l) (x :: l).
Proof.
  induction l as [|y l IH]; simpl; [reflexivity|].
  destruct (leb x y); [reflexivity|].
  transitivity (y :: x :: l); [constructor; exact IH|constructor].
Qed.

Lemma sort_by_perm {A : Type} (leb : A -> A -> bool) (l : list A) :
  Permutation (sort_by leb l) l.
Proof.
  induction l as [|x l IH]; simpl; [reflexivity|].
  rewrite insert_by_perm. constructor. exact IH.
Qed.

Section SortedSort.
Variable A : Type.
Variable leb : A -> A -> bool.
Hypothesis leb_total : forall x y, leb x y = true \/ leb y x = true.

Lemma insert_by_sorted (x : A) (l : list A) :
  Sorted (fun u v => leb u v = true) l -> Sorted (fun u v => leb u v = true) (insert_by leb x l).
Proof.
  induction 1 as [|y l Hs IH Hhd]; simpl.
  - repeat constructor.
  - destruct (leb x y) eqn:Exy.
    + constructor; [constructor; assumption|constructor; exact Exy].
    + constructor; [exact IH|].
      assert (Hyx : leb y x = true) by (destruct (leb_total x y); congruence).
      destruct l as [|z l]; simpl.
      * constructor. exact Hyx.
      * inversion Hhd; subst. destruct (leb x z); constructor; assumption.
Qed.

Lemma sort_by_sorted (l : list A) : Sorted (fun u v => leb u v = true) (sort_by leb l).
Proof. induction l as [|x l IH]; simpl; [constructor|apply insert_by_sorted; exact IH]. Qed.

End SortedSort.

End StandardFacts.

(** ** Example inputs *)

Module Examples.
Import Geo.
Open Scope R_scope.

(** An oracle [refine_cell] that keeps the cell as it is. *)
Definition refine_identity (latt : mat3) (pos : list vec) (numbers : list nat) (_ _ : R)
  : option (Z * mat3 * list vec * list nat) :=
  Some (Z.of_nat (List.length pos), latt, pos, numbers).

(** An oracle [spg.symmetry] that reports the identity as the one
    operation. *)
Definition identity_symmetry (_ : list mat3) (_ : list vec) (_ : mat3) (_ : list vec)
  (_ : list nat) (_ _ : R) : option (Z * (nat -> mat3) * (nat -> vec)) :=
  Some (1%Z, fun _ => eye, fun _ => (0, 0, 0)).

End Examples.

(** ** The monoclinic cell without an oblique angle *)

Module MonoclinicClaims.
Import Geo Latt GeometryFacts StandardFacts Examples.
Open Scope R_scope.

Lemma mono_C_right_angles (m : mat3) (st : Standard.mono_state) :
  angle_deg (row1 m) (row2 m) = 90 -> angle_deg (row0 m) (row2 m) = 90 ->
  fold_left (Standard.mono_step_C m) Standard.perms2 st = st.
Proof.
  intros H12 H02. unfold Standard.perms2. cbn [fold_left].
  unfold Standard.mono_step_C, lengths_and_angles. cbn [row row0 row1 row2].
  rewrite H12, H02, !(Rltb_false 90 90) by lra. reflexivity.
Qed.

Lemma mono_right_angles (m : mat3) (st : Standard.mono_state) :
  angle_deg (row1 m) (row2 m) = 90 -> angle_deg (row0 m) (row2 m) = 90 ->
  angle_deg (row0 m) (row1 m) = 90 ->
  fold_left (Standard.mono_step m) Standard.perms3 st = st.
Proof.
  intros H12 H02 H01. unfold Standard.perms3. cbn [fold_left].
  unfold Standard.mono_step, lengths_and_angles. cbn [row row0 row1 row2].
  rewrite !(angle_deg_comm (row2 m)), (angle_deg_comm (row1 m) (row0 m)).
  rewrite H12, H02, H01, !(Rltb_false 90 90) by lra. reflexivity.
Qed.

Lemma conv_monoclinic_C_raises {Sp : Type} (is_ordered : Sp -> bool) (struct : structure Sp) :
  angle_deg (row1 (lattice struct)) (row2 (lattice struct)) = 90 ->
  angle_deg (row0 (lattice struct)) (row2 (lattice struct)) = 90 ->
  Standard.conv_monoclinic Sp is_ordered true struct = Err NameError.
Proof.
  intros H12 H02. unfold Standard.conv_monoclinic.
  rewrite mono_C_right_angles by assumption. reflexivity.
Qed.

Lemma conv_monoclinic_raises {Sp : Type} (is_ordered : Sp -> bool) (struct : structure Sp)
  (t : site Sp) (rest : list (site Sp)) :
  angle_deg (row1 (lattice struct)) (row2 (lattice struct)) = 90 ->
  angle_deg (row0 (lattice struct)) (row2 (lattice struct)) = 90 ->
  angle_deg (row0 (lattice struct)) (row1 (lattice struct)) = 90 ->
  sites struct = t :: rest ->
  Standard.conv_monoclinic Sp is_ordered false struct
    = Err (if is_ordered (species_and_occu t) then ValueError else AttributeError).
Proof.
  intros H12 H02 H01 Hs. unfold Standard.conv_monoclinic.
  rewrite mono_right_angles by assumption.
  unfold Standard.map_sites, Standard.site_specie. rewrite Hs. cbn.
  destruct (is_ordered (species_and_occu t)); reflexivity.
Qed.

Lemma get_spacegroup_symbol_of {Sp : Type}
  (spg_symmetry : list mat3 -> list vec -> mat3 -> list vec -> list nat -> R -> R ->
                  option (Z * (nat -> mat3) * (nat -> vec)))
  (s : Finder.session Sp) (sg : Dataset.spacegroup) :
  Dataset.get_spacegroup Sp spg_symmetry s = Ok sg ->
  Symbol.get_spacegroup_symbol s = Ok (Dataset.int_symbol sg).
Proof.
  unfold Dataset.get_spacegroup.
  destruct (Symbol.get_spacegroup_symbol s) as [sym|e]; cbn [bind]; [|discriminate].
  destruct (Symbol.get_spacegroup_number s) as [num|e]; cbn [bind]; [|discriminate].
  destruct (Dataset.get_symmetry_operations Sp spg_symmetry s false) as [ops|e];
    cbn [bind]; [|discriminate].
  intros E. injection E as <-. reflexivity.
Qed.

(** A session whose refined cell is the rectangular box [diag(3, 4, 5)] with
    one atom at the origin, for the space-group string [data]. *)
Definition box_session (data : string) : Finder.session nat :=
  Finder.mk_session 1 5 (mk_structure (Standard.diag 3 4 5) [mk_site 26%nat (0, 0, 0)])
    (transpose (Standard.diag 3 4 5)) [(0, 0, 0)] [26%nat] [1%nat] data.

Definition box_refined : structure nat :=
  mk_structure (transpose (transpose (Standard.diag 3 4 5))) [mk_site 26%nat (0, 0, 0)].

Lemma box_spacegroup (data : string) :
  exists ops, Dataset.get_spacegroup nat identity_symmetry (box_session data)
    = let* sym := Symbol.get_spacegroup_symbol (box_session data) in
      let* num := Symbol.get_spacegroup_number (box_session data) in
      Ok (Dataset.mk_spacegroup sym num ops).
Proof.
  unfold Dataset.get_spacegroup, Dataset.get_symmetry_operations, Latt.inv3.
  cbn [Dataset._get_symmetry identity_symmetry bind].
  match goal with |- context [Req_EM_T ?d 0] => destruct (Req_EM_T d 0) as [Hd|Hd] end.
  - exfalso. unfold det3, transpose, Standard.diag in Hd. cbn in Hd. lra.
  - eexists. cbn [bind]. reflexivity.
Qed.

(** Claim C1 (the code raises instead of falling back). Take a session whose
    lattice type is monoclinic and whose [get_spacegroup()] succeeds; the
    [int_symbol] of that space group is the symbol [get_spacegroup_symbol]
    gives. Suppose the angles its refined cell offers to the axis search are
    all 90 degrees. With an [int_symbol] starting with [C], the fallback
    reads [alpha], which no iteration bound, and
    [get_conventional_standard_structure] raises [UnboundLocalError] (a
    [NameError]). With any other symbol, [new_matrix] stays [None]; on the
    first site, [s.specie] raises [AttributeError] if the site is disordered,
    and otherwise [Lattice(new_matrix)] raises [ValueError]. *)
Theorem monoclinic_degenerate_raises {Sp : Type}
  (spg_refine_cell : mat3 -> list vec -> list nat -> R -> R -> option (Z * mat3 * list vec * list nat))
  (supercell : structure Sp -> mat3 -> structure Sp) (lll_reduce : structure Sp -> structure Sp)
  (site_leb : site Sp -> site Sp -> bool) (is_ordered : Sp -> bool)
  (spg_symmetry : list mat3 -> list vec -> mat3 -> list vec -> list nat -> R -> R ->
                  option (Z * (nat -> mat3) * (nat -> vec)))
  (s : Finder.session Sp) (struct : structure Sp) (sg : Dataset.spacegroup)
  (Href : Standard.get_refined_structure Sp spg_refine_cell site_leb s = Ok struct)
  (Hlt : Symbol.get_lattice_type s = Ok (Some "monoclinic"%string))
  (Hsg : Dataset.get_spacegroup Sp spg_symmetry s = Ok sg)
  (H12 : angle_deg (row1 (lattice struct)) (row2 (lattice struct)) = 90)
  (H02 : angle_deg (row0 (lattice struct)) (row2 (lattice struct)) = 90) :
  Symbol.get_spacegroup_symbol s = Ok (Dataset.int_symbol sg)
  /\ (startswith "C" (Dataset.int_symbol sg) = true ->
      Standard.get_conventional_standard_structure Sp spg_refine_cell supercell lll_reduce
        site_leb is_ordered spg_symmetry s = Err NameError)
  /\ (startswith "C" (Dataset.int_symbol sg) = false ->
      angle_deg (row0 (lattice struct)) (row1 (lattice struct)) = 90 ->
      forall t rest, sites struct = t :: rest ->
      Standard.get_conventional_standard_structure Sp spg_refine_cell supercell lll_reduce
        site_leb is_ordered spg_symmetry s
        = Err (if is_ordered (species_and_occu t) then ValueError else AttributeError)).
Proof.
  split; [exact (get_spacegroup_symbol_of spg_symmetry s sg Hsg)|].
  unfold Standard.get_conventional_standard_structure. rewrite Href, Hlt. cbn [bind].
  unfold Symbol.opt_is. simpl String.eqb. cbv iota beta. rewrite Hsg. cbn [bind].
  split.
  - intros HC. rewrite HC, conv_monoclinic_C_raises by assumption. reflexivity.
  - intros HC H01 t rest Hs. rewrite HC, (conv_monoclinic_raises is_ordered struct t rest)
      by assumption.
    destruct (is_ordered (species_and_occu t)); reflexivity.
Qed.

(** Witness for C1: the box [diag(3, 4, 5)] as [C2/m] (number 12), and as
    [P2/m] (number 10) with its site ordered and disordered. *)
Lemma monoclinic_degenerate_raises_witness :
  Standard.get_conventional_standard_structure nat refine_identity
    (fun st _ => st) (fun st => st) (fun _ _ => true) (fun _ => true) identity_symmetry
    (box_session "C2/m (12)") = Err NameError
  /\ Standard.get_conventional_standard_structure nat refine_identity
    (fun st _ => st) (fun st => st) (fun _ _ => true) (fun _ => true) identity_symmetry
    (box_session "P2/m (10)") = Err ValueError
  /\ Standard.get_conventional_standard_structure nat refine_identity
    (fun st _ => st) (fun st => st) (fun _ _ => true) (fun _ => false) identity_symmetry
    (box_session "P2/m (10)") = Err AttributeError.
Proof.
  assert (H12 : angle_deg (row1 (lattice box_refined)) (row2 (lattice box_refined)) = 90)
    by (apply angle_deg_orth; unfold dot; simpl; ring).
  assert (H02 : angle_deg (row0 (lattice box_refined)) (row2 (lattice box_refined)) = 90)
    by (apply angle_deg_orth; unfold dot; simpl; ring).
  assert (H01 : angle_deg (row0 (lattice box_refined)) (row1 (lattice box_refined)) = 90)
    by (apply angle_deg_orth; unfold dot; simpl; ring).
  destruct (box_spacegroup "C2/m (12)") as [opsC HC].
  destruct (box_spacegroup "P2/m (10)") as [opsP HP].
  split; [|split].
  - apply (proj1 (proj2 (@monoclinic_degenerate_raises nat refine_identity (fun st _ => st)
             (fun st => st) (fun _ _ => true) (fun _ => true) identity_symmetry
             (box_session "C2/m (12)") box_refined (Dataset.mk_spacegroup "C2/m" 12 opsC)
             eq_refl eq_refl HC H12 H02))).
    reflexivity.
  - apply (proj2 (proj2 (@monoclinic_degenerate_raises nat refine_identity (fun st _ => st)
             (fun st => st) (fun _ _ => true) (fun _ => true) identity_symmetry
             (box_session "P2/m (10)") box_refined (Dataset.mk_spacegroup "P2/m" 10 opsP)
             eq_refl eq_refl HP H12 H02)) eq_refl H01 _ [] eq_refl).
  - apply (proj2 (proj2 (@monoclinic_degenerate_raises nat refine_identity (fun st _ => st)
             (fun st => st) (fun _ _ => true) (fun _ => false) identity_symmetry
             (box_session "P2/m (10)") box_refined (Dataset.mk_spacegroup "P2/m" 10 opsP)
             eq_refl eq_refl HP H12 H02)) eq_refl H01 _ [] eq_refl).
Defined.

End MonoclinicClaims.

(** ** The sites of the conventional cell *)

Module ConventionalClaims.
Import Geo Latt GeometryFacts StandardFacts Examples.
Open Scope R_scope.

Lemma from_sites_length {Sp : Type} (l : list (psite Sp)) (st : structure Sp) :
  from_sites l = Ok st -> List.length (sites st) = List.length l.
Proof.
  intros H. destruct (from_sites_ok _ _ H) as [p [l' [_ [_ Hs]]]].
  rewrite Hs, length_map. reflexivity.
Qed.

(** The site [t] with its fractional coordinates mapped by [T], and taken
    into the unit cell when [tu] holds: the site [PeriodicSite(s.specie,
    np.dot(T, s.frac_coords), ..., to_unit_cell=tu)] of an ordered site. *)
Definition moved_site {Sp : Type} (T : mat3) (tu : bool) (t : site Sp) : site Sp :=
  mk_site (species_and_occu t)
    (if tu then to_unit_cell (mat_vec T (frac_coords t)) else mat_vec T (frac_coords t)).

Lemma map_result_Forall2 {A B : Type} (f : A -> result B) (l : list A) (ns : list B) :
  Py.map_result f l = Ok ns -> Forall2 (fun a b => f a = Ok b) l ns.
Proof.
  revert ns. induction l as [|a l IH]; intros ns H; simpl in H.
  - injection H as <-. constructor.
  - destruct (f a) as [b|e] eqn:Ef; simpl in H; [|discriminate].
    destruct (Py.map_result f l) as [bs|e] eqn:E; simpl in H; [|discriminate].
    injection H as <-. constructor; [exact Ef|apply IH; reflexivity].
Qed.

Lemma Forall2_map_eq {A B C : Type} (P : A -> B -> Prop) (g : B -> C) (h : A -> C)
  (l : list A) (ns : list B) :
  (forall a b, P a b -> g b = h a) -> Forall2 P l ns -> map g ns = map h l.
Proof. intros Hgh HF. induction HF; simpl; [reflexivity|]. f_equal; auto. Qed.

Lemma Forall2_Forall_l {A B : Type} (P : A -> B -> Prop) (Q : A -> Prop)
  (l : list A) (ns : list B) :
  (forall a b, P a b -> Q a) -> Forall2 P l ns -> Forall Q l.
Proof. intros HQ HF. induction HF; constructor; eauto. Qed.

(** The shape of a site loop: every site of [l] is ordered, and the new
    sites are the sites of [l] moved by [T]. *)
Lemma site_loop_shape {Sp : Type} (is_ordered : Sp -> bool) (f : site Sp -> result (psite Sp))
  (T : mat3) (tu : bool) (l : list (site Sp)) (ns : list (psite Sp)) (r : structure Sp) :
  (forall t p, f t = Ok p ->
     is_ordered (species_and_occu t) = true
     /\ mk_site (ps_species_and_occu p) (ps_frac p) = moved_site T tu t) ->
  Py.map_result f l = Ok ns -> from_sites ns = Ok r ->
  Forall (fun t => is_ordered (species_and_occu t) = true) l
  /\ sites r = map (moved_site T tu) l.
Proof.
  intros Hf Hm Hr. apply map_result_Forall2 in Hm.
  destruct (from_sites_ok _ _ Hr) as [p [l' [_ [_ Hs]]]]. split.
  - apply (Forall2_Forall_l (fun a b => f a = Ok b) _ l ns); [|exact Hm].
    intros a b Hab. exact (proj1 (Hf a b Hab)).
  - rewrite Hs. apply (Forall2_map_eq (fun a b => f a = Ok b) _ _ l ns); [|exact Hm].
    intros a b Hab. exact (proj2 (Hf a b Hab)).
Qed.

Lemma map_sites_shape {Sp : Type} (is_ordered : Sp -> bool) (struct : structure Sp)
  (tr : mat3) (nm : option mat3) (tu : bool) (r : structure Sp) :
  (let* ns := Standard.map_sites Sp is_ordered struct tr nm tu in from_sites ns) = Ok r ->
  Forall (fun t => is_ordered (species_and_occu t) = true) (sites struct)
  /\ sites r = map (moved_site tr tu) (sites struct).
Proof.
  destruct (Standard.map_sites Sp is_ordered struct tr nm tu) as [ns|e] eqn:E;
    simpl; [|discriminate].
  unfold Standard.map_sites in E. intros Hr.
  refine (site_loop_shape is_ordered _ tr tu _ ns r _ E Hr).
  intros t p. unfold Standard.site_specie.
  destruct (is_ordered (species_and_occu t)) eqn:Eo; simpl; [|discriminate].
  destruct nm as [m|]; simpl; [|discriminate].
  intros Hp. injection Hp as <-. split; [reflexivity|].
  unfold moved_site, PeriodicSite. reflexivity.
Qed.

Lemma conv_orthorhombic_shape {Sp : Type} (is_ordered : Sp -> bool) (sym : string)
  (struct r : structure Sp) :
  Standard.conv_orthorhombic Sp is_ordered sym struct = Ok r ->
  exists T, Forall (fun t => is_ordered (species_and_occu t) = true) (sites struct)
    /\ sites r = map (moved_site T true) (sites struct).
Proof.
  unfold Standard.conv_orthorhombic. destruct (startswith "C" sym);
    intros H; eexists; exact (map_sites_shape _ _ _ _ _ _ H).
Qed.

Lemma conv_tetragonal_shape {Sp : Type} (is_ordered : Sp -> bool) (struct r : structure Sp) :
  Standard.conv_tetragonal Sp is_ordered struct = Ok r ->
  exists T, Forall (fun t => is_ordered (species_and_occu t) = true) (sites struct)
    /\ sites r = map (moved_site T true) (sites struct).
Proof.
  unfold Standard.conv_tetragonal. cbv zeta.
  destruct (Rltb _ _); intros H; eexists; exact (map_sites_shape _ _ _ _ _ _ H).
Qed.

Lemma conv_monoclinic_shape {Sp : Type} (is_ordered : Sp -> bool) (c_setting : bool)
  (struct r : structure Sp) :
  Standard.conv_monoclinic Sp is_ordered c_setting struct = Ok r ->
  exists T, Forall (fun t => is_ordered (species_and_occu t) = true) (sites struct)
    /\ sites r = map (moved_site T true) (sites struct).
Proof.
  unfold Standard.conv_monoclinic. cbv zeta.
  match goal with
  | |- bind ?x _ = _ -> _ => destruct x as [st|e]; simpl; [|discriminate]
  end.
  intros H. eexists. exact (map_sites_shape _ _ _ _ _ _ H).
Qed.

(** [np.dot(np.dot(x, M), N)] as a column transformation of [x]. *)
Lemma vec_mat_vec_mat (x : vec) (M N : mat3) :
  vec_mat (vec_mat x M) N = mat_vec (transpose (mat_mul M N)) x.
Proof.
  destruct x as [[x0 x1] x2].
  destruct M as [[[a0 a1] a2] [[b0 b1] b2] [[c0 c1] c2]].
  destruct N as [[[d0 d1] d2] [[e0 e1] e2] [[f0 f1] f2]].
  unfold vec_mat, mat_vec, mat_mul, transpose. cbn. unfold dot. cbn.
  apply pair_equal_spec; split; [apply pair_equal_spec; split|]; ring.
Qed.

Lemma mat_vec_eye (x : vec) : mat_vec eye x = x.
Proof.
  destruct x as [[x0 x1] x2]. unfold mat_vec, eye, dot. cbn.
  apply pair_equal_spec; split; [apply pair_equal_spec; split|]; ring.
Qed.

Lemma hex_sites_shape {Sp : Type} (is_ordered : Sp -> bool) (M N : mat3)
  (l : list (site Sp)) (ns : list (psite Sp)) (r : structure Sp) :
  Py.map_result
    (fun t => let* sp := Standard.site_specie Sp is_ordered t in
              let* L := Lattice (Some N) in
              PeriodicSite_cart sp (coords M (frac_coords t)) L true) l = Ok ns ->
  from_sites ns = Ok r ->
  exists T, Forall (fun t => is_ordered (species_and_occu t) = true) l
    /\ sites r = map (moved_site T true) l.
Proof.
  intros Hm Hr.
  exists (match inv3 N with Ok inv => transpose (mat_mul M inv) | Err _ => eye end).
  refine (site_loop_shape is_ordered _ _ true l ns r _ Hm Hr).
  intros t p. unfold Standard.site_specie.
  destruct (is_ordered (species_and_occu t)) eqn:Eo; simpl; [|discriminate].
  unfold PeriodicSite_cart, get_fractional_coords.
  destruct (inv3 N) as [inv|e]; simpl; [|discriminate].
  intros Hp. injection Hp as <-. split; [reflexivity|].
  unfold moved_site, PeriodicSite, coords. cbn [ps_species_and_occu ps_frac].
  rewrite vec_mat_vec_mat. reflexivity.
Qed.

Lemma conv_hexagonal_shape {Sp : Type} (supercell : structure Sp -> mat3 -> structure Sp)
  (is_ordered : Sp -> bool) (struct r : structure Sp) :
  Standard.conv_hexagonal Sp supercell is_ordered struct = Ok r ->
  exists T,
    let base := if Standard.rhombohedral_setting (lattice struct)
                then supercell struct Standard.hex_scaling else struct in
    Forall (fun t => is_ordered (species_and_occu t) = true) (sites base)
    /\ sites r = map (moved_site T true) (sites base).
Proof.
  unfold Standard.conv_hexagonal. cbv zeta. intros H.
  destruct (Standard.rhombohedral_setting (lattice struct));
    destruct (Rltb _ _); cbv beta iota zeta in H;
    match goal with
    | H : bind ?x _ = _ |- _ =>
        destruct x as [ns|e] eqn:E; simpl in H; [|discriminate];
        exact (hex_sites_shape _ _ _ _ _ _ E H)
    end.
Qed.

Lemma conv_triclinic_shape {Sp : Type} (lll_reduce : structure Sp -> structure Sp)
  (is_ordered : Sp -> bool) (struct r : structure Sp) :
  Standard.conv_triclinic Sp lll_reduce is_ordered struct = Ok r ->
  Forall (fun t => is_ordered (species_and_occu t) = true) (sites (lll_reduce struct))
  /\ sites r = map (moved_site eye false) (sites (lll_reduce struct)).
Proof.
  unfold Standard.conv_triclinic, lengths_and_angles, abc. cbv zeta.
  destruct (Standard.triclinic_matrix _ _ _ _ _ _) as [nm|e]; simpl; [|discriminate].
  destruct (Py.map_result _ _) as [ns|e] eqn:E; simpl; [|discriminate].
  intros Hr. refine (site_loop_shape is_ordered _ eye false _ ns r _ E Hr).
  intros t p. unfold Standard.site_specie.
  destruct (is_ordered (species_and_occu t)) eqn:Eo; simpl; [|discriminate].
  intros Hp. injection Hp as <-. split; [reflexivity|].
  unfold moved_site, PeriodicSite. cbn [ps_species_and_occu ps_frac].
  rewrite mat_vec_eye. reflexivity.
Qed.

Lemma bind_some_ok {A B : Type} (x : result A) (f : A -> result B) (r : B) :
  (let* a := x in let* b := f a in Ok (Some b)) = Ok (Some r) ->
  exists a, x = Ok a /\ f a = Ok r.
Proof.
  destruct x as [a|e]; simpl; [|discriminate].
  destruct (f a) as [b|e] eqn:Ef; simpl; [|discriminate].
  intros H. injection H as <-. exists a. split; [reflexivity|exact Ef].
Qed.

Lemma bind_ok_some {A : Type} (x : result A) (r : A) :
  (let* b := x in Ok (Some b)) = Ok (Some r) -> x = Ok r.
Proof. destruct x as [b|e]; simpl; [|discriminate]. intros H. injection H as <-. reflexivity. Qed.

Lemma opt_is_true (lt : option string) (k : string) :
  Symbol.opt_is lt k = true -> lt = Some k.
Proof.
  destruct lt as [k'|]; simpl; [|discriminate].
  intros E. apply String.eqb_eq in E. subst. reflexivity.
Qed.

Lemma opt_is_or_true (lt : option string) (k k' : string) :
  Symbol.opt_is lt k || Symbol.opt_is lt k' = true -> lt = Some k \/ lt = Some k'.
Proof.
  intros E. apply orb_true_iff in E.
  destruct E as [E|E]; [left|right]; exact (opt_is_true _ _ E).
Qed.

Lemma is_periodic_image_refl {Sp : Type} (sp_eq_dec : forall x y : Sp, {x = y} + {x <> y})
  (p : psite Sp) : is_periodic_image sp_eq_dec p p = true.
Proof.
  unfold is_periodic_image, mat3_eqb, vec_eqb, is_int.
  rewrite !Reqb_refl. destruct (sp_eq_dec (ps_species_and_occu p) (ps_species_and_occu p)); [|contradiction].
  rewrite !Rminus_diag, fp_R0, Reqb_refl. reflexivity.
Qed.

Lemma conventional_from_sorted {Sp : Type} (site_leb : site Sp -> site Sp -> bool)
  (r st : structure Sp) :
  Standard.get_sorted_structure Sp site_leb r = Ok st ->
  sites st = sort_by site_leb (sites r)
  /\ Permutation (sites st) (sites r)
  /\ ((forall x y, site_leb x y = true \/ site_leb y x = true) ->
      Sorted (fun x y => site_leb x y = true) (sites st)).
Proof.
  intros H. destruct (get_sorted_ok _ _ _ H) as [Hs _]. rewrite Hs.
  split; [reflexivity|split; [apply sort_by_perm|]].
  intros Htot. apply sort_by_sorted. exact Htot.
Qed.

Lemma conventional_shape {Sp : Type}
  (spg_refine_cell : mat3 -> list vec -> list nat -> R -> R -> option (Z * mat3 * list vec * list nat))
  (supercell : structure Sp -> mat3 -> structure Sp) (lll_reduce : structure Sp -> structure Sp)
  (site_leb : site Sp -> site Sp -> bool) (is_ordered : Sp -> bool)
  (spg_symmetry : list mat3 -> list vec -> mat3 -> list vec -> list nat -> R -> R ->
                  option (Z * (nat -> mat3) * (nat -> vec)))
  (s : Finder.session Sp) (st : structure Sp)
  (H : Standard.get_conventional_standard_structure Sp spg_refine_cell supercell lll_reduce
         site_leb is_ordered spg_symmetry s = Ok st) :
  exists refined lt base T tu r,
    Standard.get_refined_structure Sp spg_refine_cell site_leb s = Ok refined
    /\ Symbol.get_lattice_type s = Ok lt
    /\ base = (if Symbol.opt_is lt "hexagonal" || Symbol.opt_is lt "rhombohedral"
               then if Standard.rhombohedral_setting (lattice refined)
                    then supercell refined Standard.hex_scaling else refined
               else if Symbol.opt_is lt "triclinic" then lll_reduce refined else refined)
    /\ Forall (fun t => is_ordered (species_and_occu t) = true) (sites base)
    /\ sites r = map (moved_site T tu) (sites base)
    /\ sites st = sort_by site_leb (sites r)
    /\ Permutation (sites st) (sites r)
    /\ ((forall x y, site_leb x y = true \/ site_leb y x = true) ->
        Sorted (fun x y => site_leb x y = true) (sites st)).
Proof.
  unfold Standard.get_conventional_standard_structure in H.
  destruct (Standard.get_refined_structure Sp spg_refine_cell site_leb s) as [refined|e];
    simpl in H; [|discriminate].
  destruct (Symbol.get_lattice_type s) as [lt|e]; simpl in H; [|discriminate].
  match type of H with
  | bind ?x _ = _ => destruct x as [[r|]|e] eqn:Eres; simpl in H; [|discriminate|discriminate]
  end.
  destruct (conventional_from_sorted _ _ _ H) as [Hs [Hp Hsorted]].
  exists refined, lt.
  destruct (Symbol.opt_is lt "orthorhombic" || Symbol.opt_is lt "cubic") eqn:E1;
  [|destruct (Symbol.opt_is lt "tetragonal") eqn:E2;
  [|destruct (Symbol.opt_is lt "hexagonal" || Symbol.opt_is lt "rhombohedral") eqn:E3;
  [|destruct (Symbol.opt_is lt "monoclinic") eqn:E4;
  [|destruct (Symbol.opt_is lt "triclinic") eqn:E5; [|discriminate]]]]].
  - destruct (bind_some_ok _ _ _ Eres) as [sym [_ Hr]].
    destruct (conv_orthorhombic_shape _ _ _ _ Hr) as [T [Ho Hm]].
    exists refined, T, true, r.
    destruct (opt_is_or_true _ _ _ E1) as [->| ->]; repeat split; auto.
  - apply bind_ok_some in Eres.
    destruct (conv_tetragonal_shape _ _ _ Eres) as [T [Ho Hm]].
    exists refined, T, true, r.
    rewrite (opt_is_true _ _ E2). repeat split; auto.
  - apply bind_ok_some in Eres.
    destruct (conv_hexagonal_shape _ _ _ _ Eres) as [T [Ho Hm]].
    eexists. exists T, true, r.
    destruct (opt_is_or_true _ _ _ E3) as [->| ->]; repeat split; eauto.
  - destruct (bind_some_ok _ _ _ Eres) as [sg [_ Hr]].
    destruct (conv_monoclinic_shape _ _ _ _ Hr) as [T [Ho Hm]].
    exists refined, T, true, r.
    rewrite (opt_is_true _ _ E4). repeat split; auto.
  - apply bind_ok_some in Eres.
    destruct (conv_triclinic_shape _ _ _ _ Eres) as [Ho Hm].
    exists (lll_reduce refined), eye, false, r.
    rewrite (opt_is_true _ _ E5). repeat split; auto.
Qed.

Lemma conventional_ordered {Sp : Type}
  (spg_refine_cell : mat3 -> list vec -> list nat -> R -> R -> option (Z * mat3 * list vec * list nat))
  (supercell : structure Sp -> mat3 -> structure Sp) (lll_reduce : structure Sp -> structure Sp)
  (site_leb : site Sp -> site Sp -> bool) (is_ordered : Sp -> bool)
  (spg_symmetry : list mat3 -> list vec -> mat3 -> list vec -> list nat -> R -> R ->
                  option (Z * (nat -> mat3) * (nat -> vec)))
  (s : Finder.session Sp) (st : structure Sp) :
  Standard.get_conventional_standard_structure Sp spg_refine_cell supercell lll_reduce
    site_leb is_ordered spg_symmetry s = Ok st ->
  Forall (fun t => is_ordered (species_and_occu t) = true) (sites st).
Proof.
  intros H.
  destruct (conventional_shape _ _ _ _ _ _ _ _ H)
    as [refined [lt [base [T [tu [r [_ [_ [_ [Ho [Hr [_ [Hp _]]]]]]]]]]]]].
  apply (Permutation_Forall (Permutation_sym Hp)).
  rewrite Hr. apply Forall_map. apply (Forall_impl _ (fun t H => H) Ho).
Qed.

(** Claim C4 (amended). Whenever [get_conventional_standard_structure]
    returns a structure, name [base] the cell its branch starts from: the
    refined cell, except in the hexagonal and rhombohedral branch on a cell
    whose three lengths agree within [0.001] (its hexagonal supercell) and
    in the triclinic branch (its LLL reduction). Every site of [base] is
    ordered, and the branch maps each site of [base], in order, through one
    fractional transformation [T] of the branch (then into the unit cell
    when [tu]), keeping its species: the transformed cell [r] has exactly
    one site per site of [base]. The result's sites are those of [r]
    sorted by the canonical order. No site is dropped as a periodic image
    of another. *)
Theorem conventional_sites_sorted_one_per_site {Sp : Type}
  (spg_refine_cell : mat3 -> list vec -> list nat -> R -> R -> option (Z * mat3 * list vec * list nat))
  (supercell : structure Sp -> mat3 -> structure Sp) (lll_reduce : structure Sp -> structure Sp)
  (site_leb : site Sp -> site Sp -> bool) (is_ordered : Sp -> bool)
  (spg_symmetry : list mat3 -> list vec -> mat3 -> list vec -> list nat -> R -> R ->
                  option (Z * (nat -> mat3) * (nat -> vec)))
  (s : Finder.session Sp) (st : structure Sp)
  (H : Standard.get_conventional_standard_structure Sp spg_refine_cell supercell lll_reduce
         site_leb is_ordered spg_symmetry s = Ok st) :
  exists refined lt base T tu r,
    Standard.get_refined_structure Sp spg_refine_cell site_leb s = Ok refined
    /\ Symbol.get_lattice_type s = Ok lt
    /\ base = (if Symbol.opt_is lt "hexagonal" || Symbol.opt_is lt "rhombohedral"
               then if Standard.rhombohedral_setting (lattice refined)
                    then supercell refined Standard.hex_scaling else refined
               else if Symbol.opt_is lt "triclinic" then lll_reduce refined else refined)
    /\ Forall (fun t => is_ordered (species_and_occu t) = true) (sites base)
    /\ sites r = map (moved_site T tu) (sites base)
    /\ sites st = sort_by site_leb (sites r)
    /\ Permutation (sites st) (sites r)
    /\ ((forall x y, site_leb x y = true \/ site_leb y x = true) ->
        Sorted (fun x y => site_leb x y = true) (sites st)).
Proof.
  exact (conventional_shape spg_refine_cell supercell lll_reduce site_leb is_ordered
           spg_symmetry s st H).
Qed.

(** An orthorhombic session ([Pmmm], number 47) on the box [diag(3, 4, 5)]
    whose refined cell holds the same atom twice at the origin. *)
Definition pair_session : Finder.session nat :=
  Finder.mk_session 1 5
    (mk_structure (Standard.diag 3 4 5) [mk_site 26%nat (0, 0, 0); mk_site 26%nat (0, 0, 0)])
    (transpose (Standard.diag 3 4 5)) [(0, 0, 0); (0, 0, 0)] [26%nat] [1%nat; 1%nat]
    "Pmmm (47)".

(** Witness for C4: the run on [pair_session] succeeds and the theorem
    describes its result. *)
Lemma conventional_sites_sorted_one_per_site_witness :
  exists st,
    Standard.get_conventional_standard_structure nat refine_identity (fun st _ => st)
      (fun st => st) (fun _ _ => true) (fun _ => true) identity_symmetry pair_session = Ok st
    /\ exists refined lt base T tu r,
      Standard.get_refined_structure nat refine_identity (fun _ _ => true) pair_session
        = Ok refined
      /\ Symbol.get_lattice_type pair_session = Ok lt
      /\ base = (if Symbol.opt_is lt "hexagonal" || Symbol.opt_is lt "rhombohedral"
                 then if Standard.rhombohedral_setting (lattice refined)
                      then refined else refined
                 else if Symbol.opt_is lt "triclinic" then refined else refined)
      /\ Forall (fun t => true = true) (sites base)
      /\ sites r = map (moved_site T tu) (sites base)
      /\ sites st = sort_by (fun _ _ => true) (sites r)
      /\ Permutation (sites st) (sites r)
      /\ ((forall x y : site nat, true = true \/ true = true) ->
          Sorted (fun x y : site nat => true = true) (sites st)).
Proof.
  assert (E : exists st, Standard.get_conventional_standard_structure nat refine_identity
                (fun st _ => st) (fun st => st) (fun _ _ => true) (fun _ => true)
                identity_symmetry pair_session = Ok st)
    by (eexists; reflexivity).
  destruct E as [st E]. exists st. split; [exact E|].
  exact (@conventional_sites_sorted_one_per_site nat refine_identity (fun st _ => st)
           (fun st => st) (fun _ _ => true) (fun _ => true) identity_symmetry pair_session st E).
Defined.

(** Counterexample for C4: on [pair_session] the conventional structure
    holds the same site twice, and the two sites are periodic images of
    each other. *)
Lemma conventional_keeps_images_counterexample :
  exists st x,
    Standard.get_conventional_standard_structure nat refine_identity (fun st _ => st)
      (fun st => st) (fun _ _ => true) (fun _ => true) identity_symmetry pair_session = Ok st
    /\ sites st = [x; x]
    /\ is_periodic_image Nat.eq_dec (mk_psite (species_and_occu x) (frac_coords x) (lattice st))
         (mk_psite (species_and_occu x) (frac_coords x) (lattice st)) = true.
Proof.
  eexists. eexists. split; [reflexivity|]. split; [reflexivity|].
  apply is_periodic_image_refl.
Qed.

End ConventionalClaims.

(** ** The primitive standard cell *)

Module PrimitiveStandardClaims.
Import Geo Latt GeometryFacts StandardFacts Examples.
Open Scope R_scope.

Section Loop.
Variable Sp : Type.
Variable sp_eq_dec : forall x y : Sp, {x = y} + {x <> y}.
Variable is_ordered : Sp -> bool.
Variable M L : mat3.

(** The body of the site loop of [get_primitive_standard_structure], for
    the conventional lattice [M] and the new lattice [L]. *)
Definition prim_body (acc : list (psite Sp)) (t : site Sp) : result (list (psite Sp)) :=
  let* sp := Standard.site_specie Sp is_ordered t in
  let* L' := Lattice (Some L) in
  let* new_s := PeriodicSite_cart sp (coords M (frac_coords t)) L' true in
  Ok (Standard.add_unique Sp sp_eq_dec acc new_s).

Lemma add_unique_cases (acc : list (psite Sp)) (p : psite Sp) :
  Standard.add_unique Sp sp_eq_dec acc p = acc \/ Standard.add_unique Sp sp_eq_dec acc p = acc ++ [p].
Proof. unfold Standard.add_unique. destruct (existsb _ _); [left|right]; reflexivity. Qed.

Lemma add_unique_nonempty (acc : list (psite Sp)) (p : psite Sp) :
  Standard.add_unique Sp sp_eq_dec acc p <> [].
Proof.
  unfold Standard.add_unique. destruct (existsb _ acc) eqn:E.
  - destruct acc; [discriminate|congruence].
  - destruct acc; discriminate.
Qed.

Lemma prim_loop_inv (l : list (site Sp)) (acc r : list (psite Sp)) :
  for_each l prim_body acc = Ok r ->
  Forall (fun p => ps_lattice p = L) acc ->
  Forall (fun p => ps_lattice p = L) r /\ (acc <> [] \/ l <> [] -> r <> []).
Proof.
  revert acc. induction l as [|t l IH]; intros acc H Hacc; simpl in H.
  - injection H as <-. split; [exact Hacc|]. intros [Hn|Hn]; [exact Hn|contradiction].
  - unfold prim_body at 1 in H. unfold Standard.site_specie in H.
    destruct (is_ordered (species_and_occu t)); cbn [Lattice bind] in H; [|discriminate].
    unfold PeriodicSite_cart in H.
    destruct (get_fractional_coords L (coords M (frac_coords t))) as [frac|e];
      simpl in H; [|discriminate].
    destruct (IH _ H) as [Hr Hne].
    + destruct (add_unique_cases acc (PeriodicSite (species_and_occu t) frac L true)) as [E|E];
        rewrite E.
      * exact Hacc.
      * apply Forall_app. split; [exact Hacc|]. repeat constructor.
    + split; [exact Hr|]. intros _. apply Hne. left. apply add_unique_nonempty.
Qed.

Lemma prim_loop_ok (l : list (site Sp)) (acc : list (psite Sp)) :
  Forall (fun t => is_ordered (species_and_occu t) = true) l ->
  det3 L <> 0 -> exists r, for_each l prim_body acc = Ok r.
Proof.
  intros Ho Hd. assert (Hinv : exists i, inv3 L = Ok i).
  { destruct L as [[[a b] c] [[d e] f] [[g h] i]]. unfold inv3. cbn [row0 row1 row2].
    destruct (Req_EM_T _ 0) as [E|E]; [contradiction|eexists; reflexivity]. }
  destruct Hinv as [inv Hinv].
  revert acc. induction Ho as [|t l Ht Ho IH]; intros acc; simpl; [eexists; reflexivity|].
  unfold prim_body at 1. unfold Standard.site_specie. rewrite Ht. cbn [Lattice bind].
  unfold PeriodicSite_cart, get_fractional_coords. rewrite Hinv. cbn [bind]. apply IH.
Qed.

End Loop.

Lemma prim_tail_spec {Sp : Type} (sp_eq_dec : forall x y : Sp, {x = y} + {x <> y})
  (is_ordered : Sp -> bool) (conv : structure Sp) (transf : mat3) :
  sites conv <> [] ->
  Forall (fun t => is_ordered (species_and_occu t) = true) (sites conv) ->
  (forall st,
     (let* new_sites :=
        for_each (sites conv) (prim_body Sp sp_eq_dec is_ordered (lattice conv) (mat_mul transf (lattice conv))) []
      in from_sites new_sites) = Ok st ->
     lattice st = mat_mul transf (lattice conv))
  /\ (det3 (mat_mul transf (lattice conv)) <> 0 ->
      exists st,
        (let* new_sites :=
           for_each (sites conv) (prim_body Sp sp_eq_dec is_ordered (lattice conv) (mat_mul transf (lattice conv))) []
         in from_sites new_sites) = Ok st).
Proof.
  intros Hne Ho. split.
  - intros st H.
    destruct (for_each _ _ []) as [r|e] eqn:E; simpl in H; [|discriminate].
    destruct (prim_loop_inv _ _ _ _ _ _ _ _ E (Forall_nil _)) as [Hf _].
    destruct (from_sites_ok _ _ H) as [p [l' [Hl [Hlat _]]]].
    subst r. inversion Hf; subst. rewrite Hlat. assumption.
  - intros Hd.
    destruct (prim_loop_ok Sp sp_eq_dec is_ordered (lattice conv) (mat_mul transf (lattice conv))
                (sites conv) [] Ho Hd) as [r E].
    rewrite E. simpl.
    destruct (prim_loop_inv _ _ _ _ _ _ _ _ E (Forall_nil _)) as [_ Hrne].
    destruct r as [|p r]; [exfalso; exact (Hrne (or_intror Hne) eq_refl)|].
    eexists. reflexivity.
Qed.

Lemma conventional_nonempty {Sp : Type}
  (spg_refine_cell : mat3 -> list vec -> list nat -> R -> R -> option (Z * mat3 * list vec * list nat))
  (supercell : structure Sp -> mat3 -> structure Sp) (lll_reduce : structure Sp -> structure Sp)
  (site_leb : site Sp -> site Sp -> bool) (is_ordered : Sp -> bool)
  (spg_symmetry : list mat3 -> list vec -> mat3 -> list vec -> list nat -> R -> R ->
                  option (Z * (nat -> mat3) * (nat -> vec)))
  (s : Finder.session Sp) (conv : structure Sp) :
  Standard.get_conventional_standard_structure Sp spg_refine_cell supercell lll_reduce
    site_leb is_ordered spg_symmetry s = Ok conv -> sites conv <> [].
Proof.
  intros H. unfold Standard.get_conventional_standard_structure in H.
  destruct (Standard.get_refined_structure _ _ _ _); simpl in H; [|discriminate].
  destruct (Symbol.get_lattice_type s); simpl in H; [|discriminate].
  match type of H with
  | bind ?x _ = _ => destruct x as [[r|]|e]; simpl in H; [|discriminate|discriminate]
  end.
  unfold Standard.get_sorted_structure in H.
  destruct (from_sites_ok _ _ H) as [p [l' [Hl [_ Hs]]]].
  rewrite Hs, Hl. discriminate.
Qed.

(** The centring transformation [get_primitive_standard_structure] applies
    for the symbol [sym] and the crystal system [system]. *)
Definition centring (sym : string) (system : option string) : mat3 :=
  if contains "I" sym then Standard.transf_I
  else if contains "F" sym then Standard.transf_F
  else if contains "C" sym then
    (if Symbol.opt_is system "monoclinic" then Standard.transf_C_mono else Standard.transf_C)
  else eye.

(** Claim C3. Let [conv] be the conventional standard structure of a session
    with symbol [sym] and space-group number [n]. If ["P"] occurs in [sym] or
    the lattice type is hexagonal, [get_primitive_standard_structure] returns
    [conv]. Otherwise, for a lattice type other than rhombohedral, every
    structure it returns has the lattice [T . M_conv], with [T] the I, F,
    C-monoclinic or other-C matrix chosen in that order of precedence (the
    identity when [sym] has none of these letters). It does return one when
    [T . M_conv] is invertible. *)
Theorem primitive_standard_lattice {Sp : Type}
  (sp_eq_dec : forall x y : Sp, {x = y} + {x <> y})
  (spg_refine_cell : mat3 -> list vec -> list nat -> R -> R -> option (Z * mat3 * list vec * list nat))
  (supercell : structure Sp -> mat3 -> structure Sp) (lll_reduce : structure Sp -> structure Sp)
  (site_leb : site Sp -> site Sp -> bool) (is_ordered : Sp -> bool)
  (spg_symmetry : list mat3 -> list vec -> mat3 -> list vec -> list nat -> R -> R ->
                  option (Z * (nat -> mat3) * (nat -> vec)))
  (s : Finder.session Sp) (conv : structure Sp)
  (sym : string) (n : Z)
  (Hconv : Standard.get_conventional_standard_structure Sp spg_refine_cell supercell lll_reduce
             site_leb is_ordered spg_symmetry s = Ok conv)
  (Hsym : Symbol.get_spacegroup_symbol s = Ok sym)
  (Hnum : Symbol.get_spacegroup_number s = Ok n) :
  (contains "P" sym || Symbol.opt_is (CrystalSystem.get_lattice_type n) "hexagonal" = true ->
   Standard.get_primitive_standard_structure Sp sp_eq_dec spg_refine_cell supercell lll_reduce
     site_leb is_ordered spg_symmetry s = Ok conv)
  /\ (contains "P" sym || Symbol.opt_is (CrystalSystem.get_lattice_type n) "hexagonal" = false ->
      Symbol.opt_is (CrystalSystem.get_lattice_type n) "rhombohedral" = false ->
      (forall st,
         Standard.get_primitive_standard_structure Sp sp_eq_dec spg_refine_cell supercell
           lll_reduce site_leb is_ordered spg_symmetry s = Ok st ->
         lattice st = mat_mul (centring sym (CrystalSystem.get_crystal_system n)) (lattice conv))
      /\ (det3 (mat_mul (centring sym (CrystalSystem.get_crystal_system n)) (lattice conv)) <> 0 ->
          exists st,
            Standard.get_primitive_standard_structure Sp sp_eq_dec spg_refine_cell supercell
              lll_reduce site_leb is_ordered spg_symmetry s = Ok st)).
Proof.
  pose proof (conventional_nonempty _ _ _ _ _ _ _ _ Hconv) as Hne.
  pose proof (ConventionalClaims.conventional_ordered _ _ _ _ _ _ _ _ Hconv) as Ho.
  unfold Standard.get_primitive_standard_structure.
  rewrite Hconv. cbn [bind]. unfold Symbol.get_lattice_type. rewrite Hnum. cbn [bind].
  rewrite Hsym. cbn [bind]. split.
  - intros HP. rewrite HP. reflexivity.
  - intros HP Hr. rewrite HP, Hr.
    unfold Symbol.get_crystal_system. rewrite Hnum. cbn [bind].
    unfold centring.
    destruct (contains "I" sym); [|destruct (contains "F" sym);
      [|destruct (contains "C" sym); [destruct (Symbol.opt_is (CrystalSystem.get_crystal_system n) "monoclinic")|]]];
      cbn [bind]; exact (prim_tail_spec sp_eq_dec is_ordered conv _ Hne Ho).
Qed.

(** A cubic session ([Fm-3m], number 225) on the unit cube with one atom at
    the origin. *)
Definition fcc_session : Finder.session nat :=
  Finder.mk_session 1 5 (mk_structure eye [mk_site 29%nat (0, 0, 0)])
    (transpose eye) [(0, 0, 0)] [29%nat] [1%nat] "Fm-3m (225)".

(** Witness for C3: on [fcc_session] the conventional structure exists and
    every primitive standard structure has the lattice [transf_F . M_conv]. *)
Lemma primitive_standard_lattice_witness :
  exists conv,
    Standard.get_conventional_standard_structure nat refine_identity (fun st _ => st)
      (fun st => st) (fun _ _ => true) (fun _ => true) Examples.identity_symmetry fcc_session = Ok conv
    /\ forall st,
      Standard.get_primitive_standard_structure nat Nat.eq_dec refine_identity (fun st _ => st)
        (fun st => st) (fun _ _ => true) (fun _ => true) Examples.identity_symmetry fcc_session = Ok st ->
      lattice st = mat_mul Standard.transf_F (lattice conv).
Proof.
  assert (E : exists conv, Standard.get_conventional_standard_structure nat refine_identity
                (fun st _ => st) (fun st => st) (fun _ _ => true) (fun _ => true) Examples.identity_symmetry fcc_session = Ok conv)
    by (eexists; reflexivity).
  destruct E as [conv E]. exists conv. split; [exact E|].
  exact (proj1 (proj2 (@primitive_standard_lattice nat Nat.eq_dec refine_identity
           (fun st _ => st) (fun st => st) (fun _ _ => true) (fun _ => true) Examples.identity_symmetry fcc_session conv "Fm-3m" 225%Z
           E eq_refl eq_refl) eq_refl eq_refl)).
Defined.

End PrimitiveStandardClaims.

(* ================================================================== *)
(** * Further properties of the module *)

(** ** The space-group string *)

Module SymbolFacts.
Import Geo Symbol.
Open Scope string_scope.

(** ["%d" % n]: the decimal digits of [n], most significant first. *)
Fixpoint decimal_aux (fuel n : nat) (acc : string) : string :=
  match fuel with
  | O => acc
  | S f =>
      let acc' := String (ascii_of_nat (48 + n mod 10)) acc in
      if (n <? 10)%nat then acc' else decimal_aux f (n / 10) acc'
  end.

Definition decimal (n : nat) : string := decimal_aux (S n) n "".

Definition nonspace (s : string) : bool :=
  forallb (fun c => negb (is_space c)) (list_ascii_of_string s).

Definition all_digits (s : string) : bool := forallb is_digit (list_ascii_of_string s).

Lemma sapp_assoc (a b c : string) : (a ++ b) ++ c = a ++ (b ++ c).
Proof. induction a as [|x a IH]; simpl; [reflexivity|]. rewrite IH. reflexivity. Qed.

Lemma sapp_nil (a : string) : a ++ "" = a.
Proof. induction a as [|x a IH]; simpl; [reflexivity|]. rewrite IH. reflexivity. Qed.

Lemma split_aux_blank (s : string) :
  forallb is_space (list_ascii_of_string s) = true -> split_aux s "" = [].
Proof.
  induction s as [|c s IH]; simpl; [reflexivity|].
  intros H. apply andb_true_iff in H as [Hc Hs]. rewrite Hc. simpl. apply IH, Hs.
Qed.

Lemma split_aux_word (w rest cur : string) :
  nonspace w = true -> split_aux (w ++ rest) cur = split_aux rest (cur ++ w).
Proof.
  revert cur. induction w as [|c w IH]; intros cur Hw; simpl.
  - rewrite sapp_nil. reflexivity.
  - unfold nonspace in Hw. simpl in Hw. apply andb_true_iff in Hw as [Hc Hw].
    apply negb_true_iff in Hc. rewrite Hc. rewrite IH by exact Hw.
    rewrite sapp_assoc. reflexivity.
Qed.

Lemma keep_digits_app (a b : string) : keep_digits (a ++ b) = keep_digits a ++ keep_digits b.
Proof.
  induction a as [|c a IH]; simpl; [reflexivity|].
  destruct (is_digit c); simpl; rewrite IH; reflexivity.
Qed.

Lemma keep_digits_all (a : string) : all_digits a = true -> keep_digits a = a.
Proof.
  unfold all_digits. induction a as [|c a IH]; simpl; [reflexivity|].
  intros H. apply andb_true_iff in H as [Hc H]. rewrite Hc, IH by exact H. reflexivity.
Qed.

Lemma keep_digits_empty (a : string) :
  keep_digits a = "" <-> forallb (fun c => negb (is_digit c)) (list_ascii_of_string a) = true.
Proof.
  induction a as [|c a IH]; simpl; [tauto|].
  destruct (is_digit c); simpl; [split; discriminate|exact IH].
Qed.

Lemma digits_value_app (a b : string) (acc : Z) :
  digits_value (a ++ b) acc = digits_value b (digits_value a acc).
Proof. revert acc. induction a as [|c a IH]; intros acc; simpl; [reflexivity|apply IH]. Qed.

Lemma digits_value_nonneg (a : string) (acc : Z) : (0 <= acc)%Z -> (0 <= digits_value a acc)%Z.
Proof. revert acc. induction a as [|c a IH]; intros acc H; cbn [digits_value]; [exact H|]. apply IH. lia. Qed.

Lemma decimal_aux_acc (f n : nat) (acc : string) :
  decimal_aux f n acc = decimal_aux f n "" ++ acc.
Proof.
  revert n acc. induction f as [|f IH]; intros n acc; simpl; [reflexivity|].
  destruct (n <? 10)%nat; [reflexivity|].
  rewrite (IH (n / 10)%nat (String _ acc)), (IH (n / 10)%nat (String _ "")).
  rewrite sapp_assoc. reflexivity.
Qed.

Lemma digit_char (n : nat) : nat_of_ascii (ascii_of_nat (48 + n mod 10)) = (48 + n mod 10)%nat.
Proof. apply nat_ascii_embedding. pose proof (Nat.mod_upper_bound n 10). lia. Qed.

Lemma list_ascii_app (a b : string) :
  list_ascii_of_string (a ++ b) = (list_ascii_of_string a ++ list_ascii_of_string b)%list.
Proof. induction a as [|x a IH]; simpl; [reflexivity|]. rewrite IH. reflexivity. Qed.

Lemma digit_is_digit (n : nat) : is_digit (ascii_of_nat (48 + n mod 10)) = true.
Proof.
  unfold is_digit. rewrite digit_char.
  pose proof (Nat.mod_upper_bound n 10). apply andb_true_iff.
  split; apply Nat.leb_le; lia.
Qed.

Lemma decimal_aux_digits (f n : nat) : all_digits (decimal_aux f n "") = true.
Proof.
  revert n. induction f as [|f IH]; intros n; cbn [decimal_aux]; [reflexivity|].
  destruct (n <? 10)%nat.
  - unfold all_digits. cbn [list_ascii_of_string forallb]. rewrite digit_is_digit. reflexivity.
  - rewrite decimal_aux_acc. unfold all_digits in *.
    rewrite list_ascii_app, forallb_app, IH. cbn [list_ascii_of_string forallb].
    rewrite digit_is_digit. reflexivity.
Qed.

Lemma decimal_aux_value (f n : nat) :
  (n < f)%nat -> digits_value (decimal_aux f n "") 0 = Z.of_nat n.
Proof.
  revert n. induction f as [|f IH]; intros n Hn; [lia|]. cbn [decimal_aux].
  pose proof (Nat.mod_upper_bound n 10) as Hm.
  pose proof (Nat.div_mod n 10) as Hdm.
  destruct (n <? 10)%nat eqn:E.
  - apply Nat.ltb_lt in E. cbn [digits_value]. rewrite digit_char.
    rewrite Nat.mod_small by lia. lia.
  - apply Nat.ltb_ge in E. rewrite decimal_aux_acc, digits_value_app.
    assert (Hlt : (n / 10 < f)%nat).
    { assert (n / 10 < n)%nat by (apply Nat.div_lt; lia). lia. }
    rewrite IH by exact Hlt. cbn [digits_value]. rewrite digit_char. lia.
Qed.

Lemma decimal_nonempty (n : nat) : decimal n <> "".
Proof.
  unfold decimal. cbn [decimal_aux]. destruct (n <? 10)%nat; [discriminate|].
  rewrite decimal_aux_acc. destruct (decimal_aux n (n / 10) ""); discriminate.
Qed.

Lemma digits_nonspace (d : string) : all_digits d = true -> nonspace d = true.
Proof.
  unfold nonspace, all_digits. intros Hd. apply forallb_forall. intros c Hc.
  pose proof (proj1 (forallb_forall _ _) Hd c Hc) as Hc'.
  unfold is_digit in Hc'. unfold is_space. apply andb_true_iff in Hc' as [H1 H2].
  apply Nat.leb_le in H1. apply Nat.leb_le in H2.
  destruct (existsb (Ascii.eqb c) _) eqn:E; [|reflexivity].
  apply existsb_exists in E. destruct E as [d' [Hin Heq]].
  apply Ascii.eqb_eq in Heq. subst d'.
  simpl in Hin. repeat (destruct Hin as [Hin|Hin]; [subst c; cbv in H1, H2; lia|]).
  contradiction.
Qed.

(** Parsing data of the form [sym ++ " (" ++ d ++ ")"] with a digit
    string [d]. *)
Lemma parse_data (sym d : string) :
  sym <> "" -> nonspace sym = true -> all_digits d = true -> d <> "" ->
  split (sym ++ " (" ++ d ++ ")") = [sym; "(" ++ d ++ ")"]
  /\ int_of_digits (keep_digits ("(" ++ d ++ ")")) = Ok (digits_value d 0).
Proof.
  intros Hne Hw Hd Hdne. split.
  - unfold split. rewrite split_aux_word by exact Hw.
    change (" (" ++ d ++ ")") with (String " " ("(" ++ d ++ ")")).
    cbn [split_aux]. replace (is_space " ") with true by reflexivity.
    replace (String.eqb ("" ++ sym) "") with false
      by (symmetry; apply String.eqb_neq; exact Hne).
    f_equal.
    replace ("(" ++ d ++ ")") with (("(" ++ d ++ ")") ++ "") at 1 by apply sapp_nil.
    rewrite split_aux_word.
    + cbn [split_aux]. replace (String.eqb ("" ++ ("(" ++ d ++ ")")) "") with false
        by reflexivity. reflexivity.
    + unfold nonspace. rewrite !list_ascii_app, !forallb_app.
      pose proof (digits_nonspace d Hd) as Hdn. unfold nonspace in Hdn. rewrite Hdn.
      reflexivity.
  - rewrite !keep_digits_app, (keep_digits_all d Hd).
    change (keep_digits "(") with "". change (keep_digits ")") with "".
    rewrite sapp_nil. change ("" ++ d) with d. unfold int_of_digits.
    replace (String.eqb d "") with false by (symmetry; apply String.eqb_neq; exact Hdne).
    reflexivity.
Qed.

Lemma index_last {A : Type} (l : list A) (x : A) : Py.index (l ++ [x]) (-1) = Ok x.
Proof.
  unfold Py.index. rewrite length_app. simpl.
  replace (- Z.of_nat (List.length l + 1) <=? -1)%Z with true by (symmetry; apply Z.leb_le; lia).
  simpl. replace (Z.to_nat (Z.of_nat (List.length l + 1) + -1)) with (List.length l) by lia.
  rewrite nth_error_app2, Nat.sub_diag by lia. reflexivity.
Qed.

Lemma index_nil {A : Type} (i : Z) : Py.index (@nil A) i = Err IndexError.
Proof.
  unfold Py.index. rewrite !nth_error_nil.
  destruct ((0 <=? i)%Z && _); [reflexivity|]. destruct (_ && (i <? 0)%Z); reflexivity.
Qed.

(** Blank space-group data (nothing but whitespace) leaves [split()]
    empty: [get_spacegroup_symbol], [get_spacegroup_number],
    [get_crystal_system] and [get_lattice_type] all raise [IndexError]. *)
Theorem blank_spacegroup_data {Sp : Type} (s : Finder.session Sp)
  (H : forallb is_space (list_ascii_of_string (Finder.sf_spacegroup_data s)) = true) :
  get_spacegroup_symbol s = Err IndexError /\ get_spacegroup_number s = Err IndexError
  /\ get_crystal_system s = Err IndexError /\ get_lattice_type s = Err IndexError.
Proof.
  unfold get_crystal_system, get_lattice_type, get_spacegroup_number, get_spacegroup_symbol,
    split.
  rewrite (split_aux_blank _ H), !index_nil. repeat split; reflexivity.
Qed.

Definition blank_session : Finder.session nat :=
  Finder.mk_session 1 5 (mk_structure eye [mk_site 26%nat (0, 0, 0)%R])
    eye [(0, 0, 0)%R] [26%nat] [1%nat] " ".

Lemma blank_spacegroup_data_witness :
  forallb is_space (list_ascii_of_string (Finder.sf_spacegroup_data blank_session)) = true
  /\ get_lattice_type blank_session = Err IndexError.
Proof.
  split; [reflexivity|].
  exact (proj2 (proj2 (proj2 (blank_spacegroup_data blank_session eq_refl)))).
Defined.

(** Round trip of the space-group data: for data [sym ++ " (" ++ "%d" % n
    ++ ")"] with a non-empty symbol without whitespace,
    [get_spacegroup_symbol] gives back [sym] and [get_spacegroup_number]
    gives back [n]. *)
Theorem spacegroup_data_round_trip {Sp : Type} (s : Finder.session Sp) (sym : string) (n : nat)
  (Hne : sym <> "") (Hw : nonspace sym = true)
  (Hdata : Finder.sf_spacegroup_data s = sym ++ " (" ++ decimal n ++ ")") :
  get_spacegroup_symbol s = Ok sym /\ get_spacegroup_number s = Ok (Z.of_nat n).
Proof.
  destruct (parse_data sym (decimal n) Hne Hw (decimal_aux_digits _ _) (decimal_nonempty n))
    as [Hsplit Hint].
  unfold get_spacegroup_symbol, get_spacegroup_number. rewrite Hdata, Hsplit.
  split; [reflexivity|].
  change [sym; "(" ++ decimal n ++ ")"] with (app [sym] ["(" ++ decimal n ++ ")"]).
  rewrite index_last. cbn [bind]. rewrite Hint.
  unfold decimal. rewrite decimal_aux_value by lia. reflexivity.
Qed.

Definition fm3m_session : Finder.session nat :=
  Finder.mk_session 1 5 (mk_structure eye [mk_site 29%nat (0, 0, 0)%R])
    eye [(0, 0, 0)%R] [29%nat] [1%nat] ("Fm-3m" ++ " (" ++ decimal 225 ++ ")").

Lemma spacegroup_data_round_trip_witness :
  get_spacegroup_symbol fm3m_session = Ok "Fm-3m"
  /\ get_spacegroup_number fm3m_session = Ok 225%Z.
Proof.
  exact (spacegroup_data_round_trip fm3m_session "Fm-3m" 225 ltac:(discriminate)
           eq_refl eq_refl).
Defined.

(** [get_spacegroup_number] raises [ValueError] exactly when the last
    whitespace-separated token of the data holds no decimal digit; a number
    it returns is never negative. *)
Theorem spacegroup_number_value_error {Sp : Type} (s : Finder.session Sp) :
  (get_spacegroup_number s = Err ValueError <->
     exists toks tok, split (Finder.sf_spacegroup_data s) = (toks ++ [tok])%list /\
       forallb (fun c => negb (is_digit c)) (list_ascii_of_string tok) = true)
  /\ (forall n, get_spacegroup_number s = Ok n -> (0 <= n)%Z).
Proof.
  unfold get_spacegroup_number.
  destruct (split (Finder.sf_spacegroup_data s)) as [|x l] eqn:E.
  - rewrite index_nil. simpl. split; [split|]; [discriminate| |discriminate].
    intros [toks [tok [H _]]]. destruct toks; discriminate.
  - destruct (exists_last (l := x :: l) ltac:(discriminate)) as [toks [tok Htl]].
    rewrite Htl, index_last. simpl. unfold int_of_digits. split.
    + split.
      * intros H. exists toks, tok. split; [reflexivity|].
        apply keep_digits_empty.
        destruct (String.eqb (keep_digits tok) "") eqn:Ee; [apply String.eqb_eq; exact Ee|].
        discriminate.
      * intros [toks' [tok' [Hs Hd]]]. apply app_inj_tail in Hs as [_ <-].
        apply keep_digits_empty in Hd. rewrite Hd. reflexivity.
    + intros n. destruct (String.eqb (keep_digits tok) ""); [discriminate|].
      intros H. injection H as <-. apply digits_value_nonneg. lia.
Qed.

Lemma spacegroup_number_value_error_witness :
  get_spacegroup_number blank_session = Err IndexError
  /\ ~ (exists toks tok, split (Finder.sf_spacegroup_data blank_session) = (toks ++ [tok])%list
        /\ forallb (fun c => negb (is_digit c)) (list_ascii_of_string tok) = true).
Proof.
  split; [reflexivity|].
  intros Hex. apply (proj1 (spacegroup_number_value_error blank_session)) in Hex.
  discriminate.
Defined.

End SymbolFacts.

(** ** Crystal system and lattice type *)

Module CrystalSystemExtras.
Import CrystalSystem CrystalSystemFacts.
Open Scope Z_scope.

Lemma no_range_outside (items : list (string * (Z * Z))) (n : Z) :
  Permutation cs items -> n < 1 \/ 230 < n -> get_crystal_system_in items n = None.
Proof.
  intros Hp Hn. unfold get_crystal_system_in. rewrite find_none; [reflexivity|].
  intros [k [i j]] Hin. apply (Permutation_in _ (Permutation_sym Hp)) in Hin.
  destruct (f n (k, (i, j))) eqn:Hf; [|reflexivity].
  apply CrystalSystemClaims.f_true_iff in Hf.
  simpl in Hin. repeat (destruct Hin as [Hin|Hin]; [inversion Hin; subst; lia|]).
  contradiction.
Qed.

(** The loop of [get_crystal_system] runs over a Python 2 dict, whose
    iteration order is unspecified. Its answer, and the one of
    [get_lattice_type], is the same for every enumeration order of the dict
    and every number. *)
Theorem crystal_system_any_order (items : list (string * (Z * Z))) (n : Z)
  (Hp : Permutation cs items) :
  get_crystal_system_in items n = get_crystal_system n
  /\ get_lattice_type_in items n = get_lattice_type n.
Proof.
  destruct (Z_le_dec 1 n) as [H1|H1]; [destruct (Z_le_dec n 230) as [H2|H2]|].
  - split; [apply get_crystal_system_in_perm|apply get_lattice_type_in_perm]; auto; lia.
  - assert (E : get_crystal_system_in items n = get_crystal_system n).
    { unfold get_crystal_system. rewrite !no_range_outside; auto; lia. }
    split; [exact E|]. unfold get_lattice_type, get_lattice_type_in.
    rewrite E. reflexivity.
  - assert (E : get_crystal_system_in items n = get_crystal_system n).
    { unfold get_crystal_system. rewrite !no_range_outside; auto; lia. }
    split; [exact E|]. unfold get_lattice_type, get_lattice_type_in.
    rewrite E. reflexivity.
Qed.

Lemma crystal_system_any_order_witness :
  get_crystal_system_in (rev cs) 300 = get_crystal_system 300
  /\ get_lattice_type_in (rev cs) 150 = get_lattice_type 150.
Proof.
  split.
  - exact (proj1 (crystal_system_any_order (rev cs) 300 (Permutation_rev cs))).
  - exact (proj2 (crystal_system_any_order (rev cs) 150 (Permutation_rev cs))).
Defined.

Lemma rhombohedral_trigonal (n : Z) :
  existsb (Z.eqb n) rhombohedral_numbers = true -> get_crystal_system n = Some "trigonal"%string.
Proof.
  intros H. apply existsb_exists in H. destruct H as [m [Hin Heq]].
  apply Z.eqb_eq in Heq. subst m.
  simpl in Hin. repeat (destruct Hin as [Hin|Hin]; [subst n; vm_compute; reflexivity|]).
  contradiction.
Qed.

(** [get_lattice_type] never answers ["trigonal"] (trigonal groups are
    ["rhombohedral"] or ["hexagonal"]), and it answers [None] exactly when
    [get_crystal_system] does. *)
Theorem lattice_type_never_trigonal {Sp : Type} (s : Finder.session Sp) :
  (forall k, Symbol.get_lattice_type s = Ok (Some k) -> k <> "trigonal"%string)
  /\ (Symbol.get_lattice_type s = Ok None <-> Symbol.get_crystal_system s = Ok None).
Proof.
  unfold Symbol.get_lattice_type, Symbol.get_crystal_system.
  destruct (Symbol.get_spacegroup_number s) as [n|e]; cbn [bind];
    [|split; [intros k H; discriminate|split; intros H; discriminate]].
  unfold get_lattice_type, get_lattice_type_in.
  destruct (existsb (Z.eqb n) rhombohedral_numbers) eqn:Er.
  - rewrite (rhombohedral_trigonal n Er). split.
    + intros k H. injection H as <-. discriminate.
    + split; intros H; discriminate.
  - fold (get_crystal_system n).
    destruct (get_crystal_system n) as [k|] eqn:Ek.
    + destruct (String.eqb k "trigonal") eqn:Et.
      * split; [intros k' H; injection H as <-; discriminate|split; intros H; discriminate].
      * split; [intros k' H; injection H as <-; apply String.eqb_neq; exact Et|].
        split; intros H; discriminate.
    + split; [intros k H; discriminate|tauto].
Qed.

Lemma lattice_type_never_trigonal_witness :
  Symbol.get_lattice_type SymbolFacts.fm3m_session = Ok (Some "cubic"%string)
  /\ "cubic"%string <> "trigonal"%string.
Proof.
  split; [vm_compute; reflexivity|].
  apply (proj1 (lattice_type_never_trigonal SymbolFacts.fm3m_session)).
  vm_compute. reflexivity.
Defined.

End CrystalSystemExtras.

(** ** Where [get_conventional_standard_structure] raises [AttributeError] *)

Module AttributeErrorFacts.
Import Geo Latt Standard CrystalSystemFacts.

Lemma bind_na {A B : Type} (m : result A) (f : A -> result B) :
  m <> Err AttributeError -> (forall a, f a <> Err AttributeError) ->
  bind m f <> Err AttributeError.
Proof. intros Hm Hf. destruct m; simpl; [apply Hf|]. intros E. injection E as ->. apply Hm. reflexivity. Qed.

Lemma map_result_na {A B : Type} (f : A -> result B) (l : list A) :
  (forall a, f a <> Err AttributeError) -> Py.map_result f l <> Err AttributeError.
Proof.
  intros Hf. induction l as [|a l IH]; simpl; [discriminate|].
  apply bind_na; [apply Hf|]. intros b. apply bind_na; [exact IH|]. intros bs. discriminate.
Qed.

Ltac na :=
  repeat first
    [ discriminate
    | progress cbv beta iota zeta
    | apply bind_na; [|intros ?]
    | apply map_result_na; intros ?
    | match goal with
      | H : forall x, ?f x = true |- context [?f ?y] => rewrite (H y)
      end
    | match goal with |- context [match ?x with _ => _ end] => destruct x end ].

Lemma index_na {A : Type} (l : list A) (i : Z) : Py.index l i <> Err AttributeError.
Proof. unfold Py.index. na. Qed.

Section Branches.
Variable Sp : Type.
Variable supercell : structure Sp -> mat3 -> structure Sp.
Variable lll_reduce : structure Sp -> structure Sp.
Variable site_leb : site Sp -> site Sp -> bool.
Variable is_ordered : Sp -> bool.
Hypothesis ordered_all : forall x, is_ordered x = true.
Variable spg_symmetry :
  list mat3 -> list vec -> mat3 -> list vec -> list nat -> R -> R ->
  option (Z * (nat -> mat3) * (nat -> vec)).

Lemma sorted_na (r : structure Sp) : get_sorted_structure Sp site_leb r <> Err AttributeError.
Proof. unfold get_sorted_structure, from_sites. na. Qed.

Lemma orthorhombic_na (sym : string) (r : structure Sp) :
  conv_orthorhombic Sp is_ordered sym r <> Err AttributeError.
Proof. unfold conv_orthorhombic, map_sites, site_specie, Lattice, from_sites. na. Qed.

Lemma tetragonal_na (r : structure Sp) : conv_tetragonal Sp is_ordered r <> Err AttributeError.
Proof. unfold conv_tetragonal, map_sites, site_specie, Lattice, from_sites. na. Qed.

Lemma hexagonal_na (r : structure Sp) :
  conv_hexagonal Sp supercell is_ordered r <> Err AttributeError.
Proof.
  unfold conv_hexagonal, site_specie, Lattice, from_sites, PeriodicSite_cart,
    get_fractional_coords, inv3.
  na.
Qed.

Lemma monoclinic_na (c : bool) (r : structure Sp) :
  conv_monoclinic Sp is_ordered c r <> Err AttributeError.
Proof. unfold conv_monoclinic, map_sites, site_specie, Lattice, from_sites. na. Qed.

Lemma triclinic_na (r : structure Sp) :
  conv_triclinic Sp lll_reduce is_ordered r <> Err AttributeError.
Proof. unfold conv_triclinic, triclinic_matrix, site_specie, Lattice, from_sites. na. Qed.

Lemma spacegroup_na (s : Finder.session Sp) :
  Dataset.get_spacegroup Sp spg_symmetry s <> Err AttributeError.
Proof.
  unfold Dataset.get_spacegroup, Symbol.get_spacegroup_number, Symbol.int_of_digits,
    Dataset.get_symmetry_operations, Dataset._get_symmetry, inv3.
  na; apply index_na.
Qed.

End Branches.

Lemma bind_assoc {A B C : Type} (m : result A) (k : A -> result B) (g : B -> result C) :
  bind (bind m k) g = bind m (fun x => bind (k x) g).
Proof. destruct m; reflexivity. Qed.

(** The lattice types [get_conventional_standard_structure] has a branch
    for. *)
Definition handled_types : list string :=
  ["orthorhombic"; "cubic"; "tetragonal"; "hexagonal"; "rhombohedral"; "monoclinic";
   "triclinic"]%string.

Definition handled (o : option string) : bool :=
  match o with Some k => existsb (String.eqb k) handled_types | None => false end.

Lemma handled_all :
  forallb (fun n => handled (CrystalSystem.get_lattice_type n)) valid_numbers = true.
Proof. vm_compute. reflexivity. Qed.

Lemma lattice_type_handled (n : Z) :
  (1 <= n <= 230)%Z ->
  exists k, CrystalSystem.get_lattice_type n = Some k /\ In k handled_types.
Proof.
  intros Hn.
  pose proof (proj1 (forallb_forall _ _) handled_all n (valid_numbers_spec n Hn)) as H.
  simpl in H. destruct (CrystalSystem.get_lattice_type n) as [k|]; [|discriminate].
  exists k. split; [reflexivity|].
  apply existsb_exists in H. destruct H as [k' [Hin Heq]].
  apply String.eqb_eq in Heq. subst k'. exact Hin.
Qed.

Lemma lattice_type_outside (n : Z) :
  (n < 1 \/ 230 < n)%Z -> CrystalSystem.get_lattice_type n = None.
Proof.
  intros Hn. unfold CrystalSystem.get_lattice_type, CrystalSystem.get_lattice_type_in.
  replace (existsb (Z.eqb n) CrystalSystem.rhombohedral_numbers) with false.
  - rewrite (CrystalSystemExtras.no_range_outside CrystalSystem.cs n (Permutation_refl _) Hn).
    reflexivity.
  - symmetry. apply not_true_iff_false. intros H. apply existsb_exists in H.
    destruct H as [m [Hin Heq]]. apply Z.eqb_eq in Heq. subst m.
    simpl in Hin. repeat (destruct Hin as [Hin|Hin]; [lia|]). contradiction.
Qed.

Ltac conv_branch :=
  repeat first
    [ rewrite bind_assoc
    | apply sorted_na
    | apply bind_na;
        [first [ apply index_na | apply spacegroup_na
               | apply orthorhombic_na; assumption | apply tetragonal_na; assumption
               | apply hexagonal_na; assumption | apply monoclinic_na; assumption
               | apply triclinic_na; assumption ]
        |intros ?]
    | progress cbn [bind orb andb] ].

(** When the space-group number lies outside [1, 230],
    [get_conventional_standard_structure] raises [AttributeError], from
    [None.get_sorted_structure()], and [get_primitive_standard_structure]
    raises it too. When every site of the refined cell is ordered, this is
    the only case of [AttributeError]: every number of [1, 230] has a
    lattice type with a branch, and no branch raises [AttributeError] on
    ordered sites (on a disordered one, [s.specie] raises it). *)
Theorem conventional_attribute_error {Sp : Type}
  (sp_eq_dec : forall x y : Sp, {x = y} + {x <> y})
  (spg_refine_cell : mat3 -> list vec -> list nat -> R -> R -> option (Z * mat3 * list vec * list nat))
  (supercell : structure Sp -> mat3 -> structure Sp) (lll_reduce : structure Sp -> structure Sp)
  (site_leb : site Sp -> site Sp -> bool) (is_ordered : Sp -> bool)
  (spg_symmetry : list mat3 -> list vec -> mat3 -> list vec -> list nat -> R -> R ->
                  option (Z * (nat -> mat3) * (nat -> vec)))
  (s : Finder.session Sp) (r : structure Sp) (n : Z)
  (Href : get_refined_structure Sp spg_refine_cell site_leb s = Ok r)
  (Hnum : Symbol.get_spacegroup_number s = Ok n) :
  ((n < 1 \/ 230 < n)%Z ->
   get_conventional_standard_structure Sp spg_refine_cell supercell lll_reduce site_leb
     is_ordered spg_symmetry s = Err AttributeError
   /\ get_primitive_standard_structure Sp sp_eq_dec spg_refine_cell supercell lll_reduce
        site_leb is_ordered spg_symmetry s = Err AttributeError)
  /\ ((forall x, is_ordered x = true) ->
      (get_conventional_standard_structure Sp spg_refine_cell supercell lll_reduce site_leb
         is_ordered spg_symmetry s = Err AttributeError <-> (n < 1 \/ 230 < n)%Z)).
Proof.
  assert (Hout : (n < 1 \/ 230 < n)%Z ->
                 get_conventional_standard_structure Sp spg_refine_cell supercell lll_reduce
                   site_leb is_ordered spg_symmetry s = Err AttributeError).
  { intros Hn. unfold get_conventional_standard_structure. rewrite Href. cbn [bind].
    unfold Symbol.get_lattice_type. rewrite Hnum. cbn [bind].
    rewrite lattice_type_outside by exact Hn. reflexivity. }
  split.
  - intros Hn. split; [exact (Hout Hn)|].
    unfold get_primitive_standard_structure. rewrite (Hout Hn). reflexivity.
  - intros Hord. split; [|exact Hout].
    unfold get_conventional_standard_structure. rewrite Href. cbn [bind].
    unfold Symbol.get_lattice_type. rewrite Hnum. cbn [bind].
    destruct (Z_le_dec 1 n) as [H1|H1]; [destruct (Z_le_dec n 230) as [H2|H2]|];
      [|intros; lia|intros; lia].
    destruct (lattice_type_handled n (conj H1 H2)) as [k [Hk Hin]]. rewrite Hk.
    intros H; exfalso; revert H. unfold Symbol.get_spacegroup_symbol.
    simpl in Hin.
    repeat (destruct Hin as [<-|Hin];
            [unfold Symbol.opt_is; simpl String.eqb; cbv iota beta; conv_branch|]).
    contradiction.
Qed.

Definition out_of_range_session : Finder.session nat :=
  Finder.mk_session 1 5 (mk_structure eye [mk_site 26%nat (0, 0, 0)%R])
    eye [(0, 0, 0)%R] [26%nat] [1%nat] "P1 (300)".

Lemma conventional_attribute_error_witness :
  Symbol.get_spacegroup_number out_of_range_session = Ok 300%Z
  /\ get_conventional_standard_structure nat Examples.refine_identity (fun st _ => st)
       (fun st => st) (fun _ _ => true) (fun _ => true) Examples.identity_symmetry
       out_of_range_session = Err AttributeError
  /\ get_primitive_standard_structure nat Nat.eq_dec Examples.refine_identity (fun st _ => st)
       (fun st => st) (fun _ _ => true) (fun _ => true) Examples.identity_symmetry
       out_of_range_session = Err AttributeError.
Proof.
  assert (E : exists r, get_refined_structure nat Examples.refine_identity (fun _ _ => true)
                          out_of_range_session = Ok r) by (eexists; reflexivity).
  destruct E as [r E].
  split; [vm_compute; reflexivity|].
  apply (proj1 (conventional_attribute_error Nat.eq_dec Examples.refine_identity
                  (fun st _ => st) (fun st => st) (fun _ _ => true) (fun _ => true)
                  Examples.identity_symmetry out_of_range_session r 300%Z E
                  ltac:(vm_compute; reflexivity))).
  lia.
Defined.

End AttributeErrorFacts.

Module DatasetFacts.
Import Geo Dataset.
Open Scope Z_scope.

(** Python's [l[w]] is the [(w mod len l)]-th element when
    [-len l <= w < len l], and raises [IndexError] otherwise. *)
Lemma index_spec {A : Type} (l : list A) (d : A) (w : Z) :
  Py.index l w =
  if (- Z.of_nat (List.length l) <=? w) && (w <? Z.of_nat (List.length l))
  then Ok (nth (Z.to_nat (w mod Z.of_nat (List.length l))) l d) else Err IndexError.
Proof.
  unfold Py.index. remember (Z.of_nat (List.length l)) as n eqn:En.
  destruct (Z.leb_spec 0 w) as [H0|H0]; destruct (Z.ltb_spec w n) as [H1|H1];
    destruct (Z.leb_spec (- n) w) as [H2|H2]; destruct (Z.ltb_spec w 0) as [H3|H3];
    cbn [andb]; try lia; try reflexivity.
  - rewrite Z.mod_small by lia. rewrite (@nth_error_nth' _ l _ d) by lia. reflexivity.
  - rewrite <- (Z.mod_unique w n (-1) (n + w)) by lia.
    rewrite (@nth_error_nth' _ l _ d) by lia. reflexivity.
Qed.

(** [letters[w]] for an index in range. *)
Definition letter (w : Z) : ascii :=
  nth (Z.to_nat (w mod 52)) (list_ascii_of_string letters) "a"%char.

Definition in_range (w : Z) : bool := (-52 <=? w) && (w <? 52).

Lemma letters_length : List.length (list_ascii_of_string letters) = 52%nat.
Proof. reflexivity. Qed.

Lemma wyckoff_letters (ws : list Z) :
  Py.map_result (fun x => Py.index (list_ascii_of_string letters) x) ws
  = if forallb in_range ws then Ok (map letter ws) else Err IndexError.
Proof.
  induction ws as [|w ws IH]; [reflexivity|].
  cbn [Py.map_result forallb map].
  rewrite (index_spec _ "a"%char w), letters_length, IH.
  replace (Z.of_nat 52) with 52 by reflexivity. change (Z.opp 52) with (-52).
  unfold in_range, letter.
  destruct ((-52 <=? w) && (w <? 52)); cbn [andb bind]; [|reflexivity].
  destruct (forallb (fun w0 => (-52 <=? w0) && (w0 <? 52)) ws); reflexivity.
Qed.

Lemma in_range_spec (w : Z) : in_range w = true <-> -52 <= w < 52.
Proof.
  unfold in_range. rewrite andb_true_iff, Z.leb_le, Z.ltb_lt. reflexivity.
Qed.

Lemma forallb_in_range_false (ws : list Z) :
  forallb in_range ws = false <-> exists w, In w ws /\ (w < -52 \/ 52 <= w).
Proof.
  induction ws as [|w ws IH]; cbn [forallb].
  - split; [discriminate|]. intros [w [[] _]].
  - destruct (in_range w) eqn:E; cbn [andb].
    + apply in_range_spec in E. rewrite IH. split.
      * intros [w' [Hin Hw]]. exists w'. split; [right|]; assumption.
      * intros [w' [[<-|Hin] Hw]]; [lia|]. exists w'. split; assumption.
    + split; [intros _|reflexivity]. exists w. split; [left; reflexivity|].
      destruct (Z_lt_le_dec w (-52)); [left; assumption|].
      destruct (Z_lt_le_dec w 52); [|right; assumption].
      exfalso. assert (H : in_range w = true) by (apply in_range_spec; lia). congruence.
Qed.

(** Leading whitespace is a prefix of whitespace; what is left starts with
    a non-blank character. *)
Lemma drop_space_spec (l : list ascii) :
  exists p, l = p ++ drop_space l /\ forallb Symbol.is_space p = true
            /\ (forall c rest, drop_space l = c :: rest -> Symbol.is_space c = false).
Proof.
  induction l as [|c l IH].
  - exists []. split; [reflexivity|]. split; [reflexivity|]. discriminate.
  - cbn [drop_space]. destruct (Symbol.is_space c) eqn:Ec.
    + destruct IH as [p [Hl [Hp Hh]]]. exists (c :: p).
      split; [cbn [app]; f_equal; exact Hl|]. split; [cbn [forallb]; rewrite Ec, Hp; reflexivity|].
      exact Hh.
    + exists []. split; [reflexivity|]. split; [reflexivity|].
      intros c' rest E. injection E as -> _. exact Ec.
Qed.

Lemma forallb_rev {A : Type} (f : A -> bool) (l : list A) :
  forallb f (rev l) = forallb f l.
Proof.
  induction l as [|a l IH]; [reflexivity|].
  cbn [rev forallb]. rewrite forallb_app, IH. cbn [forallb].
  rewrite andb_true_r, andb_comm. reflexivity.
Qed.

(** [s.strip()]: [s] is whitespace, then the stripped string, then
    whitespace; the stripped string neither starts nor ends with
    whitespace. *)
Lemma strip_spec (s : string) :
  exists p q,
    list_ascii_of_string s = p ++ list_ascii_of_string (strip s) ++ q
    /\ forallb Symbol.is_space p = true /\ forallb Symbol.is_space q = true
    /\ (forall c rest, list_ascii_of_string (strip s) = c :: rest -> Symbol.is_space c = false)
    /\ (forall init c, list_ascii_of_string (strip s) = init ++ [c] ->
                       Symbol.is_space c = false).
Proof.
  unfold strip. rewrite list_ascii_of_string_of_list_ascii.
  remember (list_ascii_of_string s) as l eqn:El. clear El.
  destruct (drop_space_spec l) as [p [Hl [Hp Hh]]].
  remember (drop_space l) as l1 eqn:E1. clear E1.
  destruct (drop_space_spec (rev l1)) as [q [Hr [Hq Hh2]]].
  remember (drop_space (rev l1)) as l2 eqn:E2. clear E2.
  assert (H1 : l1 = rev l2 ++ rev q).
  { rewrite <- (rev_involutive l1), Hr, rev_app_distr. reflexivity. }
  exists p, (rev q). split; [|split; [exact Hp|split; [rewrite forallb_rev; exact Hq|split]]].
  - rewrite Hl at 1. rewrite H1. reflexivity.
  - intros c rest E. apply (Hh c (rest ++ rev q)). rewrite H1, E. reflexivity.
  - intros init c E. apply (Hh2 c (rev init)).
    rewrite <- (rev_involutive l2), E, rev_app_distr. reflexivity.
Qed.

Lemma firstn_seq (k start len : nat) : firstn k (seq start len) = seq start (Nat.min k len).
Proof.
  revert start len. induction k as [|k IH]; intros start len; [reflexivity|].
  destruct len as [|len]; [reflexivity|]. cbn [firstn seq Nat.min]. f_equal. apply IH.
Qed.

Section Oracle.

Variable Sp : Type.
Variable spg_dataset : mat3 -> list vec -> list nat -> R -> R -> option raw_dataset.
Variable spg_symmetry :
  list mat3 -> list vec -> mat3 -> list vec -> list nat -> R -> R ->
  option (Z * (nat -> mat3) * (nat -> vec)).

Definition raw_of (s : Finder.session Sp) : option raw_dataset :=
  spg_dataset (Finder.sf_transposed_latt s) (Finder.sf_positions s)
    (Finder.sf_numbers s) (Finder.sf_symprec s) (Finder.sf_angle_tol s).

Lemma dataset_cases (s : Finder.session Sp) :
  get_symmetry_dataset Sp spg_dataset s =
  match raw_of s with
  | None => Err OracleError
  | Some raw =>
      if forallb in_range (raw_wyckoffs raw)
      then Ok (mk_dataset (raw_number raw) (strip (raw_international raw))
                 (strip (raw_hall raw)) (raw_transformation_matrix raw)
                 (raw_origin_shift raw) (raw_rotations raw) (raw_rotations_float64 raw)
                 (raw_translations raw)
                 (map letter (raw_wyckoffs raw)) (raw_equivalent_atoms raw))
      else Err IndexError
  end.
Proof.
  unfold get_symmetry_dataset, raw_of.
  destruct (spg_dataset _ _ _ _ _) as [raw|]; [|reflexivity].
  rewrite wyckoff_letters. destruct (forallb in_range (raw_wyckoffs raw)); reflexivity.
Qed.

End Oracle.

(** [get_symmetry_dataset] raises [IndexError] exactly when a Wyckoff index
    of spglib lies outside [-52, 51]; otherwise the [i]-th Wyckoff letter
    is [letters[w mod 52]] for the [i]-th index [w], negative indices
    counting from the end; the only other error is the extension's. *)
Theorem dataset_wyckoff_letters {Sp : Type}
  (spg_dataset : mat3 -> list vec -> list nat -> R -> R -> option raw_dataset)
  (s : Finder.session Sp) (raw : raw_dataset)
  (Hraw : raw_of Sp spg_dataset s = Some raw) :
  (get_symmetry_dataset Sp spg_dataset s = Err IndexError
     <-> exists w, In w (raw_wyckoffs raw) /\ (w < -52 \/ 52 <= w))
  /\ (forall ds, get_symmetry_dataset Sp spg_dataset s = Ok ds ->
        ds_wyckoffs ds = map letter (raw_wyckoffs raw))
  /\ (forall e, get_symmetry_dataset Sp spg_dataset s = Err e -> e = IndexError).
Proof.
  rewrite dataset_cases, Hraw.
  destruct (forallb in_range (raw_wyckoffs raw)) eqn:Ew.
  - split; [|split].
    + split; [discriminate|]. intros H.
      apply forallb_in_range_false in H. congruence.
    + intros ds E. injection E as <-. reflexivity.
    + discriminate.
  - split; [|split].
    + split; [intros _; apply forallb_in_range_false; exact Ew|reflexivity].
    + discriminate.
    + intros e E. injection E as <-. reflexivity.
Qed.

Definition wyckoff_raw : raw_dataset :=
  mk_raw 225 " Fm-3m " " -F 4 2 3 " eye (0, 0, 0)%R [eye] false [(0, 0, 0)%R] [0; -1; 60]
    [0].

Definition one_site_session : Finder.session nat :=
  Finder.mk_session 1 5 (mk_structure eye [mk_site 26%nat (0, 0, 0)%R])
    eye [(0, 0, 0)%R] [26%nat] [1%nat] "Fm-3m (225)".

Lemma dataset_wyckoff_letters_witness :
  get_symmetry_dataset nat (fun _ _ _ _ _ => Some wyckoff_raw) one_site_session
  = Err IndexError.
Proof.
  apply (proj2 (proj1 (dataset_wyckoff_letters (fun _ _ _ _ _ => Some wyckoff_raw)
                         one_site_session wyckoff_raw eq_refl))).
  exists 60. split; [right; right; left; reflexivity|right; lia].
Defined.

(** [get_hall] returns spglib's Hall symbol with the whitespace around it
    removed: the raw symbol is whitespace, the result, whitespace, and the
    result neither starts nor ends with whitespace. *)
Theorem hall_stripped {Sp : Type}
  (spg_dataset : mat3 -> list vec -> list nat -> R -> R -> option raw_dataset)
  (s : Finder.session Sp) (h : string)
  (Hh : get_hall Sp spg_dataset s = Ok h) :
  exists raw p q,
    raw_of Sp spg_dataset s = Some raw
    /\ list_ascii_of_string (raw_hall raw) = p ++ list_ascii_of_string h ++ q
    /\ forallb Symbol.is_space p = true /\ forallb Symbol.is_space q = true
    /\ (forall c rest, list_ascii_of_string h = c :: rest -> Symbol.is_space c = false)
    /\ (forall init c, list_ascii_of_string h = init ++ [c] -> Symbol.is_space c = false).
Proof.
  unfold get_hall in Hh. rewrite dataset_cases in Hh.
  destruct (raw_of Sp spg_dataset s) as [raw|]; [|discriminate].
  destruct (forallb in_range (raw_wyckoffs raw)); [|discriminate].
  cbn [bind] in Hh. injection Hh as <-. cbn [ds_hall].
  destruct (strip_spec (raw_hall raw)) as [p [q H]].
  exists raw, p, q. split; [reflexivity|exact H].
Qed.

Definition hall_raw : raw_dataset :=
  mk_raw 225 " Fm-3m " " -F 4 2 3 " eye (0, 0, 0)%R [eye] false [(0, 0, 0)%R] [0] [0].

Lemma hall_stripped_witness :
  get_hall nat (fun _ _ _ _ _ => Some hall_raw) one_site_session = Ok "-F 4 2 3"%string
  /\ exists raw p q,
    raw_of nat (fun _ _ _ _ _ => Some hall_raw) one_site_session = Some raw
    /\ list_ascii_of_string (raw_hall raw) = p ++ list_ascii_of_string "-F 4 2 3" ++ q
    /\ forallb Symbol.is_space p = true /\ forallb Symbol.is_space q = true
    /\ (forall c rest, list_ascii_of_string "-F 4 2 3" = c :: rest ->
                       Symbol.is_space c = false)
    /\ (forall init c, list_ascii_of_string "-F 4 2 3" = init ++ [c] ->
                       Symbol.is_space c = false).
Proof.
  split; [vm_compute; reflexivity|].
  apply (hall_stripped (fun _ _ _ _ _ => Some hall_raw) one_site_session).
  vm_compute. reflexivity.
Defined.

(** Integer-valued vectors and matrices. *)
Definition vec_int (v : vec) : Prop := exists a b c : Z, v = (IZR a, IZR b, IZR c).
Definition mat_int (m : mat3) : Prop := vec_int (row0 m) /\ vec_int (row1 m) /\ vec_int (row2 m).

Lemma trunc_IZR (z : Z) : trunc (IZR z) = IZR z.
Proof.
  assert (Hi : forall w, Int_part (IZR w) = w).
  { intros w. symmetry. apply Int_part_spec. lra. }
  unfold trunc. destruct (Rle_dec 0 (IZR z)) as [H|H].
  - rewrite Hi. reflexivity.
  - replace (- IZR z)%R with (IZR (- z)) by apply opp_IZR. rewrite Hi, opp_IZR. ring.
Qed.

Lemma trunc_int (x : R) : exists z, trunc x = IZR z.
Proof.
  unfold trunc. destruct (Rle_dec 0 x).
  - eexists. reflexivity.
  - exists (- Int_part (- x))%Z. rewrite opp_IZR. reflexivity.
Qed.

Lemma int_mat_int (m : mat3) : mat_int (int_mat m).
Proof.
  destruct m as [[[a0 a1] a2] [[b0 b1] b2] [[c0 c1] c2]].
  unfold mat_int, vec_int, int_mat, vec_map. cbn.
  destruct (trunc_int a0) as [za0 ->], (trunc_int a1) as [za1 ->], (trunc_int a2) as [za2 ->].
  destruct (trunc_int b0) as [zb0 ->], (trunc_int b1) as [zb1 ->], (trunc_int b2) as [zb2 ->].
  destruct (trunc_int c0) as [zc0 ->], (trunc_int c1) as [zc1 ->], (trunc_int c2) as [zc2 ->].
  repeat split; do 3 eexists; reflexivity.
Qed.

Lemma int_mat_id (m : mat3) : mat_int m -> int_mat m = m.
Proof.
  destruct m as [r0 r1 r2].
  intros [[a0 [a1 [a2 E0]]] [[b0 [b1 [b2 E1]]] [c0 [c1 [c2 E2]]]]]. cbn in E0, E1, E2.
  subst. unfold int_mat, vec_map. cbn. rewrite !trunc_IZR. reflexivity.
Qed.

(** The method [get_point_group] returns spglib's point-group symbol with
    the whitespace around it removed, for the rotations of the dataset;
    the symbol neither starts nor ends with whitespace. It raises only the
    extension's errors and the [IndexError] of the Wyckoff letters. The
    module function converts [float64] rotations by truncation toward zero,
    which gives integer-valued matrices and leaves integer-valued ones
    unchanged. *)
Theorem point_group_symbol {Sp : Type}
  (spg_dataset : mat3 -> list vec -> list nat -> R -> R -> option raw_dataset)
  (spg_pointgroup : list mat3 -> option (string * Z * mat3))
  (s : Finder.session Sp) :
  (forall e, get_point_group Sp spg_dataset spg_pointgroup s = Err e ->
             e = OracleError \/ e = IndexError)
  /\ (forall p, get_point_group Sp spg_dataset spg_pointgroup s = Ok p ->
        exists raw sym num tm,
          raw_of Sp spg_dataset s = Some raw
          /\ spg_pointgroup (point_group_rotations (raw_rotations_float64 raw) (raw_rotations raw))
             = Some (sym, num, tm)
          /\ p = strip sym
          /\ (forall c rest, list_ascii_of_string p = c :: rest -> Symbol.is_space c = false)
          /\ (forall init c, list_ascii_of_string p = init ++ [c] -> Symbol.is_space c = false))
  /\ (forall raw sym num tm,
        raw_of Sp spg_dataset s = Some raw ->
        forallb in_range (raw_wyckoffs raw) = true ->
        spg_pointgroup (point_group_rotations (raw_rotations_float64 raw) (raw_rotations raw))
          = Some (sym, num, tm) ->
        get_point_group Sp spg_dataset spg_pointgroup s = Ok (strip sym))
  /\ (forall rots, Forall mat_int (point_group_rotations true rots))
  /\ (forall float64 rots, Forall mat_int rots -> point_group_rotations float64 rots = rots).
Proof.
  split; [|split; [|split; [|split]]].
  - unfold get_point_group. rewrite dataset_cases.
    destruct (raw_of Sp spg_dataset s) as [raw|]; [|intros e E; injection E as <-; left; reflexivity].
    destruct (forallb in_range (raw_wyckoffs raw)); cbn [bind];
      [|intros e E; injection E as <-; right; reflexivity].
    unfold get_point_group_fn. cbn [ds_rotations_float64 ds_rotations].
    destruct (spg_pointgroup _) as [[[sym num] tm]|]; cbn [bind]; [discriminate|].
    intros e E. injection E as <-. left. reflexivity.
  - intros p. unfold get_point_group. rewrite dataset_cases.
    destruct (raw_of Sp spg_dataset s) as [raw|]; [|discriminate].
    destruct (forallb in_range (raw_wyckoffs raw)); cbn [bind]; [|discriminate].
    unfold get_point_group_fn. cbn [ds_rotations_float64 ds_rotations].
    destruct (spg_pointgroup _) as [[[sym num] tm]|] eqn:Epg; cbn [bind]; [|discriminate].
    intros E. injection E as <-.
    destruct (strip_spec sym) as [p [q [_ [_ [_ [Hh Ht]]]]]].
    exists raw, sym, num, tm. repeat split; auto.
  - intros raw sym num tm Hraw Hw Hpg. unfold get_point_group. rewrite dataset_cases, Hraw, Hw.
    cbn [bind]. unfold get_point_group_fn. cbn [ds_rotations_float64 ds_rotations].
    rewrite Hpg. reflexivity.
  - intros rots. unfold point_group_rotations. apply Forall_map.
    apply Forall_forall. intros m _. apply int_mat_int.
  - intros [|] rots Hr; unfold point_group_rotations; [|reflexivity].
    rewrite <- (map_id rots) at 2. apply map_ext_in. intros m Hm.
    apply int_mat_id. exact (proj1 (Forall_forall _ _) Hr m Hm).
Qed.

Definition point_group_raw : raw_dataset :=
  mk_raw 225 " Fm-3m " " -F 4 2 3 " eye (0, 0, 0)%R [eye] true [(0, 0, 0)%R] [0] [0].

(** An oracle [spg.pointgroup] answering [m-3m] with surrounding spaces. *)
Definition pointgroup_m3m (_ : list mat3) : option (string * Z * mat3) :=
  Some (" m-3m "%string, 32, eye).

Lemma point_group_symbol_witness :
  get_point_group nat (fun _ _ _ _ _ => Some point_group_raw) pointgroup_m3m one_site_session
    = Ok "m-3m"%string
  /\ point_group_rotations true [eye] = [eye].
Proof.
  split.
  - apply (proj1 (proj2 (proj2 (point_group_symbol (fun _ _ _ _ _ => Some point_group_raw)
             pointgroup_m3m one_site_session)))
             point_group_raw " m-3m "%string 32 eye); reflexivity.
  - apply (proj2 (proj2 (proj2 (proj2 (point_group_symbol (fun _ _ _ _ _ => Some point_group_raw)
             pointgroup_m3m one_site_session))))).
    constructor; [|constructor].
    split; [|split]; [exists 1%Z, 0%Z, 0%Z|exists 0%Z, 1%Z, 0%Z|exists 0%Z, 0%Z, 1%Z];
      reflexivity.
Defined.

Definition multi_of {Sp : Type} (s : Finder.session Sp) : nat :=
  (48 * List.length (sites (Finder.sf_structure s)))%nat.

Lemma get_symmetry_lengths {Sp : Type}
  (spg_symmetry : list mat3 -> list vec -> mat3 -> list vec -> list nat -> R -> R ->
                  option (Z * (nat -> mat3) * (nat -> vec)))
  (s : Finder.session Sp) rots trs :
  _get_symmetry Sp spg_symmetry s = Ok (rots, trs) -> List.length rots = List.length trs.
Proof.
  unfold _get_symmetry. cbv zeta.
  destruct (spg_symmetry _ _ _ _ _ _ _) as [[[num rot] tr]|]; [|discriminate].
  intros E. injection E as <- <-. unfold Py.slice_to. rewrite !length_map, !length_seq.
  destruct (0 <=? num); rewrite !length_firstn, !length_map; reflexivity.
Qed.

(** [_get_symmetry] returns the first [k] slots spglib wrote into the
    buffers of [48 * num_sites] operations: [k] is [num_sym] cut to the
    buffer length, or the buffer length less [-num_sym] when spglib returns
    a negative number (Python slicing from the end). *)
Theorem get_symmetry_prefix {Sp : Type}
  (spg_symmetry : list mat3 -> list vec -> mat3 -> list vec -> list nat -> R -> R ->
                  option (Z * (nat -> mat3) * (nat -> vec)))
  (s : Finder.session Sp) (num : Z) (rot : nat -> mat3) (tr : nat -> vec)
  (Hsym : spg_symmetry (repeat zeros (multi_of s)) (repeat (0, 0, 0)%R (multi_of s))
            (Finder.sf_transposed_latt s) (Finder.sf_positions s) (Finder.sf_numbers s)
            (Finder.sf_symprec s) (Finder.sf_angle_tol s) = Some (num, rot, tr)) :
  exists k, (k <= multi_of s)%nat
    /\ _get_symmetry Sp spg_symmetry s = Ok (map rot (seq 0 k), map tr (seq 0 k))
    /\ (0 <= num -> k = Nat.min (Z.to_nat num) (multi_of s))
    /\ (num < 0 -> k = Z.to_nat (Z.of_nat (multi_of s) + num)).
Proof.
  unfold multi_of in Hsym |- *. unfold _get_symmetry. cbv zeta. rewrite Hsym.
  remember (48 * List.length (sites (Finder.sf_structure s)))%nat as M eqn:EM. clear EM.
  unfold Py.slice_to. rewrite !length_map, !length_seq, !firstn_map, !firstn_seq.
  destruct (Z.leb_spec 0 num) as [H|H].
  - exists (Nat.min (Z.to_nat num) M).
    split; [lia|split; [reflexivity|split; [reflexivity|lia]]].
  - exists (Z.to_nat (Z.of_nat M + num)). rewrite Nat.min_l by lia.
    split; [lia|split; [reflexivity|split; [lia|reflexivity]]].
Qed.

Definition two_ops (_ : list mat3) (_ : list vec) (_ : mat3) (_ : list vec) (_ : list nat)
  (_ _ : R) : option (Z * (nat -> mat3) * (nat -> vec)) :=
  Some (2, fun _ => eye, fun _ => (0, 0, 0)%R).

Lemma get_symmetry_prefix_witness :
  exists k, (k <= multi_of one_site_session)%nat
    /\ _get_symmetry nat two_ops one_site_session
       = Ok (map (fun _ => eye) (seq 0 k), map (fun _ => (0, 0, 0)%R) (seq 0 k))
    /\ (0 <= 2 -> k = Nat.min (Z.to_nat 2) (multi_of one_site_session))
    /\ (2 < 0 -> k = Z.to_nat (Z.of_nat (multi_of one_site_session) + 2)).
Proof.
  exact (get_symmetry_prefix two_ops one_site_session 2 (fun _ => eye)
           (fun _ => (0, 0, 0)%R) eq_refl).
Defined.

(** Matrix facts for [np.dot] and [np.linalg.inv]. *)
Lemma vec_eq (x1 y1 z1 x2 y2 z2 : R) :
  x1 = x2 -> y1 = y2 -> z1 = z2 -> (x1, y1, z1) = (x2, y2, z2).
Proof. intros -> -> ->. reflexivity. Qed.

Lemma mat_eq (r0 r1 r2 s0 s1 s2 : vec) :
  r0 = s0 -> r1 = s1 -> r2 = s2 -> mk_mat3 r0 r1 r2 = mk_mat3 s0 s1 s2.
Proof. intros -> -> ->. reflexivity. Qed.

Ltac mat_ext :=
  unfold mat_mul, vec_mat, mat_vec, transpose, dot, vx, vy, vz, eye;
  cbn [row0 row1 row2];
  apply mat_eq; apply vec_eq.

Lemma mat_mul_assoc (a b c : mat3) : mat_mul (mat_mul a b) c = mat_mul a (mat_mul b c).
Proof.
  destruct a as [[[a1 a2] a3] [[a4 a5] a6] [[a7 a8] a9]].
  destruct b as [[[b1 b2] b3] [[b4 b5] b6] [[b7 b8] b9]].
  destruct c as [[[c1 c2] c3] [[c4 c5] c6] [[c7 c8] c9]].
  mat_ext; ring.
Qed.

Lemma mat_mul_eye_r (a : mat3) : mat_mul a eye = a.
Proof.
  destruct a as [[[a1 a2] a3] [[a4 a5] a6] [[a7 a8] a9]].
  mat_ext; ring.
Qed.

Lemma inv3_cases (m : mat3) :
  (Latt.inv3 m = Err LinAlgError /\ Latt.det3 m = 0%R)
  \/ exists i, Latt.inv3 m = Ok i /\ Latt.det3 m <> 0%R.
Proof.
  destruct m as [[[a b] c] [[d e] f] [[g h] i]].
  unfold Latt.inv3. cbn [row0 row1 row2].
  destruct (Req_EM_T _ 0) as [E|E].
  - left. split; [reflexivity|exact E].
  - right. eexists. split; [reflexivity|exact E].
Qed.

Lemma inv3_left (m i : mat3) : Latt.inv3 m = Ok i -> mat_mul i m = eye.
Proof.
  destruct m as [[[a b] c] [[d e] f] [[g h] k]].
  unfold Latt.inv3. cbn [row0 row1 row2].
  destruct (Req_EM_T _ 0) as [E|E]; [discriminate|].
  intros H. injection H as <-. unfold Latt.det3 in E |- *. cbn [row0 row1 row2] in E |- *.
  mat_ext; field; exact E.
Qed.

(** [get_symmetry_operations] raises [LinAlgError] exactly when the
    lattice matrix is singular, in fractional and in cartesian mode alike;
    otherwise it returns one operation per operation of [_get_symmetry]. *)
Theorem symmetry_operations_linalg {Sp : Type}
  (spg_symmetry : list mat3 -> list vec -> mat3 -> list vec -> list nat -> R -> R ->
                  option (Z * (nat -> mat3) * (nat -> vec)))
  (s : Finder.session Sp) (cartesian : bool) (rots : list mat3) (trs : list vec)
  (Hg : _get_symmetry Sp spg_symmetry s = Ok (rots, trs)) :
  (get_symmetry_operations Sp spg_symmetry s cartesian = Err LinAlgError
     <-> Latt.det3 (transpose (lattice (Finder.sf_structure s))) = 0%R)
  /\ (Latt.det3 (transpose (lattice (Finder.sf_structure s))) <> 0%R ->
      exists ops, get_symmetry_operations Sp spg_symmetry s cartesian = Ok ops
                  /\ List.length ops = List.length rots).
Proof.
  pose proof (get_symmetry_lengths spg_symmetry s rots trs Hg) as Hlen.
  unfold get_symmetry_operations. rewrite Hg. cbn [bind].
  destruct (inv3_cases (transpose (lattice (Finder.sf_structure s))))
    as [[Ei Ed]|[i [Ei Ed]]]; rewrite Ei; cbn [bind].
  - split; [split; [intros _; exact Ed|reflexivity]|]. intros H. contradiction.
  - split; [split; [discriminate|intros H; contradiction]|]. intros _.
    eexists. split; [reflexivity|]. rewrite length_map, length_combine, Hlen. lia.
Qed.

Definition singular_session : Finder.session nat :=
  Finder.mk_session 1 5 (mk_structure zeros [mk_site 26%nat (0, 0, 0)%R])
    zeros [(0, 0, 0)%R] [26%nat] [1%nat] "P1 (1)".

Lemma symmetry_operations_linalg_witness :
  get_symmetry_operations nat two_ops singular_session true = Err LinAlgError.
Proof.
  apply (proj2 (proj1 (symmetry_operations_linalg two_ops singular_session true
                         [eye; eye] [(0, 0, 0)%R; (0, 0, 0)%R] eq_refl))).
  change (lattice (Finder.sf_structure singular_session)) with zeros.
  unfold Latt.det3, transpose, zeros. cbn [row0 row1 row2 vx vy vz]. ring.
Defined.

(** In cartesian mode each operation is the fractional one conjugated by
    the lattice: with [M] the transposed lattice matrix, the rotation [W]
    satisfies [W . M = M . rot], and the translation is [trans . lattice]. *)
Theorem cartesian_operations_conjugate {Sp : Type}
  (spg_symmetry : list mat3 -> list vec -> mat3 -> list vec -> list nat -> R -> R ->
                  option (Z * (nat -> mat3) * (nat -> vec)))
  (s : Finder.session Sp) (rots : list mat3) (trs : list vec) (ops : list symmop)
  (Hg : _get_symmetry Sp spg_symmetry s = Ok (rots, trs))
  (Hops : get_symmetry_operations Sp spg_symmetry s true = Ok ops) :
  Forall2 (fun op rt =>
             mat_mul (op_rotation op) (transpose (lattice (Finder.sf_structure s)))
             = mat_mul (transpose (lattice (Finder.sf_structure s))) (fst rt)
             /\ op_translation op = vec_mat (snd rt) (lattice (Finder.sf_structure s)))
    ops (combine rots trs).
Proof.
  unfold get_symmetry_operations in Hops. rewrite Hg in Hops. cbn [bind] in Hops.
  destruct (Latt.inv3 (transpose (lattice (Finder.sf_structure s)))) as [i|e] eqn:Ei;
    cbn [bind] in Hops; [|discriminate].
  injection Hops as <-.
  induction (combine rots trs) as [|[r t] l IH]; constructor; [|exact IH].
  cbn [op_rotation op_translation fst snd]. split; [|reflexivity].
  rewrite !mat_mul_assoc, (inv3_left _ _ Ei), mat_mul_eye_r. reflexivity.
Qed.

Lemma cartesian_operations_conjugate_witness :
  exists ops, get_symmetry_operations nat two_ops one_site_session true = Ok ops
    /\ Forall2 (fun op rt =>
                  mat_mul (op_rotation op) (transpose eye) = mat_mul (transpose eye) (fst rt)
                  /\ op_translation op = vec_mat (snd rt) eye)
         ops (combine [eye; eye] [(0, 0, 0)%R; (0, 0, 0)%R]).
Proof.
  assert (Hd : Latt.det3 (transpose eye) <> 0%R).
  { unfold Latt.det3, transpose, eye. cbn [row0 row1 row2 vx vy vz]. lra. }
  destruct (inv3_cases (transpose eye)) as [[_ E]|[i [Ei _]]]; [contradiction|].
  assert (Hops : exists ops, get_symmetry_operations nat two_ops one_site_session true
                             = Ok ops).
  { unfold get_symmetry_operations. cbn [bind _get_symmetry]. cbv zeta.
    change (lattice (Finder.sf_structure one_site_session)) with eye.
    rewrite Ei. eexists. reflexivity. }
  destruct Hops as [ops Hops]. exists ops. split; [exact Hops|].
  exact (cartesian_operations_conjugate two_ops one_site_session [eye; eye]
           [(0, 0, 0)%R; (0, 0, 0)%R] ops eq_refl Hops).
Defined.

End DatasetFacts.

Module ConventionalShapes.
Import Geo Latt GeometryFacts StandardFacts.
Open Scope R_scope.

Lemma Rleb_total (x y : R) : Rleb x y = true \/ Rleb y x = true.
Proof.
  unfold Rleb. destruct (Rle_dec x y); [left; reflexivity|].
  destruct (Rle_dec y x); [right; reflexivity|lra].
Qed.

Lemma Rleb_le (x y : R) : Rleb x y = true -> x <= y.
Proof. unfold Rleb. destruct (Rle_dec x y); [intros _; exact r|discriminate]. Qed.

Lemma sorted_R3 (x y z : R) :
  exists l0 l1 l2, sorted_R [x; y; z] = [l0; l1; l2] /\ l0 <= l1 <= l2
                   /\ Permutation [l0; l1; l2] [x; y; z].
Proof.
  pose proof (sort_by_perm Rleb [x; y; z]) as Hp.
  pose proof (sort_by_sorted R Rleb Rleb_total [x; y; z]) as Hs.
  unfold sorted_R. destruct (sort_by Rleb [x; y; z]) as [|l0 [|l1 [|l2 [|l3 l]]]];
    pose proof (Permutation_length Hp) as Hl; cbn in Hl; try discriminate.
  apply Sorted_LocallySorted_iff in Hs.
  inversion Hs as [| |? ? ? Hs1 H01]; subst.
  inversion Hs1 as [| |? ? ? _ H12]; subst.
  exists l0, l1, l2. split; [reflexivity|].
  split; [split; apply Rleb_le; assumption|exact Hp].
Qed.

Lemma sorted_R2 (x y : R) :
  exists l0 l1, sorted_R [x; y] = [l0; l1] /\ l0 <= l1 /\ Permutation [l0; l1] [x; y].
Proof.
  pose proof (sort_by_perm Rleb [x; y]) as Hp.
  pose proof (sort_by_sorted R Rleb Rleb_total [x; y]) as Hs.
  unfold sorted_R. destruct (sort_by Rleb [x; y]) as [|l0 [|l1 [|l2 l]]];
    pose proof (Permutation_length Hp) as Hl; cbn in Hl; try discriminate.
  apply Sorted_LocallySorted_iff in Hs.
  inversion Hs as [| |? ? ? _ H01]; subst.
  exists l0, l1. split; [reflexivity|]. split; [apply Rleb_le; assumption|exact Hp].
Qed.

Lemma map_sites_some {Sp : Type} (is_ordered : Sp -> bool) (struct : structure Sp)
  (tr M : mat3) (tu : bool) :
  Standard.map_sites Sp is_ordered struct tr (Some M) tu
  = if forallb (fun t => is_ordered (species_and_occu t)) (sites struct)
    then Ok (map (fun t => PeriodicSite (species_and_occu t) (mat_vec tr (frac_coords t)) M tu)
                 (sites struct))
    else Err AttributeError.
Proof.
  unfold Standard.map_sites. induction (sites struct) as [|t l IH]; [reflexivity|].
  cbn [Py.map_result map forallb]. rewrite IH. unfold Standard.site_specie.
  destruct (is_ordered (species_and_occu t)); [|reflexivity].
  cbn [Lattice bind andb]. destruct (forallb _ l); reflexivity.
Qed.

(** Mapping the sites into a given lattice and rebuilding the structure:
    it fails with [AttributeError] on a structure with a disordered site,
    otherwise with [IndexError] on a structure without sites, and the
    result has the given lattice. *)
Lemma map_sites_structure {Sp : Type} (is_ordered : Sp -> bool) (struct : structure Sp)
  (tr M : mat3) (tu : bool) :
  (let* ns := Standard.map_sites Sp is_ordered struct tr (Some M) tu in from_sites ns)
  = if forallb (fun t => is_ordered (species_and_occu t)) (sites struct)
    then match sites struct with
         | [] => Err IndexError
         | _ :: _ =>
             Ok (mk_structure M
                   (map (fun t => mk_site (species_and_occu t)
                                    (if tu then to_unit_cell (mat_vec tr (frac_coords t))
                                     else mat_vec tr (frac_coords t)))
                        (sites struct)))
         end
    else Err AttributeError.
Proof.
  rewrite map_sites_some. destruct (forallb _ _); cbn [bind]; [|reflexivity].
  destruct (sites struct) as [|t l]; [reflexivity|].
  cbn [from_sites map]. unfold PeriodicSite. cbn [ps_lattice ps_species_and_occu ps_frac].
  rewrite map_map. reflexivity.
Qed.

(** The errors and the result of a rebuild that first checks the sites
    for order and then needs at least one. *)
Lemma ordered_build_cases {A B : Type} (f : A -> bool) (l : list A) (v : B) :
  let x := if forallb f l then match l with [] => Err IndexError | _ :: _ => Ok v end
           else Err AttributeError in
  (forall e, x = Err e -> e = IndexError \/ e = AttributeError)
  /\ (x = Err IndexError <-> l = [])
  /\ (x = Err AttributeError <-> exists t, In t l /\ f t = false)
  /\ (l <> [] -> Forall (fun t => f t = true) l -> x = Ok v)
  /\ (forall r, x = Ok r -> r = v).
Proof.
  intros x. subst x. destruct (forallb f l) eqn:Ef.
  - pose proof (proj1 (forallb_forall f l) Ef) as Hall.
    destruct l as [|t l].
    + split; [intros e E; injection E as <-; left; reflexivity|].
      split; [split; reflexivity|]. split; [split; [discriminate|intros [t [[] _]]]|].
      split; [intros H; contradiction|discriminate].
    + split; [discriminate|]. split; [split; discriminate|].
      split; [split; [discriminate|intros [u [Hu Hf]]; rewrite (Hall u Hu) in Hf; discriminate]|].
      split; [intros; reflexivity|]. intros r E. injection E as <-. reflexivity.
  - assert (Hex : exists t, In t l /\ f t = false).
    { apply not_true_iff_false in Ef. destruct (existsb (fun t => negb (f t)) l) eqn:Eb.
      - apply existsb_exists in Eb. destruct Eb as [t [Ht Hn]].
        exists t. split; [exact Ht|]. destruct (f t); [discriminate|reflexivity].
      - exfalso. apply Ef. apply forallb_forall. intros t Ht.
        destruct (f t) eqn:Eft; [reflexivity|].
        assert (existsb (fun t => negb (f t)) l = true)
          by (apply existsb_exists; exists t; rewrite Eft; auto).
        congruence. }
    split; [intros e E; injection E as <-; right; reflexivity|].
    split; [split; [discriminate|intros ->; discriminate]|].
    split; [split; [intros _; exact Hex|reflexivity]|].
    split; [|discriminate]. intros _ Hf. exfalso.
    apply not_true_iff_false in Ef. apply Ef. apply forallb_forall. intros t Ht.
    exact (proj1 (Forall_forall _ _) Hf t Ht).
Qed.

Definition lengths3 (m : mat3) : list R := [vx (abc m); vy (abc m); vz (abc m)].

(** The orthorhombic and cubic branch gives a diagonal cell. Without a
    leading [C] in the symbol its three lengths are the refined lengths in
    ascending order; with one the first two are the first two refined
    lengths in ascending order and the third is the third refined length.
    The branch raises [IndexError] exactly on a structure without sites,
    [AttributeError] exactly on a structure with a disordered site, and
    nothing else. *)
Theorem orthorhombic_cell {Sp : Type} (is_ordered : Sp -> bool) (sym : string)
  (struct : structure Sp) :
  (forall e, Standard.conv_orthorhombic Sp is_ordered sym struct = Err e ->
             e = IndexError \/ e = AttributeError)
  /\ (Standard.conv_orthorhombic Sp is_ordered sym struct = Err IndexError <-> sites struct = [])
  /\ (Standard.conv_orthorhombic Sp is_ordered sym struct = Err AttributeError
      <-> exists t, In t (sites struct) /\ is_ordered (species_and_occu t) = false)
  /\ (sites struct <> [] -> Forall (fun t => is_ordered (species_and_occu t) = true) (sites struct) ->
      exists r, Standard.conv_orthorhombic Sp is_ordered sym struct = Ok r)
  /\ (forall r, Standard.conv_orthorhombic Sp is_ordered sym struct = Ok r ->
        exists x y z, lattice r = Standard.diag x y z /\ x <= y
          /\ (if startswith "C" sym
              then Permutation [x; y] [vx (abc (lattice struct)); vy (abc (lattice struct))]
                   /\ z = vz (abc (lattice struct))
              else y <= z /\ Permutation [x; y; z] (lengths3 (lattice struct)))
          /\ List.length (sites r) = List.length (sites struct)).
Proof.
  unfold Standard.conv_orthorhombic. cbv zeta.
  destruct (startswith "C" sym).
  - destruct (sorted_R2 (vx (abc (lattice struct))) (vy (abc (lattice struct))))
      as [l0 [l1 [Es [Hle Hp]]]].
    rewrite Es, map_sites_structure. unfold Standard.sl. cbn [nth].
    destruct (ordered_build_cases (fun t => is_ordered (species_and_occu t)) (sites struct)
      (mk_structure (Standard.diag l0 l1 (vz (abc (lattice struct))))
         (map (fun t => mk_site (species_and_occu t) (to_unit_cell
            (mat_vec (Standard.perm_transf (set_row zeros 2 (0, 0, 1))
                        (sorted_dic (lattice struct) [0; 1]%nat)) (frac_coords t))))
            (sites struct)))) as [He [Hi [Ha [Hok Hr]]]].
    split; [exact He|]. split; [exact Hi|]. split; [exact Ha|].
    split; [intros Hne Ho; eexists; exact (Hok Hne Ho)|].
    intros r E. apply Hr in E. subst r. exists l0, l1, (vz (abc (lattice struct))).
    split; [reflexivity|]. split; [exact Hle|]. split; [split; [exact Hp|reflexivity]|].
    cbn [sites]. rewrite length_map. reflexivity.
  - destruct (sorted_R3 (vx (abc (lattice struct))) (vy (abc (lattice struct)))
                (vz (abc (lattice struct)))) as [l0 [l1 [l2 [Es [[H01 H12] Hp]]]]].
    rewrite Es, map_sites_structure. unfold Standard.sl. cbn [nth].
    destruct (ordered_build_cases (fun t => is_ordered (species_and_occu t)) (sites struct)
      (mk_structure (Standard.diag l0 l1 l2)
         (map (fun t => mk_site (species_and_occu t) (to_unit_cell
            (mat_vec (Standard.perm_transf zeros (sorted_dic (lattice struct) [0; 1; 2]%nat))
               (frac_coords t))))
            (sites struct)))) as [He [Hi [Ha [Hok Hr]]]].
    split; [exact He|]. split; [exact Hi|]. split; [exact Ha|].
    split; [intros Hne Ho; eexists; exact (Hok Hne Ho)|].
    intros r E. apply Hr in E. subst r. exists l0, l1, l2.
    split; [reflexivity|]. split; [exact H01|]. split; [split; [exact H12|exact Hp]|].
    cbn [sites]. rewrite length_map. reflexivity.
Qed.

(** The tetragonal branch gives a diagonal cell [a, a, c] from the refined
    lengths sorted as [l0 <= l1 <= l2]: when the two longest agree within
    [tol], [a = l2] and [c = l0]; otherwise [a = l0] and [c = l2]. It raises
    [IndexError] exactly on a structure without sites, [AttributeError]
    exactly on a structure with a disordered site, and nothing else. *)
Theorem tetragonal_cell {Sp : Type} (is_ordered : Sp -> bool) (struct : structure Sp) :
  (forall e, Standard.conv_tetragonal Sp is_ordered struct = Err e ->
             e = IndexError \/ e = AttributeError)
  /\ (Standard.conv_tetragonal Sp is_ordered struct = Err IndexError <-> sites struct = [])
  /\ (Standard.conv_tetragonal Sp is_ordered struct = Err AttributeError
      <-> exists t, In t (sites struct) /\ is_ordered (species_and_occu t) = false)
  /\ (sites struct <> [] -> Forall (fun t => is_ordered (species_and_occu t) = true) (sites struct) ->
      exists r, Standard.conv_tetragonal Sp is_ordered struct = Ok r)
  /\ (forall r, Standard.conv_tetragonal Sp is_ordered struct = Ok r ->
        exists l0 l1 l2, l0 <= l1 <= l2
          /\ Permutation [l0; l1; l2] (lengths3 (lattice struct))
          /\ lattice r = (if Rltb (Rabs (l1 - l2)) Standard.tol
                          then Standard.diag l2 l2 l0 else Standard.diag l0 l0 l2)).
Proof.
  unfold Standard.conv_tetragonal. cbv zeta.
  destruct (sorted_R3 (vx (abc (lattice struct))) (vy (abc (lattice struct)))
              (vz (abc (lattice struct)))) as [l0 [l1 [l2 [Es [Hle Hp]]]]].
  rewrite Es. unfold Standard.sl. cbn [nth].
  destruct (Rltb (Rabs (l1 - l2)) Standard.tol) eqn:Et; rewrite map_sites_structure;
    match goal with
    | |- context [if forallb ?f ?l then match ?l with [] => _ | _ :: _ => Ok ?v end
                  else _] =>
        destruct (ordered_build_cases f l v) as [He [Hi [Ha [Hok Hr]]]]
    end;
    (split; [exact He|]); (split; [exact Hi|]); (split; [exact Ha|]);
    (split; [intros Hne Ho; eexists; exact (Hok Hne Ho)|]);
    intros r E; apply Hr in E; subst r; exists l0, l1, l2;
    (split; [exact Hle|]); (split; [exact Hp|]); rewrite Et; reflexivity.
Qed.

Definition rect_struct : structure nat :=
  mk_structure (Standard.diag 5 3 4) [mk_site 26%nat (0, 0, 0)].

Lemma orthorhombic_cell_witness :
  exists r, Standard.conv_orthorhombic nat (fun _ => true) "Pmmm" rect_struct = Ok r.
Proof.
  apply (proj1 (proj2 (proj2 (proj2 (orthorhombic_cell (fun _ => true) "Pmmm" rect_struct))))).
  - discriminate.
  - repeat constructor.
Defined.

Lemma tetragonal_cell_witness :
  exists r, Standard.conv_tetragonal nat (fun _ => true) rect_struct = Ok r.
Proof.
  apply (proj1 (proj2 (proj2 (proj2 (tetragonal_cell (fun _ => true) rect_struct))))).
  - discriminate.
  - repeat constructor.
Defined.

(** The hexagonal cell [new_matrix] of lines 566-568. *)
Definition hex_matrix (a c : R) : mat3 :=
  mk_mat3 (a / 2, - a * sqrt 3 / 2, 0) (a / 2, a * sqrt 3 / 2, 0) (0, 0, c).

(** Lines 569-578: the sites, given in cartesian coordinates, placed into
    the hexagonal cell. *)
Definition hex_build {Sp : Type} (is_ordered : Sp -> bool) (st : structure Sp) (a c : R)
  : result (structure Sp) :=
  let* new_sites :=
    Py.map_result
      (fun t => let* sp := Standard.site_specie Sp is_ordered t in
                let* L := Lattice (Some (hex_matrix a c)) in
                PeriodicSite_cart sp (coords (lattice st) (frac_coords t)) L true)
      (sites st) in
  from_sites new_sites.

Lemma cos_2PI3 : cos (2 * PI / 3) = - (1 / 2).
Proof.
  replace (2 * PI / 3) with (PI - PI / 3) by field.
  rewrite cos_minus, cos_PI, sin_PI, cos_PI3. ring.
Qed.

Lemma hex_det (a c : R) : det3 (hex_matrix a c) = a * a * c * sqrt 3 / 2.
Proof. unfold det3, hex_matrix. cbn [row0 row1 row2]. field. Qed.

Lemma hex_det_zero (a c : R) : det3 (hex_matrix a c) = 0 <-> a = 0 \/ c = 0.
Proof.
  rewrite hex_det. assert (Hs : 0 < sqrt 3) by (apply sqrt_lt_R0; lra). split.
  - intros H. destruct (Req_dec a 0) as [Ha|Ha]; [left; exact Ha|].
    destruct (Req_dec c 0) as [Hc|Hc]; [right; exact Hc|]. exfalso.
    assert (X : a * a * c * sqrt 3 <> 0).
    { repeat apply Rmult_integral_contrapositive_currified; try assumption; lra. }
    apply X. replace (a * a * c * sqrt 3) with (2 * (a * a * c * sqrt 3 / 2)) by field.
    rewrite H. ring.
  - intros [-> | ->]; field.
Qed.

Lemma hex_lengths_and_angles (a c : R) :
  0 < a -> 0 < c -> lengths_and_angles (hex_matrix a c) = ((a, a, c), (90, 90, 120)).
Proof.
  intros Ha Hc. unfold lengths_and_angles, abc, hex_matrix. cbn [row0 row1 row2].
  assert (H3 : sqrt 3 * sqrt 3 = 3) by (apply sqrt_sqrt; lra).
  assert (Hn0 : norm (a / 2, - a * sqrt 3 / 2, 0) = a).
  { apply norm_of_sq; [lra|]. unfold dot, vx, vy, vz.
    transitivity (a * a * (1 + sqrt 3 * sqrt 3) / 4); [field|rewrite H3; field]. }
  assert (Hn1 : norm (a / 2, a * sqrt 3 / 2, 0) = a).
  { apply norm_of_sq; [lra|]. unfold dot, vx, vy, vz.
    transitivity (a * a * (1 + sqrt 3 * sqrt 3) / 4); [field|rewrite H3; field]. }
  assert (Hn2 : norm (0, 0, c) = c).
  { apply norm_of_sq; [lra|]. unfold dot, vx, vy, vz. ring. }
  assert (Ha12 : angle_deg (a / 2, a * sqrt 3 / 2, 0) (0, 0, c) = 90).
  { apply angle_deg_orth. unfold dot, vx, vy, vz. ring. }
  assert (Ha02 : angle_deg (a / 2, - a * sqrt 3 / 2, 0) (0, 0, c) = 90).
  { apply angle_deg_orth. unfold dot, vx, vy, vz. ring. }
  assert (Ha01 : angle_deg (a / 2, - a * sqrt 3 / 2, 0) (a / 2, a * sqrt 3 / 2, 0) = 120).
  { pose proof PI_RGT_0 as Hpi.
    rewrite (angle_deg_cos _ _ (2 * PI / 3)).
    - field. apply PI_neq0.
    - split; lra.
    - rewrite Hn0, Hn1. apply Rmult_integral_contrapositive_currified; lra.
    - rewrite Hn0, Hn1, cos_2PI3. unfold dot, vx, vy, vz.
      transitivity (a * a * (1 - sqrt 3 * sqrt 3) / 4); [field|rewrite H3; field]. }
  rewrite Hn0, Hn1, Hn2, Ha12, Ha02, Ha01. reflexivity.
Qed.

Lemma forallb_false_ex {A : Type} (f : A -> bool) (l : list A) :
  forallb f l = false -> exists t, In t l /\ f t = false.
Proof.
  induction l as [|t l IH]; [discriminate|]. cbn [forallb].
  destruct (f t) eqn:Et; cbn [andb].
  - intros H. destruct (IH H) as [u [Hu Hf]]. exists u. split; [right; exact Hu|exact Hf].
  - intros _. exists t. split; [left; reflexivity|exact Et].
Qed.

Lemma Forall_forallb {A : Type} (f : A -> bool) (l : list A) :
  Forall (fun t => f t = true) l -> forallb f l = true.
Proof. intros H. apply forallb_forall. intros t Ht. exact (proj1 (Forall_forall _ _) H t Ht). Qed.

Lemma hex_sites_err {Sp : Type} (is_ordered : Sp -> bool) (st : structure Sp) (M : mat3)
  (l : list (site Sp)) :
  Latt.inv3 M = Err LinAlgError ->
  Py.map_result
    (fun t => let* sp := Standard.site_specie Sp is_ordered t in
              let* L := Lattice (Some M) in
              PeriodicSite_cart sp (coords (lattice st) (frac_coords t)) L true) l
  = match l with
    | [] => Ok []
    | t :: _ => Err (if is_ordered (species_and_occu t) then LinAlgError else AttributeError)
    end.
Proof.
  intros E. destruct l as [|t l]; [reflexivity|].
  cbn [Py.map_result]. unfold Standard.site_specie.
  destruct (is_ordered (species_and_occu t)); cbn [Lattice bind]; [|reflexivity].
  unfold PeriodicSite_cart, get_fractional_coords. rewrite E. reflexivity.
Qed.

Lemma hex_sites_ok {Sp : Type} (is_ordered : Sp -> bool) (st : structure Sp) (M inv : mat3)
  (l : list (site Sp)) :
  Latt.inv3 M = Ok inv ->
  Py.map_result
    (fun t => let* sp := Standard.site_specie Sp is_ordered t in
              let* L := Lattice (Some M) in
              PeriodicSite_cart sp (coords (lattice st) (frac_coords t)) L true) l
  = if forallb (fun t => is_ordered (species_and_occu t)) l
    then Ok (map (fun t => PeriodicSite (species_and_occu t)
                             (vec_mat (coords (lattice st) (frac_coords t)) inv) M true) l)
    else Err AttributeError.
Proof.
  intros E. induction l as [|t l IH]; [reflexivity|].
  cbn [Py.map_result map forallb]. rewrite IH. unfold Standard.site_specie.
  destruct (is_ordered (species_and_occu t)); cbn [Lattice bind andb]; [|reflexivity].
  unfold PeriodicSite_cart, get_fractional_coords. rewrite E. cbn [bind].
  destruct (forallb _ l); reflexivity.
Qed.

Lemma hex_build_spec {Sp : Type} (is_ordered : Sp -> bool) (st : structure Sp) (a c : R) :
  0 <= a -> 0 <= c ->
  (forall e, hex_build is_ordered st a c = Err e ->
             (e = IndexError /\ sites st = [])
             \/ (e = LinAlgError /\ sites st <> [] /\ (a = 0 \/ c = 0))
             \/ (e = AttributeError
                 /\ exists t, In t (sites st) /\ is_ordered (species_and_occu t) = false))
  /\ (sites st <> [] -> Forall (fun t => is_ordered (species_and_occu t) = true) (sites st) ->
      a <> 0 -> c <> 0 -> exists r, hex_build is_ordered st a c = Ok r)
  /\ (forall r, hex_build is_ordered st a c = Ok r ->
        lattice r = hex_matrix a c
        /\ lengths_and_angles (lattice r) = ((a, a, c), (90, 90, 120))
        /\ List.length (sites r) = List.length (sites st)).
Proof.
  intros Ha Hc. unfold hex_build.
  destruct (DatasetFacts.inv3_cases (hex_matrix a c)) as [[Ei Ed]|[inv [Ei Ed]]].
  - rewrite (hex_sites_err is_ordered st _ (sites st) Ei). apply hex_det_zero in Ed.
    destruct (sites st) as [|t l]; cbn [bind from_sites].
    + split; [intros e E; injection E as <-; left; split; reflexivity|].
      split; [intros H; contradiction|discriminate].
    + destruct (is_ordered (species_and_occu t)) eqn:Eo; cbn [bind].
      * split; [intros e E; injection E as <-; right; left;
                split; [reflexivity|split; [discriminate|exact Ed]]|].
        split; [intros _ _ Ha0 Hc0; destruct Ed; contradiction|discriminate].
      * split; [intros e E; injection E as <-; right; right;
                split; [reflexivity|exists t; split; [left; reflexivity|exact Eo]]|].
        split; [intros _ Ho; inversion Ho; congruence|discriminate].
  - rewrite (hex_sites_ok is_ordered st _ inv (sites st) Ei).
    destruct (forallb (fun t => is_ordered (species_and_occu t)) (sites st)) eqn:Ef; cbn [bind].
    + destruct (sites st) as [|t l]; cbn [from_sites map].
      * split; [intros e E; injection E as <-; left; split; reflexivity|].
        split; [intros H; contradiction|discriminate].
      * split; [discriminate|]. split; [intros; eexists; reflexivity|].
        intros r E. injection E as <-. unfold PeriodicSite. cbn [lattice ps_lattice sites].
        split; [reflexivity|]. split.
        -- assert (Hac : a <> 0 /\ c <> 0).
           { split; intros E0; apply Ed, hex_det_zero; [left|right]; exact E0. }
           apply hex_lengths_and_angles; lra.
        -- cbn [List.length map]. rewrite !length_map. reflexivity.
    + split; [intros e E; injection E as <-; right; right; split; [reflexivity|];
              exact (forallb_false_ex _ _ Ef)|].
      split; [intros _ Ho; rewrite (Forall_forallb _ _ Ho) in Ef; discriminate|discriminate].
Qed.

Lemma lengths3_nonneg (m : mat3) (x : R) : In x (lengths3 m) -> 0 <= x.
Proof.
  unfold lengths3, abc. cbn [vx vy vz].
  intros [<-|[<-|[<-|[]]]]; apply norm_nonneg.
Qed.

Lemma hex_conv_cases {Sp : Type} (supercell : structure Sp -> mat3 -> structure Sp)
  (is_ordered : Sp -> bool) (struct0 : structure Sp) :
  exists st a c,
    (st = struct0 \/ st = supercell struct0 Standard.hex_scaling)
    /\ In a (lengths3 (lattice st)) /\ In c (lengths3 (lattice st))
    /\ Standard.conv_hexagonal Sp supercell is_ordered struct0 = hex_build is_ordered st a c.
Proof.
  unfold Standard.conv_hexagonal. cbv zeta.
  destruct (Standard.rhombohedral_setting (lattice struct0));
    [set (st := supercell struct0 Standard.hex_scaling)|set (st := struct0)];
    destruct (sorted_R3 (vx (abc (lattice st))) (vy (abc (lattice st))) (vz (abc (lattice st))))
      as [l0 [l1 [l2 [Es [_ Hp]]]]];
    rewrite Es; unfold Standard.sl; cbn [nth];
    (assert (Hin : forall x, In x [l0; l1; l2] -> In x (lengths3 (lattice st)))
       by (intros x Hx; exact (Permutation_in _ Hp Hx)));
    destruct (Rltb (Rabs (l1 - l2)) (1 / 1000));
    [exists st, l2, l0|exists st, l0, l2|exists st, l2, l0|exists st, l0, l2];
    (split; [first [right; reflexivity|left; reflexivity]|]);
    (split; [apply Hin; cbn; tauto|]); (split; [apply Hin; cbn; tauto|]); reflexivity.
Qed.

(** The hexagonal and rhombohedral branch gives the hexagonal cell with
    sides [a, a, c] and angles [90, 90, 120], [a] and [c] two of the
    lengths of the refined cell (of its supercell in the rhombohedral
    case). It raises [IndexError] on a structure without sites,
    [LinAlgError], from the cartesian-to-fractional conversion, only when
    [a] or [c] is zero, and [AttributeError] only when a site is
    disordered; it raises nothing else, and succeeds on a structure with
    sites, all ordered, when [a] and [c] are nonzero. *)
Theorem hexagonal_cell {Sp : Type} (supercell : structure Sp -> mat3 -> structure Sp)
  (is_ordered : Sp -> bool) (struct0 : structure Sp) :
  exists st a c,
    (st = struct0 \/ st = supercell struct0 Standard.hex_scaling)
    /\ In a (lengths3 (lattice st)) /\ In c (lengths3 (lattice st))
    /\ (forall e, Standard.conv_hexagonal Sp supercell is_ordered struct0 = Err e ->
                  (e = IndexError /\ sites st = [])
                  \/ (e = LinAlgError /\ sites st <> [] /\ (a = 0 \/ c = 0))
                  \/ (e = AttributeError
                      /\ exists t, In t (sites st) /\ is_ordered (species_and_occu t) = false))
    /\ (sites st <> [] -> Forall (fun t => is_ordered (species_and_occu t) = true) (sites st) ->
        a <> 0 -> c <> 0 ->
        exists r, Standard.conv_hexagonal Sp supercell is_ordered struct0 = Ok r)
    /\ (forall r, Standard.conv_hexagonal Sp supercell is_ordered struct0 = Ok r ->
          lattice r = hex_matrix a c
          /\ lengths_and_angles (lattice r) = ((a, a, c), (90, 90, 120))
          /\ List.length (sites r) = List.length (sites st)).
Proof.
  destruct (hex_conv_cases supercell is_ordered struct0) as [st [a [c [Hst [Ha [Hc E]]]]]].
  exists st, a, c. rewrite E.
  split; [exact Hst|]. split; [exact Ha|]. split; [exact Hc|].
  apply hex_build_spec; eapply lengths3_nonneg; eassumption.
Qed.

End ConventionalShapes.

Module PrimitiveExtras.
Import Geo Latt GeometryFacts StandardFacts Examples PrimitiveStandardClaims.
Open Scope R_scope.

Lemma fop_snoc {A : Type} (R : A -> A -> Prop) (l : list A) (p : A) :
  ForallOrdPairs R l -> Forall (fun x => R x p) l -> ForallOrdPairs R (l ++ [p]).
Proof.
  induction l as [|a l IH]; intros H Hp; cbn [app].
  - constructor; constructor.
  - inversion H as [|? ? Ha Hl]; subst. inversion Hp as [|? ? Hap Hlp]; subst.
    constructor.
    + apply Forall_app. split; [exact Ha|]. constructor; [exact Hap|constructor].
    + apply IH; assumption.
Qed.

Section Images.

Variable Sp : Type.
Variable sp_eq_dec : forall x y : Sp, {x = y} + {x <> y}.
Variable is_ordered : Sp -> bool.

(** No site of [l] is a periodic image, in the lattice [L], of a site
    before it. *)
Definition image_free (L : mat3) (l : list (site Sp)) : Prop :=
  ForallOrdPairs
    (fun x y => is_periodic_image sp_eq_dec (mk_psite (species_and_occu y) (frac_coords y) L)
                  (mk_psite (species_and_occu x) (frac_coords x) L) = false) l.

(** The invariant of the deduplicating loops: every kept site lies in the
    lattice [L], and none is a periodic image of one kept before it. *)
Definition kept_inv (L : mat3) (acc : list (psite Sp)) : Prop :=
  Forall (fun p => ps_lattice p = L) acc
  /\ ForallOrdPairs (fun x y => is_periodic_image sp_eq_dec y x = false) acc.

Lemma add_unique_inv (L : mat3) (acc : list (psite Sp)) (p : psite Sp) :
  ps_lattice p = L -> kept_inv L acc -> kept_inv L (Standard.add_unique Sp sp_eq_dec acc p).
Proof.
  intros Hp [Hl Hf]. unfold Standard.add_unique.
  destruct (existsb (fun t => is_periodic_image sp_eq_dec p t) acc) eqn:E;
    [split; assumption|].
  split.
  - apply Forall_app. split; [exact Hl|]. constructor; [exact Hp|constructor].
  - apply fop_snoc; [exact Hf|]. apply Forall_forall. intros t Ht.
    destruct (is_periodic_image sp_eq_dec p t) eqn:Ei; [|reflexivity]. exfalso.
    assert (X : existsb (fun t => is_periodic_image sp_eq_dec p t) acc = true)
      by (apply existsb_exists; exists t; split; assumption).
    congruence.
Qed.

Lemma rhombohedral_loop_inv (L : mat3) (l : list (site Sp)) (acc r : list (psite Sp)) :
  for_each l
    (fun acc t =>
       let* sp := Standard.site_specie Sp is_ordered t in
       let* L' := Lattice (Some L) in
       Ok (Standard.add_unique Sp sp_eq_dec acc (PeriodicSite sp (frac_coords t) L' true)))
    acc = Ok r ->
  kept_inv L acc -> kept_inv L r.
Proof.
  revert acc. induction l as [|t l IH]; intros acc H Hacc; cbn [for_each] in H.
  - injection H as <-. exact Hacc.
  - destruct (Standard.site_specie Sp is_ordered t) as [sp|e]; cbn [bind Lattice] in H;
      [|discriminate].
    apply (IH _ H). apply add_unique_inv; [reflexivity|exact Hacc].
Qed.

Lemma for_each_unique_inv (M L : mat3) (l : list (site Sp)) (acc r : list (psite Sp)) :
  for_each l (prim_body Sp sp_eq_dec is_ordered M L) acc = Ok r -> kept_inv L acc -> kept_inv L r.
Proof.
  revert acc. induction l as [|t l IH]; intros acc H Hacc; cbn [for_each] in H.
  - injection H as <-. exact Hacc.
  - unfold prim_body at 1 in H.
    destruct (Standard.site_specie Sp is_ordered t) as [sp|e]; cbn [Lattice bind] in H;
      [|discriminate].
    unfold PeriodicSite_cart at 1 in H.
    destruct (get_fractional_coords L (coords M (frac_coords t))) as [frac|e];
      cbn [bind] in H; [|discriminate].
    apply (IH _ H). apply add_unique_inv; [reflexivity|exact Hacc].
Qed.

Lemma psite_eta (L : mat3) (p : psite Sp) :
  ps_lattice p = L -> mk_psite (ps_species_and_occu p) (ps_frac p) L = p.
Proof. destruct p as [sp fr la]. cbn. intros ->. reflexivity. Qed.

Lemma from_sites_image_free (L : mat3) (ns : list (psite Sp)) (st : structure Sp) :
  from_sites ns = Ok st -> kept_inv L ns -> lattice st = L /\ image_free L (sites st).
Proof.
  intros H [Hf Ho]. destruct (from_sites_ok _ _ H) as [p [l' [Hl [Hlat Hs]]]]. split.
  - rewrite Hlat. subst ns. inversion Hf. assumption.
  - rewrite Hs. clear - Hf Ho. unfold image_free. induction ns as [|a ns IH]; cbn [map].
    + constructor.
    + inversion Hf as [|? ? Ha Hns]. inversion Ho as [|? ? Hra Hons].
      constructor; [|apply IH; assumption].
      apply Forall_map. apply Forall_forall. intros y Hy.
      pose proof (proj1 (Forall_forall _ _) Hra y Hy) as Hr.
      pose proof (proj1 (Forall_forall _ _) Hns y Hy) as Hyl.
      cbn [species_and_occu frac_coords]. rewrite (psite_eta L y Hyl), (psite_eta L a Ha). exact Hr.
Qed.

End Images.

(** In its two cell-changing branches (rhombohedral, and centred or
    primitive without a [P] in the symbol), [get_primitive_standard_structure]
    returns a structure in which no site is a periodic image of a site
    before it: the loops keep a site only when it is not an image of one
    already kept. *)
Theorem primitive_image_free {Sp : Type}
  (sp_eq_dec : forall x y : Sp, {x = y} + {x <> y})
  (spg_refine_cell : mat3 -> list vec -> list nat -> R -> R -> option (Z * mat3 * list vec * list nat))
  (supercell : structure Sp -> mat3 -> structure Sp) (lll_reduce : structure Sp -> structure Sp)
  (site_leb : site Sp -> site Sp -> bool) (is_ordered : Sp -> bool)
  (spg_symmetry : list mat3 -> list vec -> mat3 -> list vec -> list nat -> R -> R ->
                  option (Z * (nat -> mat3) * (nat -> vec)))
  (s : Finder.session Sp) (sym : string) (lt : option string)
  (Hsym : Symbol.get_spacegroup_symbol s = Ok sym) (HP : contains "P" sym = false)
  (Hlt : Symbol.get_lattice_type s = Ok lt) (Hhex : Symbol.opt_is lt "hexagonal" = false) :
  forall st,
    Standard.get_primitive_standard_structure Sp sp_eq_dec spg_refine_cell supercell
      lll_reduce site_leb is_ordered spg_symmetry s = Ok st ->
    image_free Sp sp_eq_dec (lattice st) (sites st).
Proof.
  intros st Hst. unfold Standard.get_primitive_standard_structure in Hst.
  destruct (Standard.get_conventional_standard_structure _ _ _ _ _ _ _ _) as [conv|e];
    cbn [bind] in Hst; [|discriminate].
  rewrite Hlt in Hst. cbn [bind] in Hst. rewrite Hsym in Hst. cbn [bind] in Hst.
  rewrite HP, Hhex in Hst. cbn [orb] in Hst.
  destruct (Symbol.opt_is lt "rhombohedral").
  - destruct (Standard.get_refined_structure _ _ _ _) as [r|e];
      cbn [bind] in Hst; [|discriminate].
    destruct (lengths_and_angles (lattice r)) as [[[a b] c] [[al be] ga]].
    destruct (Standard.rhombohedral_matrix a (PI * al / 180)) as [nm|e];
      cbn [bind] in Hst; [|discriminate].
    destruct (for_each _ _ []) as [ns|e] eqn:Ef; cbn [bind] in Hst; [|discriminate].
    destruct (from_sites_image_free Sp sp_eq_dec nm _ _ Hst
                (rhombohedral_loop_inv Sp sp_eq_dec is_ordered nm _ [] ns Ef
                   (conj (Forall_nil _) (FOP_nil _))))
      as [-> H].
    exact H.
  - match type of Hst with
    | bind ?x _ = _ => destruct x as [transf|e]; cbn [bind] in Hst; [|discriminate]
    end.
    destruct (for_each _ _ []) as [ns|e] eqn:Ef; cbn [bind] in Hst; [|discriminate].
    destruct (from_sites_image_free Sp sp_eq_dec (mat_mul transf (lattice conv)) _ _ Hst
                (for_each_unique_inv Sp sp_eq_dec is_ordered (lattice conv) (mat_mul transf (lattice conv))
                   _ [] ns Ef (conj (Forall_nil _) (FOP_nil _)))) as [-> H].
    exact H.
Qed.

Lemma primitive_image_free_witness :
  Symbol.get_spacegroup_symbol PrimitiveStandardClaims.fcc_session = Ok "Fm-3m"%string
  /\ Symbol.get_lattice_type PrimitiveStandardClaims.fcc_session = Ok (Some "cubic"%string)
  /\ (forall st,
        Standard.get_primitive_standard_structure nat Nat.eq_dec refine_identity (fun st _ => st)
          (fun st => st) (fun _ _ => true) (fun _ => true) Examples.identity_symmetry PrimitiveStandardClaims.fcc_session = Ok st ->
        image_free nat Nat.eq_dec (lattice st) (sites st)).
Proof.
  split; [vm_compute; reflexivity|]. split; [vm_compute; reflexivity|].
  exact (primitive_image_free Nat.eq_dec refine_identity (fun st _ => st) (fun st => st)
           (fun _ _ => true) (fun _ => true) Examples.identity_symmetry PrimitiveStandardClaims.fcc_session "Fm-3m" (Some "cubic"%string)
           ltac:(vm_compute; reflexivity) eq_refl ltac:(vm_compute; reflexivity) eq_refl).
Defined.

(** The rhombohedral matrix has three rows of length [a] at the angle
    [alpha] to each other. *)
Lemma rhombohedral_matrix_cell (a alpha : R) (nm : mat3) :
  0 < a -> 0 <= alpha <= PI -> Standard.rhombohedral_matrix a alpha = Ok nm ->
  lengths_and_angles nm
  = ((a, a, a), (alpha * 180 / PI, alpha * 180 / PI, alpha * 180 / PI)).
Proof.
  intros Ha Hal H. unfold Standard.rhombohedral_matrix in H. cbv zeta in H.
  destruct (Reqb (cos (alpha / 2)) 0) eqn:Ec; [discriminate|].
  destruct (Rltb (1 - cos alpha ^ 2 / cos (alpha / 2) ^ 2) 0) eqn:Er; [discriminate|].
  injection H as <-.
  assert (Hch : cos (alpha / 2) <> 0).
  { unfold Reqb in Ec. destruct (Req_EM_T (cos (alpha / 2)) 0); [discriminate|assumption]. }
  assert (Hrad : 0 <= 1 - cos alpha ^ 2 / cos (alpha / 2) ^ 2).
  { unfold Rltb in Er. destruct (Rlt_dec (1 - cos alpha ^ 2 / cos (alpha / 2) ^ 2) 0);
      [discriminate|lra]. }
  assert (Hca : cos alpha = cos (alpha / 2) * cos (alpha / 2) - sin (alpha / 2) * sin (alpha / 2)).
  { rewrite <- cos_2a. f_equal. field. }
  pose proof (sin2_cos2 (alpha / 2)) as Hsc. unfold Rsqr in Hsc.
  remember (1 - cos alpha ^ 2 / cos (alpha / 2) ^ 2) as rad eqn:Erad.
  pose proof (sqrt_sqrt _ Hrad) as Hsq.
  unfold lengths_and_angles, abc. cbn [row0 row1 row2].
  replace (1 - cos alpha * (cos alpha * 1) / (cos (alpha / 2) * (cos (alpha / 2) * 1)))
    with rad by (rewrite Erad; field; exact Hch).
  assert (Hn0 : norm (a * cos (alpha / 2), - a * sin (alpha / 2), 0) = a).
  { apply norm_of_sq; [lra|]. unfold dot, vx, vy, vz.
    transitivity (a * a * (sin (alpha / 2) * sin (alpha / 2) + cos (alpha / 2) * cos (alpha / 2))); [ring|rewrite Hsc; ring]. }
  assert (Hn1 : norm (a * cos (alpha / 2), a * sin (alpha / 2), 0) = a).
  { apply norm_of_sq; [lra|]. unfold dot, vx, vy, vz.
    transitivity (a * a * (sin (alpha / 2) * sin (alpha / 2) + cos (alpha / 2) * cos (alpha / 2))); [ring|rewrite Hsc; ring]. }
  assert (Hn2 : norm (a * cos alpha / cos (alpha / 2), 0, a * sqrt rad) = a).
  { apply norm_of_sq; [lra|]. unfold dot, vx, vy, vz.
    transitivity (a * a * (cos alpha ^ 2 / cos (alpha / 2) ^ 2 + sqrt rad * sqrt rad));
      [field; exact Hch|].
    rewrite Hsq, Erad. field. exact Hch. }
  assert (Hnn : a * a <> 0) by (apply Rmult_integral_contrapositive_currified; lra).
  rewrite (angle_deg_cos _ _ alpha Hal); [|rewrite Hn1, Hn2; exact Hnn|].
  2:{ rewrite Hn1, Hn2. unfold dot, vx, vy, vz. field. exact Hch. }
  rewrite (angle_deg_cos (a * cos (alpha / 2), - a * sin (alpha / 2), 0) _ alpha Hal);
    [|rewrite Hn0, Hn2; exact Hnn|].
  2:{ rewrite Hn0, Hn2. unfold dot, vx, vy, vz. field. exact Hch. }
  rewrite (angle_deg_cos (a * cos (alpha / 2), - a * sin (alpha / 2), 0)
             (a * cos (alpha / 2), a * sin (alpha / 2), 0) alpha Hal);
    [|rewrite Hn0, Hn1; exact Hnn|].
  2:{ rewrite Hn0, Hn1, Hca. unfold dot, vx, vy, vz. ring. }
  rewrite Hn0, Hn1, Hn2. reflexivity.
Qed.

(** For a rhombohedral lattice type and a symbol without [P],
    [get_primitive_standard_structure] returns a cell whose three sides
    have the length [a] of the first side of the refined cell and whose
    three angles are its angle [alpha] (between its second and third
    sides), when [a > 0]. *)
Theorem rhombohedral_primitive_cell {Sp : Type}
  (sp_eq_dec : forall x y : Sp, {x = y} + {x <> y})
  (spg_refine_cell : mat3 -> list vec -> list nat -> R -> R -> option (Z * mat3 * list vec * list nat))
  (supercell : structure Sp -> mat3 -> structure Sp) (lll_reduce : structure Sp -> structure Sp)
  (site_leb : site Sp -> site Sp -> bool) (is_ordered : Sp -> bool)
  (spg_symmetry : list mat3 -> list vec -> mat3 -> list vec -> list nat -> R -> R ->
                  option (Z * (nat -> mat3) * (nat -> vec)))
  (s : Finder.session Sp) (sym : string) (r : structure Sp)
  (Hlt : Symbol.get_lattice_type s = Ok (Some "rhombohedral"%string))
  (Hsym : Symbol.get_spacegroup_symbol s = Ok sym) (HP : contains "P" sym = false)
  (Href : Standard.get_refined_structure Sp spg_refine_cell site_leb s = Ok r)
  (Ha : 0 < norm (row0 (lattice r))) :
  forall st,
    Standard.get_primitive_standard_structure Sp sp_eq_dec spg_refine_cell supercell
      lll_reduce site_leb is_ordered spg_symmetry s = Ok st ->
    let a := norm (row0 (lattice r)) in
    let al := angle_deg (row1 (lattice r)) (row2 (lattice r)) in
    lengths_and_angles (lattice st) = ((a, a, a), (al, al, al)).
Proof.
  intros st Hst. unfold Standard.get_primitive_standard_structure in Hst.
  destruct (Standard.get_conventional_standard_structure _ _ _ _ _ _ _ _) as [conv|e];
    cbn [bind] in Hst; [|discriminate].
  rewrite Hlt in Hst. cbn [bind] in Hst. rewrite Hsym in Hst. cbn [bind] in Hst.
  rewrite HP in Hst. unfold Symbol.opt_is in Hst. simpl String.eqb in Hst. cbn [orb] in Hst.
  rewrite Href in Hst. cbn [bind] in Hst.
  unfold lengths_and_angles at 1, abc at 1 in Hst. cbn [vx] in Hst.
  destruct (Standard.rhombohedral_matrix (norm (row0 (lattice r)))
              (PI * angle_deg (row1 (lattice r)) (row2 (lattice r)) / 180)) as [nm|e] eqn:Em;
    cbn [bind] in Hst; [|discriminate].
  destruct (for_each _ _ []) as [ns|e] eqn:Ef; cbn [bind] in Hst; [|discriminate].
  destruct (from_sites_image_free Sp sp_eq_dec nm _ _ Hst
              (rhombohedral_loop_inv Sp sp_eq_dec is_ordered nm _ [] ns Ef
                 (conj (Forall_nil _) (FOP_nil _))))
    as [-> _].
  pose proof PI_RGT_0 as Hpi.
  assert (Hal : 0 <= PI * angle_deg (row1 (lattice r)) (row2 (lattice r)) / 180 <= PI).
  { unfold angle_deg. pose proof (acos_bound (dot (row1 (lattice r)) (row2 (lattice r)) /
                                     (norm (row1 (lattice r)) * norm (row2 (lattice r))))).
    replace (PI * (acos (dot (row1 (lattice r)) (row2 (lattice r)) /
                     (norm (row1 (lattice r)) * norm (row2 (lattice r)))) * 180 / PI) / 180)
      with (acos (dot (row1 (lattice r)) (row2 (lattice r)) /
                  (norm (row1 (lattice r)) * norm (row2 (lattice r))))) by (field; lra).
    lra. }
  rewrite (rhombohedral_matrix_cell _ _ _ Ha Hal Em). cbv zeta.
  replace (PI * angle_deg (row1 (lattice r)) (row2 (lattice r)) / 180 * 180 / PI)
    with (angle_deg (row1 (lattice r)) (row2 (lattice r))) by (field; lra).
  reflexivity.
Qed.

(** A rhombohedral session ([R-3m], number 166) on the unit cube with one
    atom at the origin. *)
Definition rhombohedral_session : Finder.session nat :=
  Finder.mk_session 1 5 (mk_structure eye [mk_site 29%nat (0, 0, 0)])
    (transpose eye) [(0, 0, 0)] [29%nat] [1%nat] "R-3m (166)".

Lemma rhombohedral_primitive_cell_witness :
  Symbol.get_lattice_type rhombohedral_session = Ok (Some "rhombohedral"%string)
  /\ Standard.get_refined_structure nat refine_identity (fun _ _ => true) rhombohedral_session
      = Ok (mk_structure eye [mk_site 29%nat (0, 0, 0)])
  /\ (forall st,
        Standard.get_primitive_standard_structure nat Nat.eq_dec refine_identity (fun st _ => st)
          (fun st => st) (fun _ _ => true) (fun _ => true) Examples.identity_symmetry rhombohedral_session = Ok st ->
        lengths_and_angles (lattice st) = ((1, 1, 1), (90, 90, 90))).
Proof.
  assert (Href : Standard.get_refined_structure nat refine_identity (fun _ _ => true)
                   rhombohedral_session = Ok (mk_structure eye [mk_site 29%nat (0, 0, 0)]))
    by reflexivity.
  assert (Hn : norm (row0 (lattice (mk_structure eye [mk_site 29%nat (0, 0, 0)]))) = 1).
  { apply norm_of_sq; [lra|]. unfold dot, eye. cbn. ring. }
  assert (Hang : angle_deg (row1 (lattice (mk_structure eye [mk_site 29%nat (0, 0, 0)])))
                   (row2 (lattice (mk_structure eye [mk_site 29%nat (0, 0, 0)]))) = 90).
  { apply angle_deg_orth. unfold dot, eye. cbn. ring. }
  split; [vm_compute; reflexivity|]. split; [exact Href|].
  intros st Hst.
  pose proof (rhombohedral_primitive_cell Nat.eq_dec refine_identity (fun st _ => st)
                (fun st => st) (fun _ _ => true) (fun _ => true) Examples.identity_symmetry rhombohedral_session "R-3m"
                (mk_structure eye [mk_site 29%nat (0, 0, 0)])
                ltac:(vm_compute; reflexivity) ltac:(vm_compute; reflexivity) eq_refl Href
                ltac:(rewrite Hn; lra) st Hst) as H.
  cbv zeta in H. rewrite Hn, Hang in H. exact H.
Defined.

End PrimitiveExtras.

Module KpointExtras.
Import Geo KpointClaims.

(** The body of the loop of [get_ir_kpoints] (lines 392-398). *)
Definition ir_body (mapping : list Z) : list vec * list Z -> nat * vec -> result (list vec * list Z) :=
  fun '(irr_kpts, n) '(i, kpts) =>
    let* m := Py.index mapping (Z.of_nat i) in
    if negb (Py.mem m n)
    then Ok (irr_kpts ++ [kpts], n ++ [Z.of_nat i])
    else Ok (irr_kpts, n).

(** Inside the mapping the loop keeps a subsequence of the k-points. *)
Lemma ir_loop_ok (mapping : list Z) (l : list vec) (k : nat) (irr : list vec) (n : list Z) :
  (k + List.length l <= List.length mapping)%nat ->
  exists sel n', List.length sel = List.length l
    /\ for_each (combine (seq k (List.length l)) l) (ir_body mapping) (irr, n)
       = Ok (irr ++ map snd (filter fst (combine sel l)), n').
Proof.
  revert k irr n. induction l as [|x l IH]; intros k irr n H; cbn [List.length] in H.
  - exists [], n. split; [reflexivity|]. cbn. rewrite app_nil_r. reflexivity.
  - cbn [List.length seq combine for_each ir_body].
    rewrite py_index_nth by lia. cbn [bind].
    destruct (negb (Py.mem (nth k mapping 0%Z) n)); cbn [bind].
    + destruct (IH (S k) (irr ++ [x]) (n ++ [Z.of_nat k])) as [sel [n' [Hl E]]]; [lia|].
      exists (true :: sel), n'. split; [cbn; rewrite Hl; reflexivity|].
      rewrite E, <- app_assoc. reflexivity.
    + destruct (IH (S k) irr n) as [sel [n' [Hl E]]]; [lia|].
      exists (false :: sel), n'. split; [cbn; rewrite Hl; reflexivity|]. exact E.
Qed.

(** The mapping is read from the buffer [np.zeros(len(kpoints))] filled in
    place by the extension. *)
Lemma mapping_length {Sp : Type}
  (spg_ir_kpoints : list Z -> list vec -> mat3 -> list vec -> list nat -> Z -> R -> option (nat -> Z))
  (s : Finder.session Sp) (kpoints : list vec) (is_time_reversal : bool) (m : list Z) :
  Finder.get_ir_kpoints_mapping Sp spg_ir_kpoints s kpoints is_time_reversal = Ok m ->
  List.length m = List.length kpoints.
Proof.
  unfold Finder.get_ir_kpoints_mapping. destruct (spg_ir_kpoints _ _ _ _ _ _ _); [|discriminate].
  intros E. injection E as <-. rewrite length_map, length_seq. reflexivity.
Qed.

(** The mapping returned by [get_ir_kpoints_mapping] always has one entry
    per k-point, and the only error of either function is the
    extension's. [get_ir_kpoints] returns a subsequence of the k-points,
    in their order, which starts with the first k-point: the first one is
    always kept, as no index has been recorded yet. *)
Theorem ir_kpoints_mapping_length {Sp : Type}
  (spg_ir_kpoints : list Z -> list vec -> mat3 -> list vec -> list nat -> Z -> R -> option (nat -> Z))
  (s : Finder.session Sp) (kpoints : list vec) (is_time_reversal : bool) :
  (forall m, Finder.get_ir_kpoints_mapping Sp spg_ir_kpoints s kpoints is_time_reversal = Ok m ->
             List.length m = List.length kpoints)
  /\ (forall e, Finder.get_ir_kpoints_mapping Sp spg_ir_kpoints s kpoints is_time_reversal = Err e ->
                e = OracleError)
  /\ (forall e, Finder.get_ir_kpoints Sp spg_ir_kpoints s kpoints is_time_reversal = Err e ->
                e = OracleError)
  /\ (forall irr, Finder.get_ir_kpoints Sp spg_ir_kpoints s kpoints is_time_reversal = Ok irr ->
        (exists sel, List.length sel = List.length kpoints
                     /\ irr = map snd (filter fst (combine sel kpoints)))
        /\ (forall k0 rest, kpoints = k0 :: rest -> exists irr', irr = k0 :: irr')).
Proof.
  split; [exact (mapping_length spg_ir_kpoints s kpoints is_time_reversal)|].
  split.
  { unfold Finder.get_ir_kpoints_mapping. destruct (spg_ir_kpoints _ _ _ _ _ _ _); [discriminate|].
    intros e E. injection E as <-. reflexivity. }
  unfold Finder.get_ir_kpoints, Finder.ir_kpoints_loop.
  destruct (Finder.get_ir_kpoints_mapping Sp spg_ir_kpoints s kpoints is_time_reversal)
    as [mapping|e0] eqn:Em; cbn [bind].
  2:{ split; [|discriminate]. intros e E. injection E as <-.
      unfold Finder.get_ir_kpoints_mapping in Em.
      destruct (spg_ir_kpoints _ _ _ _ _ _ _); [discriminate|]. injection Em as <-. reflexivity. }
  pose proof (mapping_length spg_ir_kpoints s kpoints is_time_reversal mapping Em) as Hlen.
  change (fun '(irr_kpts, n) '(i, kpts) =>
    let* m := Py.index mapping (Z.of_nat i) in
    if negb (Py.mem m n)
    then Ok (irr_kpts ++ [kpts], n ++ [Z.of_nat i])
    else Ok (irr_kpts, n)) with (ir_body mapping).
  assert (Hl : (0 + List.length kpoints <= List.length mapping)%nat) by lia.
  destruct (ir_loop_ok mapping kpoints 0 [] [] Hl) as [sel [n' [Hs E]]].
  rewrite E. cbn [bind fst app].
  split; [discriminate|].
  intros irr Hirr. injection Hirr as <-. split; [exists sel; split; [exact Hs|reflexivity]|].
  intros k0 rest ->.
  cbn [List.length seq combine for_each ir_body] in E.
  rewrite py_index_nth in E by (cbn [List.length] in Hl; lia). cbn [bind Py.mem existsb negb] in E.
  destruct (ir_loop_ok mapping rest 1 [k0] [0%Z]) as [sel' [n'' [_ E']]];
    [cbn [List.length] in Hl; lia|].
  change (Z.of_nat 0) with 0%Z in E. cbn [app] in E.
  rewrite E' in E. injection E as E _. rewrite <- E. exists (map snd (filter fst (combine sel' rest))).
  reflexivity.
Qed.

End KpointExtras.
